(** * Model-drift statistics: [dku_data_drift/model_tools.py]

    A shallow embedding of the three components of [model_tools.py]:

    - [mroc_auc_score], the multi-class discrimination score
      (Hand and Till's M measure over one-vs-one binary AUCs);
    - [format_proba_density], the kernel density estimate evaluated on a
      500-point support grid;
    - [SurrogateModel], the random-forest wrapper recording feature names.

    Python floats are IEEE binary64 numbers, embedded as Rocq's primitive
    floats.  Calls into numpy's numeric routines, scikit-learn and the
    plugin's own [Preprocessor] are calls to collaborators: each Python
    import is an interface (a type class) whose operations may raise, and
    every such call is recorded in a trace, so that "raises before any
    computation" is a statement about the trace. *)

From Stdlib Require Import String.
From Stdlib Require Import ZArith List Bool Lia Permutation Sorted.
From Stdlib Require Import Floats.
Import ListNotations.

Set Warnings "-inexact-float".

(* ================================================================= *)
(** ** Python values, exceptions and results *)

(** The exceptions that the module raises itself or lets through. *)
Inductive exn : Type :=
| ValueError (msg : string)
| IndexError (msg : string)
| KeyError (key : string).

(** The outcome of a Python expression: a value, or a raised exception. *)
Inductive result (A : Type) : Type :=
| Ok (a : A)
| Raise (e : exn).

Arguments Ok {A} a.
Arguments Raise {A} e.

Definition result_bind {A B} (r : result A) (f : A -> result B) : result B :=
  match r with
  | Ok a => f a
  | Raise e => Raise e
  end.

Fixpoint result_mapM {A B} (f : A -> result B) (l : list A) : result (list B) :=
  match l with
  | [] => Ok []
  | x :: t =>
      result_bind (f x) (fun y =>
      result_bind (result_mapM f t) (fun ys => Ok (y :: ys)))
  end.

(** A Python number as the density list holds them: the literal [0] that
    patches a NaN is an [int], every other entry a float. *)
Inductive pynum : Type :=
| PyInt (n : Z)
| PyFloat (v : float).

(** [float(n)] for a Python [int]: the nearest binary64 number. *)
Definition float_of_Z (n : Z) : float :=
  SF2Prim (binary_normalize prec emax n 0 false).

Definition float_of_nat (n : nat) : float := float_of_Z (Z.of_nat n).

(* ================================================================= *)
(** ** Tables *)

(** A cell of a pandas table. *)
Inductive cell : Type :=
| Num (v : float)
| Str (s : string)
| Missing.

(** A [DataFrame] as the ordered list of its named columns; pandas allows
    a name to label several columns. *)
Definition DataFrame : Type := list (string * list cell).

Definition columns (df : DataFrame) : list string := map fst df.

(** [df.drop(name, axis=1)]: every column labelled [name] is removed; a
    label that is not present is a [KeyError]. *)
Definition drop (df : DataFrame) (name : string) : result DataFrame :=
  if existsb (String.eqb name) (columns df)
  then Ok (filter (fun c => negb (String.eqb name (fst c))) df)
  else Raise (KeyError name).

(** [df[name]]: the column(s) labelled [name]. *)
Definition getitem (df : DataFrame) (name : string) : result (list (list cell)) :=
  if existsb (String.eqb name) (columns df)
  then Ok (map snd (filter (fun c => String.eqb name (fst c)) df))
  else Raise (KeyError name).

(* ================================================================= *)
(** ** Calls to collaborators and their trace *)

(** One entry per call that leaves the module. *)
Inductive event : Type :=
| call_roc_auc_score (y_true : list Z) (y_score : list float)
                     (sample_weight : option (list float))
| call_KernelDensity_fit (bandwidth : float) (X : list float)
                         (sample_weight : option (list float))
| call_score_samples (X : list float)
| new_RandomForestClassifier (random_state : Z)
| new_RandomForestRegressor (random_state : Z)
| call_get_processed_train_test (df : DataFrame) (target : string)
| call_estimator_fit (X : DataFrame) (y : list (list cell)).

(** A Python computation: the calls it made, in order, and its outcome. *)
Definition py (A : Type) : Type := (list event * result A)%type.

Definition ret {A} (a : A) : py A := ([], Ok a).

Definition raise {A} (e : exn) : py A := ([], Raise e).

Definition bind {A B} (m : py A) (f : A -> py B) : py B :=
  match m with
  | (t, Ok a) => let (t', r) := f a in (t ++ t', r)
  | (t, Raise e) => (t, Raise e)
  end.

(** An expression that calls nothing. *)
Definition pure {A} (r : result A) : py A := ([], r).

(** A call to a collaborator, with what it answered. *)
Definition call {A} (ev : event) (r : result A) : py A := ([ev], r).

Declare Scope py_scope.
Delimit Scope py_scope with py.
Notation "x <- m ;; k" := (bind m (fun x => k))
  (at level 61, m at next level, right associativity) : py_scope.

Fixpoint mapM {A B} (f : A -> py B) (l : list A) : py (list B) :=
  match l with
  | [] => ret []
  | x :: t => (y <- f x ;; ys <- mapM f t ;; ret (y :: ys))%py
  end.

Definition trace {A} (m : py A) : list event := fst m.
Definition outcome {A} (m : py A) : result A := snd m.

(* ================================================================= *)
(** ** numpy on label vectors and prediction matrices *)

(** The label vector: integer class codes (they index the columns of the
    prediction matrix in the multi-class branch). *)
Definition Series : Type := list Z.

(** A 2-d array of floats with its [shape[1]]; [shape[0]] is the number
    of rows. *)
Record ndarray : Type := mk_ndarray {
  shape1 : nat;
  array_rows : list (list float)
}.

Definition shape0 (a : ndarray) : nat := length (array_rows a).

(** Every row of a well-formed array has [shape1] entries. *)
Definition well_formed (a : ndarray) : bool :=
  forallb (fun r => Nat.eqb (length r) (shape1 a)) (array_rows a).

Module np.

(** Insertion into a strictly increasing list. *)
Fixpoint insert (x : Z) (l : list Z) : list Z :=
  match l with
  | [] => [x]
  | y :: t =>
      if (x <? y)%Z then x :: l
      else if (x =? y)%Z then l
      else y :: insert x t
  end.

(** [np.unique]: the sorted distinct values. *)
Definition unique (y : list Z) : list Z := fold_right insert [] y.

(** [np.in1d(y, values)]: the membership mask. *)
Definition in1d (y : list Z) (values : list Z) : list bool :=
  map (fun c => existsb (Z.eqb c) values) y.

(** [a[mask]] for a boolean mask: the mask must be as long as the array. *)
Definition take {A} (a : list A) (mask : list bool) : result (list A) :=
  if Nat.eqb (length mask) (length a)
  then Ok (map fst (filter snd (combine a mask)))
  else Raise (IndexError "boolean index did not match indexed array").

(** [a[:, i]]: an index outside [-shape1, shape1) is an [IndexError], a
    negative one counts from the last column. *)
Definition column (a : ndarray) (i : Z) : result (list float) :=
  let n := Z.of_nat (shape1 a) in
  if ((i <? - n) || (n <=? i))%Z
  then Raise (IndexError "index is out of bounds for axis 1")
  else
    let k := Z.to_nat (if (i <? 0)%Z then i + n else i)%Z in
    Ok (map (fun r => nth k r 0%float) (array_rows a)).

(** [a[mask]] on a 2-d array keeps the selected rows. *)
Definition take_rows (a : ndarray) (mask : list bool) : result ndarray :=
  result_bind (take (array_rows a) mask) (fun rs => Ok (mk_ndarray (shape1 a) rs)).

(** [np.isnan]: a NaN is the one float that differs from itself. *)
Definition isnan (v : float) : bool := PrimFloat.is_nan v.

(** [y[-1] = stop]. *)
Definition set_last (y : list float) (stop : float) : list float :=
  removelast y ++ [stop].

(** [np.linspace(start, stop, num, dtype=float)] with the end point kept,
    as numpy computes it: [arange(num) * step + start] with
    [step = (stop - start) / (num - 1)], the last entry overwritten by
    [stop]; a step that rounds to zero is applied as [i / div * delta]. *)
Definition linspace (start stop : float) (num : nat) : list float :=
  let div := (num - 1)%nat in
  let delta := (stop - start)%float in
  let y := map float_of_nat (seq 0 num) in
  let y :=
    if (0 <? div)%nat then
      let step := (delta / float_of_nat div)%float in
      if (step =? 0)%float
      then map (fun v => (v / float_of_nat div * delta)%float) y
      else map (fun v => (v * step)%float) y
    else map (fun v => (v * delta)%float) y in
  let y := map (fun v => (v + start)%float) y in
  if (1 <? num)%nat then set_last y stop else y.

End np.

(** [classes.index(c)] on a Python list. *)
Fixpoint index (c : Z) (classes : list Z) : result Z :=
  match classes with
  | [] => Raise (ValueError "value is not in list")
  | x :: t =>
      if (x =? c)%Z then Ok 0%Z
      else result_bind (index c t) (fun n => Ok (n + 1)%Z)
  end.

(** [sum(...)] of floats: Python starts from [0] and adds from the left. *)
Definition sum (terms : list float) : float :=
  fold_left PrimFloat.add terms 0%float.

(* ================================================================= *)
(** ** The multi-class discrimination score *)

(** [sklearn.metrics]: the binary discrimination score.  Its first
    argument is the binary indicator ([True] is [1]). *)
Class sklearn_metrics : Type := {
  roc_auc_score :
    list Z -> list float -> option (list float) -> result float
}.

Definition more_classes_msg : string :=
  "Your test set contained more classes than the test set. Check your dataset or try a different split.".

Definition less_than_two_msg : string :=
  "Ended up with less than two-classes in the validation set.".

Section Scorer.

Context {metrics : sklearn_metrics}.

(** The call itself, recorded. *)
Definition do_roc_auc_score (y : list Z) (s : list float)
    (w : option (list float)) : py float :=
  call (call_roc_auc_score y s w) (roc_auc_score y s w).

(** The inner function [A(i, j)] of [mroc_auc_score], with the variables
    it closes over as arguments. *)
Definition A (y_true : Series) (y_predictions : ndarray)
    (sample_weight : option (list float)) (i j : Z) : py float :=
  (let mask := np.in1d y_true [i; j] in
   y_true_mask <- pure (np.take y_true mask) ;;
   let y_true_i := map (fun c => Z.b2z (c =? i)%Z) y_true_mask in
   y_pred_mask <- pure (np.take_rows y_predictions mask) ;;
   y_pred_i <- pure (np.column y_pred_mask i) ;;
   sample_weight_i <-
     match sample_weight with
     | Some w => (w_mask <- pure (np.take w mask) ;; ret (Some w_mask))
     | None => ret None
     end ;;
   do_roc_auc_score y_true_i y_pred_i sample_weight_i)%py.

(** [(i, j) for i in classes for j in classes if i != j]. *)
Definition pairs (classes : list Z) : list (Z * Z) :=
  flat_map
    (fun i => map (pair i) (filter (fun j => negb (i =? j)%Z) classes))
    classes.

Definition mroc_auc_score (y_true : Series) (y_predictions : ndarray)
    (sample_weight : option (list float)) : py float :=
  (let max_nb_classes := shape1 y_predictions in
   let classes := np.unique y_true in
   let nb_classes := length classes in
   if (max_nb_classes <? nb_classes)%nat then
     raise (ValueError more_classes_msg)
   else if (nb_classes <? 2)%nat then
     raise (ValueError less_than_two_msg)
   else if (nb_classes =? 2)%nat then
     y_true' <- pure (result_mapM (fun c => index c classes) y_true) ;;
     y_score <- pure (np.column y_predictions 1) ;;
     do_roc_auc_score y_true' y_score sample_weight
   else
     let C := (1 / float_of_nat (nb_classes * (nb_classes - 1)))%float in
     terms <- mapM (fun ij => A y_true y_predictions sample_weight (fst ij) (snd ij))
                   (pairs classes) ;;
     ret (C * sum terms)%float)%py.

End Scorer.

(* ================================================================= *)
(** ** What the specification says of the score *)

(** The rows whose true label is [i] or [j], each paired with its label. *)
Definition restricted {X} (i j : Z) (y_true : Series) (xs : list X) : list (Z * X) :=
  filter (fun r => (fst r =? i)%Z || (fst r =? j)%Z) (combine y_true xs).

(** Every ordered pair of distinct observed classes. *)
Definition ordered_pairs (classes : list Z) : list (Z * Z) :=
  filter (fun ij => negb (fst ij =? snd ij)%Z) (list_prod classes classes).

(** The two observed labels sent to 0 and 1 in ascending order: the
    smallest label is 0, the other one is 1. *)
Definition binary_labels (y_true : Series) : list Z :=
  let lowest := fold_right Z.min (hd 0%Z y_true) y_true in
  map (fun c => if (c =? lowest)%Z then 0%Z else 1%Z) y_true.

Section ScorerSpec.

Context {metrics : sklearn_metrics}.

(** [A(i|j)]: the binary score on the rows labelled [i] or [j], class [i]
    being the positive one, the probability of class [i] (column [i]) the
    score, and the weights restricted to the same rows. *)
Definition A_spec (y_true : Series) (y_predictions : ndarray)
    (sample_weight : option (list float)) (i j : Z) : py float :=
  let rows := restricted i j y_true (array_rows y_predictions) in
  do_roc_auc_score
    (map (fun r => if (fst r =? i)%Z then 1%Z else 0%Z) rows)
    (map (fun r => nth (Z.to_nat i) (snd r) 0%float) rows)
    (option_map (fun w => map snd (restricted i j y_true w)) sample_weight).

(** [M = (1 / (k (k-1))) * sum of A(i|j)] over the ordered pairs. *)
Definition M_spec (y_true : Series) (y_predictions : ndarray)
    (sample_weight : option (list float)) : py float :=
  (let classes := np.unique y_true in
   let k := length classes in
   terms <- mapM (fun ij => A_spec y_true y_predictions sample_weight (fst ij) (snd ij))
                 (ordered_pairs classes) ;;
   ret ((1 / float_of_nat (k * (k - 1))) * sum terms)%float)%py.

(** The binary score of column 1 against the remapped labels. *)
Definition binary_spec (y_true : Series) (y_predictions : ndarray)
    (sample_weight : option (list float)) : py float :=
  do_roc_auc_score
    (binary_labels y_true)
    (map (fun r => nth 1 r 0%float) (array_rows y_predictions))
    sample_weight.

End ScorerSpec.

(* ================================================================= *)
(** ** A reference binary score, to run the model on concrete inputs *)

(** The weighted Mann-Whitney form of the area under the ROC curve: the
    weighted share of (positive, negative) pairs that the score orders
    correctly, ties counting one half.  scikit-learn refuses a sample with
    a single class. *)
Definition pairwise_auc (y_true : list Z) (y_score : list float)
    (sample_weight : option (list float)) : result float :=
  let w := match sample_weight with
           | Some w => w
           | None => map (fun _ => 1%float) y_true
           end in
  let rows := combine y_true (combine y_score w) in
  let pos := map snd (filter (fun r => negb (fst r =? 0)%Z) rows) in
  let neg := map snd (filter (fun r => (fst r =? 0)%Z) rows) in
  match pos, neg with
  | [], _ | _, [] =>
      Raise (ValueError "Only one class present in y_true. ROC AUC score is not defined in that case.")
  | _, _ =>
      let credit p n :=
        (snd p * snd n *
           (if fst n <? fst p then 1 else if fst p =? fst n then 0.5 else 0))%float in
      let won := sum (flat_map (fun p => map (credit p) neg) pos) in
      Ok (won / (sum (map snd pos) * sum (map snd neg)))%float
  end.

#[local] Instance reference_metrics : sklearn_metrics :=
  {| roc_auc_score := pairwise_auc |}.

(* ================================================================= *)
(** ** The density estimate *)

(** The numeric routines of numpy and [math] that the estimate calls on
    its sample: they are total on floats. *)
Class numerics : Type := {
  np_std : list float -> float;
  np_unique : list float -> list float;
  np_exp : float -> float;
  math_pow : float -> float -> float
}.

(** [sklearn.neighbors.KernelDensity] with a Gaussian kernel: the fit of
    a sample, and the log-density of a fitted estimator on a grid. *)
Class sklearn_neighbors : Type := {
  KernelDensity : Type;
  KernelDensity_fit :
    float -> list float -> option (list float) -> result KernelDensity;
  score_samples : KernelDensity -> list float -> result (list float)
}.

Section Density.

Context {num : numerics} {neighbors : sklearn_neighbors}.

Definition format_proba_density (data : list float)
    (sample_weight : option (list float)) (min_support max_support : float)
    : py (list (float * pynum)) :=
  (if (length data =? 0)%nat then ret []
   else
     let h := (1.06 * np_std data
               * math_pow (float_of_nat (length data)) (-0.2))%float in
     let h := if (h <=? 0)%float then 0.06%float else h in
     let sample_weight :=
       if (length (np_unique data) =? 1)%nat then None else sample_weight in
     let X_plot := np.linspace min_support max_support 500 in
     kde <- call (call_KernelDensity_fit h data sample_weight)
                 (KernelDensity_fit h data sample_weight) ;;
     log_density <- call (call_score_samples X_plot) (score_samples kde X_plot) ;;
     let Y_plot :=
       map (fun v => if negb (np.isnan v) then PyFloat v else PyInt 0)
           (map np_exp log_density) in
     ret (combine X_plot Y_plot))%py.

End Density.

(* ================================================================= *)
(** ** What the specification says of the density estimate *)

Section DensitySpec.

Context {num : numerics}.

(** The rule-of-thumb bandwidth [1.06 * stddev * n^(-0.2)]. *)
Definition rule_of_thumb (data : list float) : float :=
  (1.06 * np_std data * math_pow (float_of_nat (length data)) (-0.2))%float.

(** The bandwidth of the fit: the rule of thumb, or the fixed minimum
    0.06 when the rule gives nothing positive. *)
Definition selected_bandwidth (data : list float) : float :=
  if (rule_of_thumb data <=? 0)%float then 0.06%float else rule_of_thumb data.

(** The sample holds a single unique value. *)
Definition single_valued (data : list float) : bool :=
  (length (np_unique data) =? 1)%nat.

(** The weights of the fit: none for a single-valued sample, else the
    caller's. *)
Definition fitted_weights (data : list float)
    (sample_weight : option (list float)) : option (list float) :=
  if single_valued data then None else sample_weight.

End DensitySpec.

(** The fits of a kernel density that a trace records: bandwidth, sample
    and weights of each. *)
Definition kernel_fits (t : list event)
    : list (float * list float * option (list float)) :=
  flat_map (fun ev => match ev with
                      | call_KernelDensity_fit h X w => [(h, X, w)]
                      | _ => []
                      end) t.



(** Each entry is at most the next one. *)
Definition nondecreasing (xs : list float) : bool :=
  forallb (fun p => (fst p <=? snd p)%float) (combine xs (tl xs)).

(** A finite number of the normal range: at least [2^-1022] in absolute
    value. *)
Definition normal (x : float) : bool :=
  PrimFloat.is_finite x && (0x1p-1022 <=? abs x)%float.

(** Zero, or a finite number of the normal range: any finite number but
    the nonzero denormals. *)
Definition zero_or_normal (x : float) : bool :=
  (x =? 0)%float || normal x.

(* ================================================================= *)
(** ** The surrogate model *)

(** The two tags of [ModelDriftConstants] that the class reads; their
    values live in [model_drift_constants.py], which is not part of the
    sources at hand, so they are parameters here. *)
Class ModelDriftConstants : Type := {
  CLASSIFICATION_TYPE : string;
  REGRRSSION_TYPE : string
}.

(** [sklearn.ensemble]: the two random forests and their [fit]. *)
Class sklearn_ensemble : Type := {
  estimator : Type;
  RandomForestClassifier : Z -> estimator;
  RandomForestRegressor : Z -> estimator;
  estimator_fit : estimator -> DataFrame -> list (list cell) -> result estimator
}.

(** [Preprocessor(df, target).get_processed_train_test()] of the plugin's
    [preprocessing.py], which is not part of the sources at hand. *)
Class preprocessing : Type := {
  get_processed_train_test : DataFrame -> string -> result (DataFrame * DataFrame)
}.


Section Surrogate.

Context {constants : ModelDriftConstants} {ensemble : sklearn_ensemble}
        {preprocessor : preprocessing}.

(** The attributes of a [SurrogateModel] object. *)
Record SurrogateModel : Type := mk_SurrogateModel {
  feature_names : option (list string);
  target : option string;
  prediction_type : string;
  clf : estimator
}.

Definition check (prediction_type : string) : py unit :=
  if negb (existsb (String.eqb prediction_type)
             [CLASSIFICATION_TYPE; REGRRSSION_TYPE])
  then raise (ValueError "Prediction type must either be CLASSIFICATION or REGRESSION.")
  else ret tt.

Definition __init__ (prediction_type : string) : py SurrogateModel :=
  (_ <- check prediction_type ;;
   clf <- (if String.eqb prediction_type CLASSIFICATION_TYPE
           then call (new_RandomForestClassifier 1407)
                     (Ok (RandomForestClassifier 1407))
           else call (new_RandomForestRegressor 1407)
                     (Ok (RandomForestRegressor 1407))) ;;
   ret (mk_SurrogateModel None None prediction_type clf))%py.

Definition get_features (self : SurrogateModel) : option (list string) :=
  feature_names self.

(** [fit] updates the object in place; the model returns the object as it
    is after the call. *)
Definition fit (self : SurrogateModel) (df : DataFrame) (target_name : string)
    : py SurrogateModel :=
  (train_test <- call (call_get_processed_train_test df target_name)
                      (get_processed_train_test df target_name) ;;
   let train := fst train_test in
   train_X <- pure (drop train target_name) ;;
   train_Y <- pure (getitem train target_name) ;;
   fitted <- call (call_estimator_fit train_X train_Y)
                  (estimator_fit (clf self) train_X train_Y) ;;
   ret (mk_SurrogateModel (Some (columns train_X)) (target self)
                          (prediction_type self) fitted))%py.

End Surrogate.

(* ================================================================= *)
(** ** Reference collaborators for the density estimate

    Float implementations of the routines the estimate calls, accurate to
    about twelve digits: enough to run the model on concrete samples.  The
    theorems below hold for every implementation of the interfaces. *)

Module Reference.

Local Open Scope float_scope.

Fixpoint horner_exp (n : nat) (k x : float) : float :=
  match n with
  | O => 1
  | S n' => 1 + x / k * horner_exp n' (k + 1) x
  end.

Fixpoint repeat_square (n : nat) (v : float) : float :=
  match n with
  | O => v
  | S n' => repeat_square n' (v * v)
  end.

(** [exp]: it overflows to [infinity] above 709.78 and underflows to 0. *)
Definition exp (x : float) : float :=
  if x <? -746 then 0
  else if 710 <? x then infinity
  else repeat_square 10 (horner_exp 20 1 (x / 1024)).

Fixpoint halley_ln (n : nat) (x y : float) : float :=
  match n with
  | O => y
  | S n' => let e := exp y in halley_ln n' x (y + 2 * (x - e) / (x + e))
  end.

Definition ln (x : float) : float :=
  if x =? 0 then neg_infinity
  else if x <? 0 then nan
  else if x =? infinity then infinity
  else let (m, e) := Z.frexp x in
       float_of_Z e * 0.6931471805599453 + halley_ln 6 m (-0.35).

Definition pow (x y : float) : float := exp (y * ln x).

(** The population standard deviation ([ddof = 0]). *)
Definition std (data : list float) : float :=
  let n := float_of_nat (length data) in
  let mean := sum data / n in
  sqrt (sum (map (fun x => (x - mean) * (x - mean)) data) / n).

Fixpoint insert (x : float) (l : list float) : list float :=
  match l with
  | [] => [x]
  | y :: t =>
      if x <? y then x :: l
      else if x =? y then l
      else y :: insert x t
  end.

Definition unique (data : list float) : list float := fold_right insert [] data.

Definition finite (x : float) : bool :=
  negb (PrimFloat.is_nan x) && negb (PrimFloat.is_infinity x).

(** A fitted Gaussian kernel density: its bandwidth, sample and weights. *)
Record kde : Type := mk_kde {
  bandwidth : float;
  sample : list float;
  weights : list float
}.

(** scikit-learn validates what it is given: it refuses a bandwidth
    [<= 0], a sample that is not finite, and weights that are not
    positive or not one per sample point. *)
Definition kde_fit (h : float) (X : list float) (w : option (list float))
    : result kde :=
  if h <=? 0 then
    Raise (ValueError "bandwidth must be positive")
  else if negb (forallb finite X) then
    Raise (ValueError "Input contains NaN, infinity or a value too large")
  else
    match w with
    | None => Ok (mk_kde h X (map (fun _ => 1) X))
    | Some w =>
        if negb (Nat.eqb (length w) (length X)) then
          Raise (ValueError "sample_weight has an inconsistent number of samples")
        else if negb (forallb (fun v => 0 <? v) w) then
          Raise (ValueError "sample_weight must have positive values")
        else Ok (mk_kde h X w)
    end.

(** The log of the weighted mean of the Gaussian bumps at [x]. *)
Definition log_density (k : kde) (x : float) : float :=
  let bump xi wi :=
    let z := (x - xi) / bandwidth k in wi * exp (-0.5 * z * z) in
  let total := sum (map (fun p => bump (fst p) (snd p))
                        (combine (sample k) (weights k))) in
  ln total - ln (sum (weights k)) - ln (bandwidth k) - 0.5 * ln 6.283185307179586.

Definition kde_score_samples (k : kde) (X : list float) : result (list float) :=
  if negb (forallb finite X) then
    Raise (ValueError "Input contains NaN, infinity or a value too large")
  else Ok (map (log_density k) X).

End Reference.

#[local] Instance reference_numerics : numerics :=
  {| np_std := Reference.std;
     np_unique := Reference.unique;
     np_exp := Reference.exp;
     math_pow := Reference.pow |}.

#[local] Instance reference_neighbors : sklearn_neighbors :=
  {| KernelDensity := Reference.kde;
     KernelDensity_fit := Reference.kde_fit;
     score_samples := Reference.kde_score_samples |}.

(** A kernel estimator that answers the same log-density everywhere,
    whatever it was fitted on. *)
Definition constant_log_density (c : float) : sklearn_neighbors :=
  {| KernelDensity := unit;
     KernelDensity_fit := fun _ _ _ => Ok tt;
     score_samples := fun _ X => Ok (map (fun _ => c) X) |}.

(* ================================================================= *)
(** ** Reference collaborators for the surrogate model *)

Module Forest.

Inductive kind : Type := Classifier | Regressor.

(** A random forest: what it is, its seed, and the columns it was last
    fitted on. *)
Record forest : Type := mk_forest {
  forest_kind : kind;
  random_state : Z;
  fitted_on : option (list string)
}.

Definition numeric (c : cell) : bool :=
  match c with
  | Num _ => true
  | _ => false
  end.

(** scikit-learn refuses a table with no feature column, with no row, or
    with a cell that is not a number. *)
Definition forest_fit (f : forest) (X : DataFrame) (y : list (list cell))
    : result forest :=
  if (length X =? 0)%nat then
    Raise (ValueError "at least one array or dtype is required")
  else if forallb (fun c => (length (snd c) =? 0)%nat) X then
    Raise (ValueError "Found array with 0 sample(s) while a minimum of 1 is required")
  else if negb (forallb (fun c => forallb numeric (snd c)) X) then
    Raise (ValueError "could not convert string to float")
  else Ok (mk_forest (forest_kind f) (random_state f) (Some (columns X))).

End Forest.

#[local] Instance reference_ensemble : sklearn_ensemble :=
  {| estimator := Forest.forest;
     RandomForestClassifier := fun seed => Forest.mk_forest Forest.Classifier seed None;
     RandomForestRegressor := fun seed => Forest.mk_forest Forest.Regressor seed None;
     estimator_fit := Forest.forest_fit |}.

Module Preprocessor.

Definition categorical (cs : list cell) : bool :=
  existsb (fun c => match c with Str _ => true | _ => false end) cs.

Definition categories (cs : list cell) : list string :=
  nodup string_dec
    (flat_map (fun c => match c with Str s => [s] | _ => [] end) cs).

Definition impute (c : cell) : cell :=
  match c with
  | Missing => Num 0
  | _ => c
  end.

(** The code of a category: its position among the categories seen in
    training, the next free code for a value not seen there. *)
Fixpoint position (s : string) (values : list string) : nat :=
  match values with
  | [] => O
  | v :: t => if String.eqb s v then O else S (position s t)
  end.

(** A categorical cell becomes the code of its category. *)
Definition encode (values : list string) (c : cell) : cell :=
  match c with
  | Str s => Num (float_of_nat (position s values))
  | _ => impute c
  end.

(** A stand-in for the plugin's [Preprocessor], to run [fit] on concrete
    tables: the first four fifths of the rows train; in a categorical
    column each cell is replaced by the code of its category, the
    categories being read off the training rows; numeric gaps are filled
    with 0; the target column is left as it is, and a table without it
    is refused.  The columns keep their names and their order. *)
Definition processed_train_test (df : DataFrame) (target : string)
    : result (DataFrame * DataFrame) :=
  if negb (existsb (String.eqb target) (columns df)) then
    Raise (ValueError "The target column is not in the table")
  else
    let n := length (hd [] (map snd df)) in
    let n_train := (n - n / 5)%nat in
    let encoded :=
      map
        (fun col =>
           if String.eqb target (fst col) then col
           else if categorical (snd col)
           then (fst col,
                 map (encode (categories (firstn n_train (snd col)))) (snd col))
           else (fst col, map impute (snd col)))
        df in
    Ok (map (fun col => (fst col, firstn n_train (snd col))) encoded,
        map (fun col => (fst col, skipn n_train (snd col))) encoded).

End Preprocessor.

#[local] Instance reference_preprocessing : preprocessing :=
  {| get_processed_train_test := Preprocessor.processed_train_test |}.

(** Modelled from the spec: the two tags of [ModelDriftConstants], as the
    error message of [check] and the spec's [SurrogateModel("CLASSIFICATION")]
    spell them. *)
#[local] Instance reference_constants : ModelDriftConstants :=
  {| CLASSIFICATION_TYPE := "CLASSIFICATION";
     REGRRSSION_TYPE := "REGRESSION" |}.

(* ================================================================= *)
(** ** Relabellings and concrete inputs *)

(** A relabelling applied to both classes of an ordered pair. *)
Definition relabel_pair (sigma : Z -> Z) (ij : Z * Z) : Z * Z :=
  (sigma (fst ij), sigma (snd ij)).

(** Six rows, three classes, a row-stochastic prediction matrix. *)
Definition six_labels : Series := [0; 0; 1; 1; 2; 2]%Z.

Definition six_by_three : ndarray :=
  mk_ndarray 3
    [[0.5; 0.3; 0.2]; [0.2; 0.5; 0.3]; [0.3; 0.4; 0.3];
     [0.1; 0.7; 0.2]; [0.2; 0.2; 0.6]; [0.4; 0.3; 0.3]]%float.

(** The same rows when the third class is coded 5. *)
Definition labels_0_1_5 : Series := [0; 0; 1; 1; 5; 5]%Z.

(** The cyclic relabelling 0 -> 1 -> 2 -> 0 of three classes, and its
    inverse. *)
Definition rotate (c : Z) : Z :=
  if (c =? 0)%Z then 1%Z else if (c =? 1)%Z then 2%Z
  else if (c =? 2)%Z then 0%Z else c.

Definition rotate_back (c : Z) : Z :=
  if (c =? 1)%Z then 0%Z else if (c =? 2)%Z then 1%Z
  else if (c =? 0)%Z then 2%Z else c.

(** One row per class, each predicted with certainty. *)
Definition three_labels : Series := [0; 1; 2]%Z.

Definition identity3 : ndarray :=
  mk_ndarray 3 [[1; 0; 0]; [0; 1; 0]; [0; 0; 1]]%float.

(** [six_by_three] with its columns moved along [rotate]: column
    [rotate i] holds what column [i] held. *)
Definition six_by_three_rotated : ndarray :=
  mk_ndarray 3
    [[0.2; 0.5; 0.3]; [0.3; 0.2; 0.5]; [0.3; 0.3; 0.4];
     [0.2; 0.1; 0.7]; [0.6; 0.2; 0.2]; [0.3; 0.4; 0.3]]%float.

(** Eight rows, three classes, and the same rows with the columns
    moved along [rotate]. *)
Definition eight_labels : Series := [0; 2; 0; 1; 0; 1; 1; 1]%Z.

Definition eight_by_three : ndarray :=
  mk_ndarray 3
    [[0.7; 0.4; 0.2]; [0.8; 0.1; 0.7]; [0.7; 0.1; 0.8]; [0.5; 0.4; 0.2];
     [0.6; 0.1; 0.1]; [0.1; 0.9; 0.1]; [0.7; 0.4; 0.7]; [0.1; 0.9; 0.4]]%float.

Definition eight_by_three_rotated : ndarray :=
  mk_ndarray 3
    [[0.2; 0.7; 0.4]; [0.7; 0.8; 0.1]; [0.8; 0.7; 0.1]; [0.2; 0.5; 0.4];
     [0.1; 0.6; 0.1]; [0.1; 0.1; 0.9]; [0.7; 0.7; 0.4]; [0.4; 0.1; 0.9]]%float.

(** Case analysis on the comparisons of a variable with constants. *)
Ltac case_eqb :=
  repeat match goal with
         | |- context [(?x =? ?n)%Z] =>
             is_var x; destruct (Z.eqb_spec x n); simpl
         end.

(** A small table: a categorical column, a numeric column with a gap,
    and the target. *)
Definition shops : DataFrame :=
  [ ("color"%string, [Str "red"; Str "blue"; Str "red"; Str "blue"; Str "red"]);
    ("size"%string, [Num 1; Num 2; Missing; Num 4; Num 5]);
    ("price"%string, [Num 10; Num 20; Num 30; Num 40; Num 50]) ].

(** A second table, with other columns. *)
Definition flats : DataFrame :=
  [ ("rooms"%string, [Num 1; Num 2; Num 3; Num 4; Num 5]);
    ("rent"%string, [Num 500; Num 700; Num 900; Num 1100; Num 1300]) ].

(** A fresh regression surrogate, and the same object after its fit on
    [shops] with [price] as target. *)
Definition unfitted_regressor : SurrogateModel :=
  mk_SurrogateModel None None "REGRESSION"
    (RandomForestRegressor (sklearn_ensemble := reference_ensemble) 1407).

Definition shops_model : SurrogateModel :=
  mk_SurrogateModel
    (Some ["color"; "size"]%string) None "REGRESSION"
    (Forest.mk_forest Forest.Regressor 1407 (Some ["color"; "size"]%string)).


(** A preprocessing that hands the table back as the train partition,
    beside a given test partition. *)
Definition passthrough (test : DataFrame) : preprocessing :=
  {| get_processed_train_test := fun df _ => Ok (df, test) |}.

(* ================================================================= *)
(** ** Binary64 numbers as exact values *)

(** The numbers that a [spec_float] stands for, counted as integers in
    units of [2^unit_exp], and the rounding to nearest, ties to even, of
    such a value to binary64: what the order of the support grid is
    proved with. *)
Module Binary64.

Local Open Scope Z_scope.

(** The exponent of the unit in which values are counted: below the
    exponent of any product of two binary64 numbers. *)
Definition unit_exp : Z := -2200.

(** [2^1024], in that unit: what stands for an infinity. *)
Definition CAP : Z := 2 ^ (1024 - unit_exp).

(** The exponent of the last place for a number of magnitude [d]. *)
Definition fexp64 (d : Z) : Z := Z.max (d - 53) (-1074).

(** The magnitude of a positive value [V]: [2^(d-1) <= V 2^unit_exp < 2^d]. *)
Definition magnitude (V : Z) : Z := Z.log2 V + 1 + unit_exp.

(** Rounding [q + rem / G] to the nearest integer, ties to even. *)
Definition rne (q rem G : Z) : Z :=
  match 2 * rem ?= G with
  | Lt => q
  | Eq => if Z.even q then q else q + 1
  | Gt => q + 1
  end.

(** A positive value rounded on the grid of exponent [t]. *)
Definition round_at (t V : Z) : Z :=
  let G := 2 ^ (t - unit_exp) in rne (V / G) (V mod G) G * G.

(** A positive value rounded to the nearest binary64 number, ties to
    even, without a bound on the exponent. *)
Definition rvalZ (V : Z) : Z := round_at (fexp64 (magnitude V)) V.

(** A value rounded to binary64, [CAP] standing for the infinities. *)
Definition RV (S : Z) : Z :=
  match S with
  | Z0 => 0
  | Zpos _ => Z.min (rvalZ S) CAP
  | Zneg _ => - Z.min (rvalZ (- S)) CAP
  end.

(** The value of a number of the specification, when it has one. *)
Definition SFval (x : spec_float) : option Z :=
  match x with
  | S754_zero _ => Some 0
  | S754_infinity s => Some (cond_Zopp s CAP)
  | S754_nan => None
  | S754_finite s m e => Some (cond_Zopp s (Zpos m * 2 ^ (e - unit_exp)))
  end.

(** Neither a NaN nor an infinity. *)
Definition SFis_finite (x : spec_float) : bool :=
  match x with
  | S754_zero _ | S754_finite _ _ _ => true
  | _ => false
  end.

Definition Fval (x : float) : option Z := SFval (Prim2SF x).

(** What a shift record stands for: the fraction [num / den], by its
    integer part and the place of the rest against one half. *)
Definition represents (num den : Z) (mrs : shr_record) : Prop :=
  0 < den /\ 0 <= num
  /\ shr_m mrs = num / den
  /\ shr_r mrs = (den <=? 2 * (num mod den))
  /\ shr_s mrs = negb (num mod den =? 0) && negb (2 * (num mod den) =? den).

End Binary64.

(** The float of the integer [i], between 1 and 499, is that integer:
    a positive mantissa and an exponent [e <= 0] with
    [m = i * 2^(-e)]. *)
Definition exact_integer (i : nat) : bool :=
  match Prim2SF (float_of_nat i) with
  | S754_finite false m e =>
    (e <=? 0)%Z && (Zpos m =? Z.of_nat i * 2 ^ (- e))%Z
  | _ => false
  end.

(** The fraction [i / 499] as numpy computes it, in units of [2^-62];
    [-1] stands for anything but zero and the positive numbers of
    exponent [-62] at least. *)
Definition fraction_weight (i : nat) : Z :=
  match Prim2SF (float_of_nat i / float_of_nat 499) with
  | S754_zero _ => 0%Z
  | S754_finite false m e =>
    if (-62 <=? e)%Z then (Zpos m * 2 ^ (e + 62))%Z else (-1)%Z
  | _ => (-1)%Z
  end.

(** The fractions [i / 499] and [(i + 1) / 499] are in order, between 0
    and 1. *)
Definition fractions_in_order (i : nat) : bool :=
  (0 <=? fraction_weight i)%Z
  && (fraction_weight i <=? fraction_weight (i + 1))%Z
  && (fraction_weight (i + 1) <=? 2 ^ 62)%Z.

(* ================================================================= *)
(** * Properties *)

(** ** The error monad *)

Lemma bind_ret_l {A B} (a : A) (f : A -> py B) : bind (ret a) f = f a.
Proof. unfold bind, ret. destruct (f a). reflexivity. Qed.

Lemma bind_pure_ok {A B} (a : A) (f : A -> py B) : bind (pure (Ok a)) f = f a.
Proof. apply bind_ret_l. Qed.

Lemma mapM_ext {A B} (f g : A -> py B) (l : list A) :
  (forall x, In x l -> f x = g x) -> mapM f l = mapM g l.
Proof.
  induction l as [|x t IH]; intros H; simpl.
  - reflexivity.
  - rewrite (H x (or_introl eq_refl)), IH; [reflexivity|].
    intros y Hy. apply H. now right.
Qed.

Lemma mapM_map {A B C} (g : A -> B) (f : B -> py C) (l : list A) :
  mapM f (map g l) = mapM (fun x => f (g x)) l.
Proof.
  induction l as [|x t IH]; simpl; [reflexivity|]. now rewrite IH.
Qed.

(** ** [np.unique]: the distinct values in ascending order *)

Lemma insert_In (x z : Z) (l : list Z) :
  In z (np.insert x l) <-> z = x \/ In z l.
Proof.
  induction l as [|y t IH]; simpl.
  - intuition.
  - destruct (Z.ltb_spec x y); [simpl; intuition|].
    destruct (Z.eqb_spec x y); simpl.
    + subst. intuition.
    + rewrite IH. intuition.
Qed.

Lemma unique_In (z : Z) (y : list Z) : In z (np.unique y) <-> In z y.
Proof.
  induction y as [|x t IH]; simpl; [tauto|].
  unfold np.unique in *. simpl. rewrite insert_In, IH. intuition.
Qed.

Lemma insert_sorted (x : Z) (l : list Z) :
  StronglySorted Z.lt l -> StronglySorted Z.lt (np.insert x l).
Proof.
  induction 1 as [|y t Hs IH Hall]; simpl.
  - repeat constructor.
  - destruct (Z.ltb_spec x y).
    + constructor; [now constructor|].
      constructor; [assumption|].
      eapply Forall_impl; [|exact Hall]. intros; lia.
    + destruct (Z.eqb_spec x y).
      * now constructor.
      * constructor; [assumption|].
        rewrite Forall_forall in *. intros z Hz.
        apply insert_In in Hz. destruct Hz as [->|Hz]; [lia|auto].
Qed.

Lemma unique_sorted (y : list Z) : StronglySorted Z.lt (np.unique y).
Proof.
  induction y as [|x t IH]; simpl; [constructor|].
  now apply insert_sorted.
Qed.

Lemma sorted_NoDup (l : list Z) : StronglySorted Z.lt l -> NoDup l.
Proof.
  induction 1 as [|y t Hs IH Hall]; constructor; [|assumption].
  intros Hin. rewrite Forall_forall in Hall. specialize (Hall _ Hin). lia.
Qed.

Lemma unique_NoDup (y : list Z) : NoDup (np.unique y).
Proof. apply sorted_NoDup, unique_sorted. Qed.

(** ** Boolean masks *)

Lemma take_in1d {X} (y : list Z) (xs : list X) (values : list Z) :
  length y = length xs ->
  np.take xs (np.in1d y values)
  = Ok (map snd (filter (fun r => existsb (Z.eqb (fst r)) values) (combine y xs))).
Proof.
  intros Hlen. unfold np.take, np.in1d.
  rewrite length_map, Hlen, Nat.eqb_refl. f_equal.
  revert xs Hlen. induction y as [|c t IH]; intros [|x xs] Hlen;
    simpl in *; try discriminate; [reflexivity|].
  injection Hlen as Hlen.
  destruct (existsb (Z.eqb c) values); simpl; now rewrite IH.
Qed.

Lemma take_in1d_self (y : list Z) (values : list Z) :
  np.take y (np.in1d y values)
  = Ok (filter (fun c => existsb (Z.eqb c) values) y).
Proof.
  unfold np.take, np.in1d. rewrite length_map, Nat.eqb_refl. f_equal.
  induction y as [|c t IH]; simpl; [reflexivity|].
  destruct (existsb (Z.eqb c) values); simpl; now rewrite IH.
Qed.

Lemma filter_combine_fst {X} (p : Z -> bool) (y : list Z) (xs : list X) :
  length y = length xs ->
  map fst (filter (fun r => p (fst r)) (combine y xs)) = filter p y.
Proof.
  revert xs. induction y as [|c t IH]; intros [|x xs] Hlen;
    simpl in *; try discriminate; [reflexivity|].
  injection Hlen as Hlen.
  destruct (p c); simpl; now rewrite IH.
Qed.

Lemma existsb_pair (c i j : Z) :
  existsb (Z.eqb c) [i; j] = ((c =? i)%Z || (c =? j)%Z).
Proof. simpl. now rewrite orb_false_r. Qed.

Lemma restricted_mask {X} (i j : Z) (y : list Z) (xs : list X) :
  filter (fun r => existsb (Z.eqb (fst r)) [i; j]) (combine y xs)
  = restricted i j y xs.
Proof.
  unfold restricted. apply filter_ext. intros r. apply existsb_pair.
Qed.

(** A column index inside the matrix selects that column. *)
Lemma column_inside (a : ndarray) (i : Z) :
  (0 <= i < Z.of_nat (shape1 a))%Z ->
  np.column a i = Ok (map (fun r => nth (Z.to_nat i) r 0%float) (array_rows a)).
Proof.
  intros Hi. unfold np.column.
  destruct (Z.ltb_spec i (- Z.of_nat (shape1 a))); [lia|].
  destruct (Z.leb_spec (Z.of_nat (shape1 a)) i); [lia|].
  simpl. destruct (Z.ltb_spec i 0); [lia|]. reflexivity.
Qed.

(** Past the last column, and before minus the number of columns, the
    index is refused. *)
Lemma column_outside (a : ndarray) (i : Z) :
  (Z.of_nat (shape1 a) <= i \/ i < - Z.of_nat (shape1 a))%Z ->
  np.column a i = Raise (IndexError "index is out of bounds for axis 1").
Proof.
  intros Hi. unfold np.column.
  destruct (Z.ltb_spec i (- Z.of_nat (shape1 a))); [reflexivity|].
  destruct (Z.leb_spec (Z.of_nat (shape1 a)) i); [reflexivity|lia].
Qed.

(** ** The inner score [A(i, j)] against its specification *)

Section ScorerFacts.

Context {metrics : sklearn_metrics}.

Lemma A_refines (y_true : Series) (P : ndarray) (w : option (list float)) (i j : Z) :
  length y_true = shape0 P ->
  (forall ws, w = Some ws -> length ws = length y_true) ->
  (0 <= i < Z.of_nat (shape1 P))%Z ->
  A y_true P w i j = A_spec y_true P w i j.
Proof.
  intros Hrows Hw Hi. unfold A, A_spec, shape0 in *.
  rewrite take_in1d_self, bind_pure_ok.
  unfold np.take_rows. rewrite (take_in1d _ _ _ Hrows). cbn [result_bind].
  rewrite bind_pure_ok, restricted_mask.
  rewrite column_inside by exact Hi. cbn [array_rows]. rewrite bind_pure_ok.
  assert (Hlabels :
    map (fun c => Z.b2z (c =? i)%Z) (filter (fun c => existsb (Z.eqb c) [i; j]) y_true)
    = map (fun r => if (fst r =? i)%Z then 1%Z else 0%Z)
          (restricted i j y_true (array_rows P))).
  { rewrite <- (filter_combine_fst (fun c => existsb (Z.eqb c) [i; j]) _ _ Hrows).
    rewrite restricted_mask, !map_map. apply map_ext.
    intros r. now destruct (fst r =? i)%Z. }
  rewrite Hlabels, map_map.
  destruct w as [ws|]; cbn [option_map].
  - rewrite take_in1d by (symmetry; now apply Hw).
    rewrite bind_pure_ok, bind_ret_l, restricted_mask. reflexivity.
  - rewrite bind_ret_l. reflexivity.
Qed.

End ScorerFacts.

(** ** The ordered pairs of distinct classes *)

Lemma flat_map_filter_prod (outer inner : list Z) :
  flat_map (fun i => map (pair i) (filter (fun j => negb (i =? j)%Z) inner)) outer
  = filter (fun ij => negb (fst ij =? snd ij)%Z) (list_prod outer inner).
Proof.
  induction outer as [|i t IH]; simpl; [reflexivity|].
  rewrite filter_app, IH. f_equal. clear IH.
  induction inner as [|j u IHu]; simpl; [reflexivity|].
  destruct (i =? j)%Z; simpl; now rewrite IHu.
Qed.

Lemma pairs_ordered_pairs (classes : list Z) : pairs classes = ordered_pairs classes.
Proof. apply flat_map_filter_prod. Qed.

Lemma in_pairs (classes : list Z) (i j : Z) :
  In (i, j) (pairs classes) <-> In i classes /\ In j classes /\ i <> j.
Proof.
  rewrite pairs_ordered_pairs. unfold ordered_pairs.
  rewrite filter_In, in_prod_iff. simpl.
  destruct (Z.eqb_spec i j); simpl; intuition congruence.
Qed.

(** ** Traces *)

Lemma trace_bind {A B} (m : py A) (f : A -> py B) :
  exists t, trace (bind m f) = trace m ++ t.
Proof.
  destruct m as [t [a|e]]; simpl.
  - destruct (f a) as [t' r]. now exists t'.
  - exists []. now rewrite app_nil_r.
Qed.

Lemma bind_called {A B} (m : py A) (f : A -> py B) :
  trace m <> [] -> trace (bind m f) <> [].
Proof.
  intros Hm. destruct (trace_bind m f) as [t ->].
  destruct (trace m); [congruence|discriminate].
Qed.

(** ** Positions in the list of classes *)

Lemma index_found (c : Z) (classes : list Z) :
  In c classes -> exists n, index c classes = Ok n.
Proof.
  induction classes as [|x t IH]; simpl; [tauto|].
  intros [->|Hin].
  - rewrite Z.eqb_refl. now exists 0%Z.
  - destruct (x =? c)%Z; [now exists 0%Z|].
    destruct (IH Hin) as [n ->]. now exists (n + 1)%Z.
Qed.

Lemma result_mapM_ok {X Y} (f : X -> result Y) (g : X -> Y) (l : list X) :
  (forall x, In x l -> f x = Ok (g x)) -> result_mapM f l = Ok (map g l).
Proof.
  induction l as [|x t IH]; intros H; simpl; [reflexivity|].
  rewrite (H x (or_introl eq_refl)). simpl.
  rewrite IH; [reflexivity|]. intros z Hz. apply H. now right.
Qed.

Lemma result_mapM_index (y classes : list Z) :
  (forall c, In c y -> In c classes) ->
  exists positions, result_mapM (fun c => index c classes) y = Ok positions.
Proof.
  intros Hin. induction y as [|c t IH]; simpl.
  - now exists [].
  - destruct (index_found c classes) as [n ->]; [apply Hin; now left|].
    destruct IH as [ps ->]; [intros z Hz; apply Hin; now right|].
    simpl. now exists (n :: ps).
Qed.

(** The lowest label of a series. *)
Lemma lowest_le (d : Z) (y : list Z) (x : Z) :
  In x y -> (fold_right Z.min d y <= x)%Z.
Proof.
  induction y as [|c t IH]; simpl; [tauto|].
  intros [->|Hin]; [lia|]. specialize (IH Hin). lia.
Qed.

Lemma lowest_in (d : Z) (y : list Z) :
  fold_right Z.min d y = d \/ In (fold_right Z.min d y) y.
Proof.
  induction y as [|c t IH]; simpl; [now left|].
  destruct (Z.min_spec c (fold_right Z.min d t)) as [[_ ->]|[_ ->]].
  - right. now left.
  - destruct IH as [IH|IH]; [now left|right; now right].
Qed.

(** With two observed classes [a < b], every label is [a] or [b], and
    the lowest label is [a]. *)
Lemma two_classes (y : list Z) (a b : Z) :
  np.unique y = [a; b] ->
  (a < b)%Z /\ (forall c, In c y -> c = a \/ c = b) /\
  fold_right Z.min (hd 0%Z y) y = a.
Proof.
  intros Hu.
  assert (Hs := unique_sorted y). rewrite Hu in Hs.
  assert (Hab : (a < b)%Z).
  { inversion Hs as [|? ? _ Hall]; subst. now inversion Hall. }
  assert (Hin : forall c, In c y -> c = a \/ c = b).
  { intros c Hc. apply unique_In in Hc. rewrite Hu in Hc.
    simpl in Hc. intuition. }
  split; [assumption|]. split; [assumption|].
  assert (Ha : In a y) by (apply unique_In; rewrite Hu; now left).
  assert (Hle := lowest_le (hd 0%Z y) y a Ha).
  assert (Hm : In (fold_right Z.min (hd 0%Z y) y) y).
  { destruct (lowest_in (hd 0%Z y) y) as [Heq|Hm]; [|assumption].
    rewrite Heq. destruct y; [contradiction|now left]. }
  destruct (Hin _ Hm); lia.
Qed.

Lemma pairs_nonempty (classes : list Z) :
  NoDup classes -> (2 <= length classes)%nat -> pairs classes <> [].
Proof.
  intros Hnd Hlen. destruct classes as [|a [|b t]]; simpl in Hlen; try lia.
  assert (Hab : a <> b).
  { inversion Hnd as [|? ? Hnot _]; subst. intros ->. apply Hnot. now left. }
  assert (Hin : In (a, b) (pairs (a :: b :: t))).
  { apply in_pairs. simpl. intuition. }
  intros Heq. now rewrite Heq in Hin.
Qed.

Section ScorerTheorems.

Context {metrics : sklearn_metrics}.

(** [A(i, j)] never fails silently with a [ValueError]: either it stops
    on an [IndexError] before calling anything, or it calls the binary
    score. *)
Lemma A_index_error_or_call (y : Series) (P : ndarray)
    (w : option (list float)) (i j : Z) :
  (exists msg, A y P w i j = ([], Raise (IndexError msg)))
  \/ trace (A y P w i j) <> [].
Proof.
  unfold A. rewrite take_in1d_self, bind_pure_ok.
  unfold np.take_rows, np.take.
  destruct (Nat.eqb _ (length (array_rows P))); cbn [result_bind];
    [rewrite bind_pure_ok|left; eexists; reflexivity].
  match goal with |- context [np.column ?a i] => destruct (np.column a i) eqn:Hcol end.
  - rewrite bind_pure_ok.
    destruct w as [ws|].
    + destruct (Nat.eqb _ (length ws)).
      * rewrite bind_pure_ok, bind_ret_l. right. discriminate.
      * left. eexists. reflexivity.
    + rewrite bind_ret_l. right. discriminate.
  - left. unfold np.column in Hcol.
    destruct ((i <? _)%Z || _); [|discriminate].
    injection Hcol as <-. eexists. reflexivity.
Qed.

End ScorerTheorems.

(* ================================================================= *)
(** ** The multi-class score *)

Section ScorerClaims.

Context {metrics : sklearn_metrics}.

(** C1 (amended): for a label vector with more than two observed classes
    that passes validation, whose labels and weights are aligned with the
    rows of the prediction matrix, and whose observed labels are column
    indices of that matrix ([0 <= i < shape1]), the score is
    [M = (1 / (k (k-1))) * sum of A(i|j)] over the ordered pairs of
    distinct observed classes, [A(i|j)] being the binary score on the rows
    labelled [i] or [j], with class [i] positive, column [i] as the score
    and the weights restricted to those rows: the same calls to the
    binary score, in the same order, and the same outcome. *)
Theorem mroc_auc_score_is_hand_till_M (y_true : Series) (P : ndarray)
    (w : option (list float)) :
  let k := length (np.unique y_true) in
  (2 < k)%nat ->
  (k <= shape1 P)%nat ->
  length y_true = shape0 P ->
  (forall ws, w = Some ws -> length ws = length y_true) ->
  (forall c, In c y_true -> (0 <= c < Z.of_nat (shape1 P))%Z) ->
  mroc_auc_score y_true P w = M_spec y_true P w.
Proof.
  intros k Hk Hmax Hrows Hw Hcols. unfold mroc_auc_score, M_spec. fold k.
  destruct (Nat.ltb_spec (shape1 P) k); [lia|].
  destruct (Nat.ltb_spec k 2); [lia|].
  destruct (Nat.eqb_spec k 2); [lia|].
  rewrite pairs_ordered_pairs.
  erewrite mapM_ext; [reflexivity|].
  intros [i j] Hij. simpl fst. simpl snd.
  apply A_refines; try assumption.
  apply Hcols. rewrite <- pairs_ordered_pairs in Hij.
  apply in_pairs in Hij. now apply unique_In.
Qed.

(** C2: with exactly two observed labels (on an input that passes
    validation: the prediction matrix has at least two columns, so it
    has a column of index 1), the score is the binary score of column 1
    against the labels sent to 0 and 1 in ascending order, the sample
    weights being handed over as they came. *)
Theorem mroc_auc_score_binary_case (y_true : Series) (P : ndarray)
    (w : option (list float)) :
  length (np.unique y_true) = 2%nat ->
  (2 <= shape1 P)%nat ->
  mroc_auc_score y_true P w = binary_spec y_true P w.
Proof.
  intros Hk Hmax. unfold mroc_auc_score, binary_spec. rewrite Hk.
  destruct (Nat.ltb_spec (shape1 P) 2); [lia|]. simpl Nat.ltb. simpl Nat.eqb. cbv iota.
  destruct (np.unique y_true) as [|a [|b [|? ?]]] eqn:Hu; try discriminate.
  destruct (two_classes y_true a b Hu) as (Hab & Hin & Hlow).
  rewrite (result_mapM_ok _ (fun c => if (c =? a)%Z then 0%Z else 1%Z)).
  - rewrite bind_pure_ok, column_inside by lia. rewrite bind_pure_ok.
    unfold binary_labels. rewrite Hlow. reflexivity.
  - intros c Hc. simpl. destruct (Hin c Hc) as [->| ->].
    + now rewrite Z.eqb_refl.
    + destruct (Z.eqb_spec a b); [lia|]. destruct (Z.eqb_spec b a); [lia|].
      now rewrite Z.eqb_refl.
Qed.

(** C4: the two validation errors are raised before anything is
    computed (the trace of calls is empty), each in its case, and a
    [ValueError] with no call made arises in exactly these two cases:
    more observed classes than columns, or fewer than two observed
    classes. *)
Theorem mroc_auc_score_validates_eagerly (y_true : Series) (P : ndarray)
    (w : option (list float)) :
  let nb_classes := length (np.unique y_true) in
  let max_nb_classes := shape1 P in
  ((max_nb_classes < nb_classes)%nat ->
   mroc_auc_score y_true P w = raise (ValueError more_classes_msg))
  /\ ((nb_classes <= max_nb_classes)%nat -> (nb_classes < 2)%nat ->
      mroc_auc_score y_true P w = raise (ValueError less_than_two_msg))
  /\ ((exists msg, mroc_auc_score y_true P w = raise (ValueError msg))
      <-> (max_nb_classes < nb_classes \/ nb_classes < 2)%nat).
Proof.
  intros k n. unfold mroc_auc_score. fold k. fold n.
  destruct (Nat.ltb_spec n k) as [Hmore|Hmax].
  { split; [reflexivity|]. split; [lia|].
    split; [now left|intros _; eexists; reflexivity]. }
  destruct (Nat.ltb_spec k 2) as [Hless|Htwo].
  { split; [lia|]. split; [reflexivity|].
    split; [now right|intros _; eexists; reflexivity]. }
  split; [lia|]. split; [lia|]. split; [|lia].
  intros [msg Hraise]. exfalso.
  destruct (Nat.eqb_spec k 2) as [Hk|Hk].
  - destruct (result_mapM_index y_true (np.unique y_true)) as [ps Hps];
      [intros c Hc; now apply unique_In|].
    rewrite Hps, bind_pure_ok in Hraise.
    rewrite column_inside, bind_pure_ok in Hraise by (unfold n in Hmax; lia).
    discriminate.
  - assert (Hne := pairs_nonempty (np.unique y_true) (unique_NoDup y_true) Htwo).
    destruct (pairs (np.unique y_true)) as [|[i j] rest]; [congruence|].
    simpl mapM in Hraise.
    destruct (A_index_error_or_call y_true P w i j) as [[m HA]|HA].
    + rewrite HA in Hraise. discriminate.
    + apply (f_equal trace) in Hraise. simpl in Hraise.
      revert Hraise. apply bind_called. now apply bind_called.
Qed.

End ScorerClaims.

(** The six-row example: three classes, three columns, labels 0, 1, 2. *)
Lemma mroc_auc_score_is_hand_till_M_witness :
  mroc_auc_score (metrics := reference_metrics) six_labels six_by_three None
  = M_spec six_labels six_by_three None
  /\ outcome (mroc_auc_score (metrics := reference_metrics)
                six_labels six_by_three None) = Ok 0.8125%float.
Proof.
  split; [|vm_compute; reflexivity].
  apply mroc_auc_score_is_hand_till_M.
  - vm_compute. lia.
  - vm_compute. lia.
  - reflexivity.
  - discriminate.
  - intros c Hc. simpl in Hc. simpl. intuition (subst; lia).
Defined.

(** C1, as stated, fails: three observed classes and three columns pass
    validation, but the class coded 5 has no column 5, and the score
    stops on an [IndexError] instead of returning [M]. *)
Lemma mroc_auc_score_label_beyond_columns :
  well_formed six_by_three = true
  /\ (2 < length (np.unique labels_0_1_5))%nat
  /\ (length (np.unique labels_0_1_5) <= shape1 six_by_three)%nat
  /\ length labels_0_1_5 = shape0 six_by_three
  /\ outcome (mroc_auc_score (metrics := reference_metrics)
                labels_0_1_5 six_by_three None)
     = Raise (IndexError "index is out of bounds for axis 1").
Proof. vm_compute. repeat split; lia. Qed.

(** Four observed classes against three columns, and a single observed
    class: both are refused before anything is computed. *)
Lemma mroc_auc_score_validates_eagerly_witness :
  mroc_auc_score (metrics := reference_metrics) [0; 1; 2; 3]%Z six_by_three None
  = raise (ValueError more_classes_msg)
  /\ mroc_auc_score (metrics := reference_metrics) [4; 4; 4]%Z six_by_three None
     = raise (ValueError less_than_two_msg).
Proof.
  destruct (mroc_auc_score_validates_eagerly (metrics := reference_metrics)
              [0; 1; 2; 3]%Z six_by_three None) as (Hmore & _ & _).
  destruct (mroc_auc_score_validates_eagerly (metrics := reference_metrics)
              [4; 4; 4]%Z six_by_three None) as (_ & Hless & _).
  split; [apply Hmore|apply Hless]; vm_compute; lia.
Defined.

(** Six rows labelled 3 or 7, with weights: the labels become 0 and 1,
    and column 1 is scored. *)
Lemma mroc_auc_score_binary_case_witness :
  length (np.unique [3; 7; 7; 3; 7; 3]%Z) = 2%nat
  /\ (2 <= shape1 six_by_three)%nat
  /\ mroc_auc_score (metrics := reference_metrics)
       [3; 7; 7; 3; 7; 3]%Z six_by_three (Some [1; 2; 1; 1; 1; 3]%float)
     = binary_spec [3; 7; 7; 3; 7; 3]%Z six_by_three (Some [1; 2; 1; 1; 1; 3]%float)
  /\ trace (mroc_auc_score (metrics := reference_metrics)
              [3; 7; 7; 3; 7; 3]%Z six_by_three (Some [1; 2; 1; 1; 1; 3]%float))
     = [call_roc_auc_score [0; 1; 1; 0; 1; 0]%Z [0.3; 0.5; 0.4; 0.7; 0.2; 0.3]%float
                           (Some [1; 2; 1; 1; 1; 3]%float)].
Proof.
  split; [reflexivity|]. split; [simpl; lia|].
  split; [|vm_compute; reflexivity].
  apply mroc_auc_score_binary_case; [reflexivity|simpl; lia].
Defined.

(** ** Relabelling the classes *)

Lemma bind_pure_pure {X Y Z'} (r : result X) (g : X -> result Y) (k : Y -> py Z') :
  bind (pure r) (fun a => bind (pure (g a)) k) = bind (pure (result_bind r g)) k.
Proof. destruct r; [now rewrite bind_pure_ok|reflexivity]. Qed.

(** Selecting rows and then a column is selecting the column and then
    its entries. *)
Lemma column_take_rows (P : ndarray) (mask : list bool) (c : Z) :
  length mask = shape0 P ->
  result_bind (np.take_rows P mask) (fun Pm => np.column Pm c)
  = result_bind (np.column P c) (fun col => np.take col mask).
Proof.
  intros Hlen. unfold np.take_rows, np.take, np.column, shape0 in *.
  rewrite Hlen, Nat.eqb_refl. cbn [result_bind shape1 array_rows].
  destruct ((c <? _)%Z || _); cbn [result_bind]; [reflexivity|].
  rewrite length_map, Nat.eqb_refl. f_equal.
  generalize (Z.to_nat (if (c <? 0)%Z then (c + Z.of_nat (shape1 P))%Z else c)).
  intros k. clear Hlen. revert mask.
  induction (array_rows P) as [|r rows IH]; intros [|b mask]; simpl;
    try reflexivity.
  destruct b; simpl; now rewrite IH.
Qed.

Lemma take_rows_wrong_length (P : ndarray) (mask : list bool) :
  length mask <> shape0 P ->
  np.take_rows P mask = Raise (IndexError "boolean index did not match indexed array").
Proof.
  intros Hlen. unfold np.take_rows, np.take, shape0 in *.
  destruct (Nat.eqb_spec (length mask) (length (array_rows P))); [contradiction|].
  reflexivity.
Qed.

Section Relabelling.

Variable sigma : Z -> Z.
Variable y_true : Series.

(** The relabelling does not merge two observed classes. *)
Hypothesis sigma_injective :
  forall a b, In a y_true -> In b y_true -> sigma a = sigma b -> a = b.

Lemma eqb_relabel (a b : Z) :
  In a y_true -> In b y_true -> (sigma a =? sigma b)%Z = (a =? b)%Z.
Proof.
  intros Ha Hb. destruct (Z.eqb_spec a b) as [->|Hab].
  - apply Z.eqb_refl.
  - apply Z.eqb_neq. intros Heq. apply Hab. now apply sigma_injective.
Qed.

Lemma in1d_relabel (i j : Z) :
  In i y_true -> In j y_true ->
  np.in1d (map sigma y_true) [sigma i; sigma j] = np.in1d y_true [i; j].
Proof.
  intros Hi Hj. unfold np.in1d. rewrite map_map.
  apply map_ext_in. intros c Hc.
  rewrite !existsb_pair, !eqb_relabel by assumption. reflexivity.
Qed.

Lemma positives_relabel (i : Z) (p : Z -> bool) :
  In i y_true ->
  map (fun c => Z.b2z (c =? sigma i)%Z) (filter p (map sigma y_true))
  = map (fun c => Z.b2z (c =? i)%Z) (filter (fun c => p (sigma c)) y_true).
Proof.
  intros Hi.
  assert (H : forall l, (forall c, In c l -> In c y_true) ->
    map (fun c => Z.b2z (c =? sigma i)%Z) (filter p (map sigma l))
    = map (fun c => Z.b2z (c =? i)%Z) (filter (fun c => p (sigma c)) l)).
  { induction l as [|c t IH]; intros Hsub; simpl; [reflexivity|].
    destruct (p (sigma c)); simpl.
    - rewrite eqb_relabel by (auto; apply Hsub; now left).
      rewrite IH; [reflexivity|]. intros z Hz. apply Hsub. now right.
    - apply IH. intros z Hz. apply Hsub. now right. }
  apply H. auto.
Qed.

Context {metrics : sklearn_metrics}.

(** Each pairwise term is unchanged when the columns follow the labels. *)
Lemma A_relabel (P P' : ndarray) (w : option (list float)) (i j : Z) :
  shape0 P' = shape0 P ->
  np.column P' (sigma i) = np.column P i ->
  In i y_true -> In j y_true ->
  A (map sigma y_true) P' w (sigma i) (sigma j) = A y_true P w i j.
Proof.
  intros Hrows Hcol Hi Hj. unfold A. cbv zeta.
  rewrite !take_in1d_self, !bind_pure_ok.
  rewrite in1d_relabel by assumption.
  rewrite positives_relabel by assumption.
  assert (Hfilter :
    filter (fun c => existsb (Z.eqb (sigma c)) [sigma i; sigma j]) y_true
    = filter (fun c => existsb (Z.eqb c) [i; j]) y_true).
  { apply filter_ext_in. intros c Hc.
    rewrite !existsb_pair, !eqb_relabel by assumption. reflexivity. }
  rewrite Hfilter.
  rewrite !bind_pure_pure.
  destruct (Nat.eq_dec (length (np.in1d y_true [i; j])) (shape0 P)) as [Hlen|Hlen].
  - rewrite !column_take_rows by congruence. now rewrite Hcol.
  - rewrite !take_rows_wrong_length by congruence. reflexivity.
Qed.

End Relabelling.

(** ** The ordered pairs under a relabelling *)


Lemma NoDup_flat_pairs (outer inner : list Z) (p : Z -> Z -> bool) :
  NoDup outer -> NoDup inner ->
  NoDup (flat_map (fun i => map (pair i) (filter (p i) inner)) outer).
Proof.
  intros Ho Hi. induction Ho as [|i t Hnot Ho IH]; simpl; [constructor|].
  apply NoDup_app; [|exact IH|].
  - apply Finite.Injective_map_NoDup; [|now apply NoDup_filter].
    intros a b Hab. now injection Hab.
  - intros [a b] Hin Hin'. apply in_map_iff in Hin as (x & Hx & _).
    injection Hx as <- _.
    apply in_flat_map in Hin' as (z & Hz & Hin').
    apply in_map_iff in Hin' as (x' & Hx' & _).
    injection Hx' as -> _. contradiction.
Qed.

Lemma NoDup_pairs (classes : list Z) : NoDup classes -> NoDup (pairs classes).
Proof. intros Hnd. now apply NoDup_flat_pairs. Qed.

Section RelabelledPairs.

Variable sigma : Z -> Z.
Variable y_true : Series.

Hypothesis sigma_injective :
  forall a b, In a y_true -> In b y_true -> sigma a = sigma b -> a = b.

Lemma unique_relabel_Permutation :
  Permutation (np.unique (map sigma y_true)) (map sigma (np.unique y_true)).
Proof.
  apply NoDup_Permutation.
  - apply unique_NoDup.
  - apply Finite.Injective_map_NoDup_in; [|apply unique_NoDup].
    intros a b Ha Hb. apply sigma_injective; now apply unique_In.
  - intros x. rewrite unique_In, !in_map_iff.
    split; intros (c & Hc & Hin); exists c; split; trivial;
      now apply unique_In.
Qed.

Lemma unique_relabel_length :
  length (np.unique (map sigma y_true)) = length (np.unique y_true).
Proof.
  rewrite (Permutation_length unique_relabel_Permutation).
  apply length_map.
Qed.

Lemma pairs_relabel_Permutation :
  Permutation (pairs (np.unique (map sigma y_true)))
              (map (relabel_pair sigma) (pairs (np.unique y_true))).
Proof.
  apply NoDup_Permutation.
  - apply NoDup_pairs, unique_NoDup.
  - apply Finite.Injective_map_NoDup_in; [|apply NoDup_pairs, unique_NoDup].
    intros [a b] [c d] Hab Hcd Heq.
    destruct (proj1 (in_pairs _ _ _) Hab) as (Ha & Hb & _).
    destruct (proj1 (in_pairs _ _ _) Hcd) as (Hc & Hd & _).
    rewrite unique_In in *. unfold relabel_pair in Heq. simpl in Heq.
    injection Heq as H1 H2. f_equal; now apply sigma_injective.
  - intros [a b]. rewrite in_pairs, !unique_In. split.
    + intros (Ha & Hb & Hab).
      apply in_map_iff in Ha as (i & <- & Hi).
      apply in_map_iff in Hb as (j & <- & Hj).
      apply in_map_iff. exists (i, j). split; [reflexivity|].
      apply in_pairs. rewrite !unique_In. repeat split; trivial. congruence.
    + intros Hin. apply in_map_iff in Hin as ([i j] & Heq & Hin).
      unfold relabel_pair in Heq. simpl in Heq.
      injection Heq as <- <-.
      destruct (proj1 (in_pairs _ _ _) Hin) as (Hi & Hj & Hij).
      rewrite unique_In in *.
      repeat split; try now apply in_map.
      intros Heq. apply Hij. now apply sigma_injective.
Qed.

(** A relabelling that keeps the order of the observed labels keeps the
    order of the classes and of the pairs. *)
Hypothesis sigma_increasing :
  forall a b, In a y_true -> In b y_true -> (a < b)%Z -> (sigma a < sigma b)%Z.

Lemma insert_relabel (x : Z) (l : list Z) :
  In x y_true -> (forall c, In c l -> In c y_true) ->
  np.insert (sigma x) (map sigma l) = map sigma (np.insert x l).
Proof.
  intros Hx. induction l as [|c t IH]; intros Hsub; simpl; [reflexivity|].
  assert (Hc : In c y_true) by (apply Hsub; now left).
  destruct (Z.ltb_spec x c) as [Hlt|Hge].
  - apply (sigma_increasing _ _ Hx Hc) in Hlt.
    apply Z.ltb_lt in Hlt. now rewrite Hlt.
  - destruct (Z.eqb_spec x c) as [->|Hne].
    + now rewrite Z.ltb_irrefl, Z.eqb_refl.
    + assert (Hgt : (sigma c < sigma x)%Z) by (apply sigma_increasing; trivial; lia).
      destruct (Z.ltb_spec (sigma x) (sigma c)); [lia|].
      destruct (Z.eqb_spec (sigma x) (sigma c)); [lia|].
      simpl. rewrite IH; [reflexivity|]. intros z Hz. apply Hsub. now right.
Qed.

Lemma unique_relabel_increasing :
  np.unique (map sigma y_true) = map sigma (np.unique y_true).
Proof.
  assert (H : forall l, (forall c, In c l -> In c y_true) ->
    np.unique (map sigma l) = map sigma (np.unique l)).
  { induction l as [|c t IH]; intros Hsub; [reflexivity|].
    unfold np.unique in *. simpl. rewrite IH by (intros z Hz; apply Hsub; now right).
    apply insert_relabel; [apply Hsub; now left|].
    intros z Hz. apply Hsub. right. now apply (unique_In z t). }
  apply H. auto.
Qed.

Lemma flat_pairs_relabel (outer inner : list Z) :
  (forall c, In c outer -> In c y_true) ->
  (forall c, In c inner -> In c y_true) ->
  flat_map (fun i => map (pair i) (filter (fun j => negb (i =? j)%Z) (map sigma inner)))
           (map sigma outer)
  = map (relabel_pair sigma)
      (flat_map (fun i => map (pair i) (filter (fun j => negb (i =? j)%Z) inner)) outer).
Proof.
  intros Houter Hinner.
  induction outer as [|i t IH]; simpl; [reflexivity|].
  rewrite map_app, IH by (intros z Hz; apply Houter; now right). f_equal.
  assert (Hi : In i y_true) by (apply Houter; now left).
  clear IH Houter. induction inner as [|j u IHu]; simpl; [reflexivity|].
  assert (Hj : In j y_true) by (apply Hinner; now left).
  rewrite (eqb_relabel sigma y_true sigma_injective i j Hi Hj).
  destruct (i =? j)%Z; simpl; rewrite IHu; trivial;
    intros z Hz; apply Hinner; now right.
Qed.

Lemma pairs_relabel_increasing :
  pairs (np.unique (map sigma y_true))
  = map (relabel_pair sigma) (pairs (np.unique y_true)).
Proof.
  rewrite unique_relabel_increasing.
  apply flat_pairs_relabel; intros c; apply unique_In.
Qed.

End RelabelledPairs.

(** ** [mapM] over a permuted list *)

Lemma mapM_cons_ok {X Y} (f : X -> py Y) (x : X) (l : list X)
    (t : list event) (ys : list Y) :
  mapM f (x :: l) = (t, Ok ys) ->
  exists t1 y t2 ys',
    f x = (t1, Ok y) /\ mapM f l = (t2, Ok ys') /\ t = t1 ++ t2 /\ ys = y :: ys'.
Proof.
  simpl. destruct (f x) as [t1 [y|e]]; [|discriminate].
  unfold bind at 1. destruct (mapM f l) as [t2 [ys'|e]]; simpl; [|discriminate].
  intros H. injection H as <- <-. rewrite app_nil_r.
  now exists t1, y, t2, ys'.
Qed.

Lemma mapM_cons_intro {X Y} (f : X -> py Y) (x : X) (l : list X)
    (t1 t2 : list event) (y : Y) (ys : list Y) :
  f x = (t1, Ok y) -> mapM f l = (t2, Ok ys) ->
  mapM f (x :: l) = (t1 ++ t2, Ok (y :: ys)).
Proof. intros Hx Hl. simpl. rewrite Hx, Hl. simpl. now rewrite app_nil_r. Qed.

Lemma mapM_Permutation {X Y} (f : X -> py Y) (l l' : list X) :
  Permutation l l' ->
  forall t ys, mapM f l = (t, Ok ys) ->
  exists t' ys', mapM f l' = (t', Ok ys') /\ Permutation t' t /\ Permutation ys' ys.
Proof.
  induction 1 as [|x l l' Hp IH|x x' l|l l' l'' Hp1 IH1 Hp2 IH2]; intros t ys Hm.
  - exists t, ys. auto.
  - apply mapM_cons_ok in Hm as (t1 & y & t2 & ys2 & Hx & Hl & -> & ->).
    destruct (IH _ _ Hl) as (t2' & ys2' & Hl' & Ht & Hys).
    exists (t1 ++ t2'), (y :: ys2'). split; [now apply mapM_cons_intro|].
    split; [now apply Permutation_app_head|now constructor].
  - apply mapM_cons_ok in Hm as (t1 & y & t2 & ys2 & Hx & Hl & -> & ->).
    apply mapM_cons_ok in Hl as (t3 & y3 & t4 & ys4 & Hx' & Hl & -> & ->).
    exists (t3 ++ t1 ++ t4), (y3 :: y :: ys4).
    split; [apply mapM_cons_intro; trivial; now apply mapM_cons_intro|].
    split; [apply Permutation_app_swap_app|constructor].
  - destruct (IH1 _ _ Hm) as (t1 & ys1 & H1 & Ht1 & Hys1).
    destruct (IH2 _ _ H1) as (t2 & ys2 & H2 & Ht2 & Hys2).
    exists t2, ys2. split; [assumption|].
    split; eapply Permutation_trans; eassumption.
Qed.

(* ================================================================= *)
(** ** Relabelling and the aggregate *)

Lemma rotate_injective (a b : Z) : rotate a = rotate b -> a = b.
Proof. unfold rotate. case_eqb; lia. Qed.

Section RelabelClaim.

Context {metrics : sklearn_metrics}.

Lemma mroc_auc_score_multiclass (y_true : Series) (P : ndarray)
    (w : option (list float)) :
  let k := length (np.unique y_true) in
  (2 < k)%nat -> (k <= shape1 P)%nat ->
  mroc_auc_score y_true P w
  = bind (mapM (fun ij => A y_true P w (fst ij) (snd ij)) (pairs (np.unique y_true)))
         (fun terms => ret (1 / float_of_nat (k * (k - 1)) * sum terms)%float).
Proof.
  intros k Hk Hmax. unfold mroc_auc_score. fold k.
  destruct (Nat.ltb_spec (shape1 P) k); [lia|].
  destruct (Nat.ltb_spec k 2); [lia|].
  destruct (Nat.eqb_spec k 2); [lia|]. reflexivity.
Qed.

(** C3 (amended): with three or more observed classes (validation
    passed), relabel the classes by a map [sigma] that merges no two
    observed classes, and let the columns of the prediction matrix follow
    the labels (same shape, column [sigma i] of the new matrix is column
    [i] of the old one).  Then the number of classes is unchanged, the
    ordered pairs are the relabelled pairs up to their order, and every
    pairwise term [A(sigma i | sigma j)] is the term [A(i | j)]; so,
    when the terms are all defined, the new score is the same factor
    [1 / (k (k-1))] times the float sum of the same terms, taken in a
    possibly different order; and when [sigma] keeps the order of the
    labels, the score is the same, calls included. *)
Theorem mroc_auc_score_relabelled (sigma : Z -> Z) (y_true : Series)
    (P P' : ndarray) (w : option (list float)) :
  let k := length (np.unique y_true) in
  let y_true' := map sigma y_true in
  let C := (1 / float_of_nat (k * (k - 1)))%float in
  (2 < k)%nat ->
  (k <= shape1 P)%nat ->
  (forall a b, In a y_true -> In b y_true -> sigma a = sigma b -> a = b) ->
  shape0 P' = shape0 P ->
  shape1 P' = shape1 P ->
  (forall c, In c y_true -> np.column P' (sigma c) = np.column P c) ->
  length (np.unique y_true') = k
  /\ Permutation (pairs (np.unique y_true'))
                 (map (relabel_pair sigma) (pairs (np.unique y_true)))
  /\ (forall i j, In i y_true -> In j y_true ->
        A y_true' P' w (sigma i) (sigma j) = A y_true P w i j)
  /\ (forall t terms,
        mapM (fun ij => A y_true P w (fst ij) (snd ij)) (pairs (np.unique y_true))
        = (t, Ok terms) ->
        mroc_auc_score y_true P w = (t, Ok (C * sum terms)%float)
        /\ exists t' terms',
             Permutation t' t /\ Permutation terms' terms
             /\ mroc_auc_score y_true' P' w = (t', Ok (C * sum terms')%float))
  /\ ((forall a b, In a y_true -> In b y_true -> (a < b)%Z -> (sigma a < sigma b)%Z) ->
      mroc_auc_score y_true' P' w = mroc_auc_score y_true P w).
Proof.
  intros k y_true' C Hk Hmax Hinj Hrows Hshape Hcols. subst k y_true' C.
  assert (Hlen := unique_relabel_length sigma y_true Hinj).
  assert (HA : forall i j, In i y_true -> In j y_true ->
            A (map sigma y_true) P' w (sigma i) (sigma j) = A y_true P w i j).
  { intros i j Hi Hj. apply A_relabel; auto. }
  assert (Hterms :
    mapM (fun ij => A (map sigma y_true) P' w (fst ij) (snd ij))
         (map (relabel_pair sigma) (pairs (np.unique y_true)))
    = mapM (fun ij => A y_true P w (fst ij) (snd ij)) (pairs (np.unique y_true))).
  { rewrite mapM_map. apply mapM_ext. intros [i j] Hij. simpl.
    destruct (proj1 (in_pairs _ _ _) Hij) as (Hi & Hj & _).
    apply HA; now apply unique_In. }
  assert (Hperm := pairs_relabel_Permutation sigma y_true Hinj).
  assert (Hscore' := mroc_auc_score_multiclass (map sigma y_true) P' w).
  cbv zeta in Hscore'. rewrite Hlen, Hshape in Hscore'.
  specialize (Hscore' Hk Hmax).
  assert (Hscore := mroc_auc_score_multiclass y_true P w Hk Hmax).
  cbv zeta in Hscore.
  split; [exact Hlen|]. split; [exact Hperm|]. split; [exact HA|]. split.
  - intros t terms Hm.
    rewrite Hscore, Hm.
    split; [simpl; now rewrite app_nil_r|].
    rewrite <- Hterms in Hm.
    destruct (mapM_Permutation _ _ _ (Permutation_sym Hperm) _ _ Hm)
      as (t' & terms' & Hm' & Ht & Hys).
    exists t', terms'. split; [assumption|]. split; [assumption|].
    rewrite Hscore', Hm'. simpl. now rewrite app_nil_r.
  - intros Hmono.
    rewrite Hscore, Hscore'.
    rewrite (pairs_relabel_increasing sigma y_true Hinj Hmono).
    now rewrite Hterms.
Qed.

End RelabelClaim.

(** The six-row example relabelled by [rotate], the columns rotated
    with the labels: the score is the same factor times the sum of the
    same six terms in another order. *)
Lemma mroc_auc_score_relabelled_witness :
  (2 < length (np.unique six_labels))%nat
  /\ (forall c, In c six_labels ->
        np.column six_by_three_rotated (rotate c) = np.column six_by_three c)
  /\ length (np.unique (map rotate six_labels)) = 3%nat
  /\ Permutation (pairs (np.unique (map rotate six_labels)))
                 (map (relabel_pair rotate) (pairs (np.unique six_labels)))
  /\ outcome (mroc_auc_score (metrics := reference_metrics)
                (map rotate six_labels) six_by_three_rotated None)
     = outcome (mroc_auc_score (metrics := reference_metrics)
                  six_labels six_by_three None).
Proof.
  assert (Hcols : forall c, In c six_labels ->
            np.column six_by_three_rotated (rotate c) = np.column six_by_three c).
  { intros c Hc. simpl in Hc.
    repeat (destruct Hc as [<-|Hc]; [vm_compute; reflexivity|]). contradiction. }
  destruct (mroc_auc_score_relabelled (metrics := reference_metrics)
              rotate six_labels six_by_three six_by_three_rotated None)
    as (H1 & H2 & _).
  - vm_compute. lia.
  - vm_compute. lia.
  - intros a b _ _. apply rotate_injective.
  - reflexivity.
  - reflexivity.
  - exact Hcols.
  - split; [vm_compute; lia|]. split; [exact Hcols|]. split; [exact H1|].
    split; [exact H2|vm_compute; reflexivity].
Defined.

(** C3, as stated, fails: [rotate] is a bijection of the label values,
    the three classes are perfectly predicted under the original names
    (score 1), and with the prediction matrix unchanged the relabelled
    vector scores 0.25. *)
Lemma mroc_auc_score_not_invariant_under_renaming :
  (forall c, rotate_back (rotate c) = c)
  /\ (forall c, rotate (rotate_back c) = c)
  /\ well_formed identity3 = true
  /\ length three_labels = shape0 identity3
  /\ (3 <= length (np.unique three_labels))%nat
  /\ outcome (mroc_auc_score (metrics := reference_metrics)
                three_labels identity3 None) = Ok 1%float
  /\ outcome (mroc_auc_score (metrics := reference_metrics)
                (map rotate three_labels) identity3 None) = Ok 0.25%float.
Proof.
  split; [|split].
  - intros c. unfold rotate, rotate_back. case_eqb; lia.
  - intros c. unfold rotate, rotate_back. case_eqb; lia.
  - split; [reflexivity|]. split; [reflexivity|].
    split; [vm_compute; lia|]. split; vm_compute; reflexivity.
Qed.

(** Even when the columns move with the labels the score need not be
    the same float: the six terms are the same, but [rotate] changes the
    order in which they are summed, and on the eight-row example the two
    sums round differently. *)
Lemma mroc_auc_score_relabelled_rounding :
  (forall c, In c eight_labels ->
     np.column eight_by_three_rotated (rotate c) = np.column eight_by_three c)
  /\ outcome (mroc_auc_score (metrics := reference_metrics)
                eight_labels eight_by_three None)
     = Ok 0.7152777777777777%float
  /\ outcome (mroc_auc_score (metrics := reference_metrics)
                (map rotate eight_labels) eight_by_three_rotated None)
     = Ok 0.7152777777777778%float
  /\ (0.7152777777777777 =? 0.7152777777777778)%float = false.
Proof.
  split.
  - intros c Hc. simpl in Hc.
    repeat (destruct Hc as [<-|Hc]; [vm_compute; reflexivity|]). contradiction.
  - split; [vm_compute; reflexivity|]. split; vm_compute; reflexivity.
Qed.

(* ================================================================= *)
(** ** The support grid *)

Lemma set_last_length (y : list float) (stop : float) :
  y <> [] -> length (np.set_last y stop) = length y.
Proof.
  intros Hy. destruct (exists_last Hy) as (y' & a & ->).
  unfold np.set_last. rewrite removelast_last, !length_app. reflexivity.
Qed.

Lemma set_last_nth_last (y : list float) (stop d : float) :
  y <> [] -> nth (length y - 1) (np.set_last y stop) d = stop.
Proof.
  intros Hy. destruct (exists_last Hy) as (y' & a & ->).
  unfold np.set_last. rewrite removelast_last, length_app. simpl.
  replace (length y' + 1 - 1)%nat with (length y') by lia.
  now rewrite nth_middle.
Qed.

Lemma set_last_nth (y : list float) (stop d : float) (i : nat) :
  (i < length y - 1)%nat -> nth i (np.set_last y stop) d = nth i y d.
Proof.
  intros Hi. assert (Hy : y <> []) by (destruct y; simpl in *; [lia|discriminate]).
  destruct (exists_last Hy) as (y' & a & ->).
  unfold np.set_last. rewrite removelast_last.
  rewrite length_app in Hi. simpl in Hi.
  rewrite !app_nth1 by lia. reflexivity.
Qed.

Lemma nth_map_in {X Y} (f : X -> Y) (l : list X) (i : nat) (d : Y) (d' : X) :
  (i < length l)%nat -> nth i (map f l) d = f (nth i l d').
Proof.
  intros Hi. rewrite (nth_indep _ d (f d')) by (rewrite length_map; lia).
  apply map_nth.
Qed.

(** The points of [np.linspace]: as many as asked, the last one is [stop]
    itself, and the others are [i * step + start], computed in floats
    (or [i / div * delta + start] when the step rounds to zero). *)
Lemma linspace_points (start stop : float) (n : nat) :
  (2 <= n)%nat ->
  let div := float_of_nat (n - 1) in
  let delta := (stop - start)%float in
  let step := (delta / div)%float in
  length (np.linspace start stop n) = n
  /\ nth (n - 1) (np.linspace start stop n) 0%float = stop
  /\ forall i, (i < n - 1)%nat ->
       nth i (np.linspace start stop n) 0%float
       = if (step =? 0)%float
         then (float_of_nat i / div * delta + start)%float
         else (float_of_nat i * step + start)%float.
Proof.
  intros Hn div delta step. unfold np.linspace.
  fold delta. fold div. fold step.
  destruct (Nat.ltb_spec 0 (n - 1)); [|lia].
  destruct (Nat.ltb_spec 1 n); [|lia].
  set (scaled := if (step =? 0)%float
                 then map (fun v => (v / div * delta)%float)
                          (map float_of_nat (seq 0 n))
                 else map (fun v => (v * step)%float)
                          (map float_of_nat (seq 0 n))).
  assert (Hlen : length (map (fun v => (v + start)%float) scaled) = n).
  { unfold scaled. destruct (step =? 0)%float;
      now rewrite !length_map, length_seq. }
  assert (Hne : map (fun v => (v + start)%float) scaled <> []).
  { intros Heq. rewrite Heq in Hlen. simpl in Hlen. lia. }
  split; [now rewrite set_last_length|].
  split; [rewrite <- Hlen at 1; now apply set_last_nth_last|].
  intros i Hi. rewrite set_last_nth by (rewrite Hlen; exact Hi).
  assert (Hseq : nth i (map float_of_nat (seq 0 n)) 0%float = float_of_nat i).
  { rewrite (nth_map_in _ _ _ _ 0%nat) by (rewrite length_seq; lia).
    now rewrite seq_nth by lia. }
  unfold scaled. destruct (step =? 0)%float.
  - rewrite (nth_map_in _ _ _ _ 0%float) by (rewrite !length_map, length_seq; lia).
    rewrite (nth_map_in _ _ _ _ 0%float) by (rewrite !length_map, length_seq; lia).
    now rewrite Hseq.
  - rewrite (nth_map_in _ _ _ _ 0%float) by (rewrite !length_map, length_seq; lia).
    rewrite (nth_map_in _ _ _ _ 0%float) by (rewrite !length_map, length_seq; lia).
    now rewrite Hseq.
Qed.

(** ** Finite floats *)

(** A finite float is a signed zero or a signed mantissa and exponent. *)
Lemma finite_cases (x : float) :
  PrimFloat.is_finite x = true ->
  (exists s, Prim2SF x = S754_zero s)
  \/ (exists s m e, Prim2SF x = S754_finite s m e).
Proof.
  unfold PrimFloat.is_finite, PrimFloat.is_nan, PrimFloat.is_infinity.
  rewrite !eqb_spec, abs_spec.
  destruct (Prim2SF x) as [s| s | |s m e]; intros H.
  - left. now exists s.
  - exfalso. simpl in H. rewrite orb_true_r in H. discriminate.
  - discriminate.
  - right. now exists s, m, e.
Qed.

Lemma SFeqb_finite_refl (s : bool) (m : positive) (e : Z) :
  SFeqb (S754_finite s m e) (S754_finite s m e) = true.
Proof.
  unfold SFeqb, SFcompare.
  destruct s; rewrite Z.compare_refl, Pos.compare_cont_refl; reflexivity.
Qed.

(** Adding a zero product to a finite float gives that float back, up
    to the sign of zero. *)
Lemma zero_times_plus (step start : float) :
  PrimFloat.is_finite step = true ->
  PrimFloat.is_finite start = true ->
  (0 * step + start =? start)%float = true.
Proof.
  intros Hstep Hstart.
  rewrite eqb_spec, add_spec, mul_spec.
  change (Prim2SF 0) with (S754_zero false).
  destruct (finite_cases step Hstep) as [[s ->]|(s & m & e & ->)];
    destruct (finite_cases start Hstart) as [[s' ->]|(s' & m' & e' & ->)];
    simpl.
  - now destruct s, s'.
  - apply SFeqb_finite_refl.
  - now destruct s, s'.
  - apply SFeqb_finite_refl.
Qed.

(** A quotient by 499 that is zero comes from a finite numerator. *)
Lemma zero_step_finite_delta (delta : float) :
  (delta / float_of_nat 499 =? 0)%float = true ->
  PrimFloat.is_finite delta = true.
Proof.
  unfold PrimFloat.is_finite, PrimFloat.is_nan, PrimFloat.is_infinity.
  rewrite !eqb_spec, abs_spec, div_spec.
  remember (Prim2SF (float_of_nat 499)) as d eqn:Hd.
  vm_compute in Hd. subst d.
  change (Prim2SF 0) with (S754_zero false).
  destruct (Prim2SF delta) as [s| s | |s m e].
  - reflexivity.
  - destruct s; discriminate.
  - discriminate.
  - intros _. rewrite SFeqb_finite_refl. reflexivity.
Qed.

(** The first point of the 500-point grid is [start], up to the sign of
    zero, when [start] and the step are finite. *)
Lemma linspace_first_point (start stop : float) :
  PrimFloat.is_finite start = true ->
  PrimFloat.is_finite ((stop - start) / float_of_nat 499) = true ->
  (nth 0 (np.linspace start stop 500) 0 =? start)%float = true.
Proof.
  intros Hstart Hstep.
  destruct (linspace_points start stop 500) as (_ & _ & Hi); [lia|].
  rewrite (Hi 0%nat) by lia. clear Hi.
  change (500 - 1)%nat with 499%nat.
  destruct ((stop - start) / float_of_nat 499 =? 0)%float eqn:Hzero.
  - replace (float_of_nat 0 / float_of_nat 499)%float with 0%float
      by (vm_compute; reflexivity).
    apply zero_times_plus; [|assumption].
    now apply zero_step_finite_delta.
  - change (float_of_nat 0) with 0%float. now apply zero_times_plus.
Qed.

(* ================================================================= *)
(** ** Binary64 arithmetic, from [SpecFloat] *)

(** The operations of [SpecFloat] in exact values: shifts and the two
    roundings of [binary_round_aux], then addition, subtraction,
    multiplication, division and comparison. *)

Module Binary64Facts.

Import Binary64.
Local Open Scope Z_scope.

Lemma fexp_fexp64 (d : Z) : fexp prec emax d = fexp64 d.
Proof. reflexivity. Qed.

Lemma fexp64_mono (d1 d2 : Z) : d1 <= d2 -> fexp64 d1 <= fexp64 d2.
Proof. unfold fexp64. lia. Qed.

Lemma fexp64_succ (d : Z) : fexp64 (d + 1) <= fexp64 d + 1.
Proof. unfold fexp64. lia. Qed.

Lemma fexp64_ge (d : Z) : -1074 <= fexp64 d.
Proof. unfold fexp64. lia. Qed.

Lemma digits2_size (p : positive) : digits2_pos p = Pos.size p.
Proof. induction p; simpl; now rewrite ?IHp. Qed.

Lemma Zdigits2_log2 (m : Z) : 0 < m -> Zdigits2 m = Z.log2 m + 1.
Proof.
  destruct m as [|p|p]; try lia. intros _. simpl. rewrite digits2_size.
  destruct p; simpl; lia.
Qed.

Lemma Zdigits2_0 : Zdigits2 0 = 0.
Proof. reflexivity. Qed.

Lemma log2_bounds (m : Z) : 0 < m -> 2 ^ Z.log2 m <= m < 2 ^ (Z.log2 m + 1).
Proof. intros H. rewrite Z.add_1_r. now apply Z.log2_spec. Qed.

Lemma pow2_pos (k : Z) : 0 <= k -> 0 < 2 ^ k.
Proof. intros. now apply Z.pow_pos_nonneg. Qed.

Lemma pow2_add (a b : Z) : 0 <= a -> 0 <= b -> 2 ^ (a + b) = 2 ^ a * 2 ^ b.
Proof. intros. now apply Z.pow_add_r. Qed.

Lemma pow2_le (a b : Z) : 0 <= a <= b -> 2 ^ a <= 2 ^ b.
Proof. intros. apply Z.pow_le_mono_r; lia. Qed.

Lemma pow2_lt (a b : Z) : 0 <= a < b -> 2 ^ a < 2 ^ b.
Proof. intros. apply Z.pow_lt_mono_r; lia. Qed.

(** ** Shifts *)

Lemma represents_exact (m : Z) :
  0 <= m -> represents m 1 (shr_record_of_loc m loc_Exact).
Proof.
  intros Hm. unfold represents. simpl.
  rewrite Z.div_1_r, Z.mod_1_r. simpl. repeat split; try lia.
Qed.

Lemma shr_1_represents (num den : Z) (mrs : shr_record) :
  represents num den mrs -> represents num (2 * den) (shr_1 mrs).
Proof.
  destruct mrs as [m r s]. unfold represents. cbn [shr_m shr_r shr_s].
  intros (Hden & Hnum & Hm & Hr & Hs).
  assert (Hrem := Z.mod_pos_bound num den Hden).
  assert (Hdiv := Z.div_mod num den ltac:(lia)).
  assert (Hq : 0 <= num / den) by (apply Z.div_pos; lia).
  assert (Hors : r || s = negb (num mod den =? 0)).
  { rewrite Hr, Hs.
    destruct (Z.leb_spec den (2 * (num mod den)));
      destruct (Z.eqb_spec (num mod den) 0);
      destruct (Z.eqb_spec (2 * (num mod den)) den); simpl; try reflexivity; lia. }
  assert (Hcases : forall p b,
            m = 2 * p + b -> (b = 0 \/ b = 1) ->
            num / (2 * den) = p /\ num mod (2 * den) = b * den + num mod den).
  { intros p b Hpb Hb.
    assert (Hnum' : num = (2 * den) * p + (b * den + num mod den)) by nia.
    split.
    - symmetry. apply (Z.div_unique_pos num (2 * den) p (b * den + num mod den)); nia.
    - symmetry. apply (Z.mod_unique_pos num (2 * den) p (b * den + num mod den)); nia. }
  assert (Hfin : forall p b,
            m = 2 * p + b -> (b = 0 \/ b = 1) ->
            0 < 2 * den /\ 0 <= num /\ p = num / (2 * den)
            /\ (b =? 1) = (2 * den <=? 2 * (num mod (2 * den)))
            /\ r || s = negb (num mod (2 * den) =? 0)
                        && negb (2 * (num mod (2 * den)) =? 2 * den)).
  { intros p b Hpb Hb. destruct (Hcases p b Hpb Hb) as (Hp & Hrem').
    rewrite Hp, Hrem', Hors.
    split; [lia|]. split; [lia|]. split; [reflexivity|].
    split.
    - destruct Hb as [-> | ->];
        match goal with
        | |- context [Z.leb ?a ?b] => destruct (Z.leb_spec a b)
        end; try reflexivity; lia.
    - destruct Hb as [-> | ->];
        repeat match goal with
               | |- context [Z.eqb ?a ?b] => destruct (Z.eqb_spec a b)
               end; simpl; try reflexivity; lia. }
  rewrite <- Hm in *.
  destruct m as [|[p|p|]|p]; try lia; cbn [shr_1 shr_m shr_r shr_s].
  - apply (Hfin 0 0); lia.
  - apply (Hfin (Zpos p) 1); lia.
  - apply (Hfin (Zpos p) 0); lia.
  - apply (Hfin 0 1); lia.
Qed.

Lemma iter_pos_represents (p : positive) :
  forall num den mrs,
    represents num den mrs ->
    represents num (den * 2 ^ Zpos p) (iter_pos shr_1 p mrs).
Proof.
  induction p as [p IH|p IH|]; intros num den mrs H; cbn [iter_pos].
  - apply shr_1_represents in H. apply IH in H. apply IH in H.
    assert (E : 2 ^ Zpos p~1 = 2 * (2 ^ Zpos p * 2 ^ Zpos p)).
    { replace (Zpos p~1) with (Z.succ (Zpos p + Zpos p)) by lia.
      rewrite Z.pow_succ_r, pow2_add by lia. reflexivity. }
    rewrite E.
    replace (den * (2 * (2 ^ Zpos p * 2 ^ Zpos p)))
      with (2 * den * 2 ^ Zpos p * 2 ^ Zpos p) by ring.
    exact H.
  - apply IH in H. apply IH in H.
    assert (E : 2 ^ Zpos p~0 = 2 ^ Zpos p * 2 ^ Zpos p).
    { rewrite <- pow2_add by lia. f_equal. lia. }
    rewrite E.
    replace (den * (2 ^ Zpos p * 2 ^ Zpos p))
      with (den * 2 ^ Zpos p * 2 ^ Zpos p) by ring.
    exact H.
  - apply shr_1_represents in H.
    replace (den * 2 ^ 1) with (2 * den) by (change (2 ^ 1) with 2; lia). exact H.
Qed.

(** A shift by [n] places, when [n] is positive; none otherwise. *)
Lemma shr_represents (num den : Z) (mrs : shr_record) (e n : Z) :
  represents num den mrs ->
  represents num (den * 2 ^ Z.max n 0) (fst (shr mrs e n))
  /\ snd (shr mrs e n) = e + Z.max n 0.
Proof.
  intros H. destruct n as [|p|p]; cbn [shr fst snd].
  - rewrite Z.max_l by lia. simpl (2 ^ 0). rewrite Z.mul_1_r, Z.add_0_r. now split.
  - rewrite Z.max_l by lia. split; [now apply iter_pos_represents|reflexivity].
  - rewrite Z.max_r by lia. simpl (2 ^ 0). rewrite Z.mul_1_r, Z.add_0_r. now split.
Qed.

(** Rounding the integer part of a record by the place of the rest. *)
Lemma round_nearest_even_rne (num den : Z) (mrs : shr_record) :
  represents num den mrs ->
  round_nearest_even (shr_m mrs) (loc_of_shr_record mrs)
  = rne (num / den) (num mod den) den.
Proof.
  destruct mrs as [m r s]. unfold represents. cbn [shr_m shr_r shr_s].
  intros (Hden & Hnum & -> & -> & ->). unfold rne, loc_of_shr_record.
  assert (Hrem := Z.mod_pos_bound num den Hden).
  destruct (Z.compare_spec (2 * (num mod den)) den);
    destruct (Z.leb_spec den (2 * (num mod den)));
    destruct (Z.eqb_spec (num mod den) 0);
    destruct (Z.eqb_spec (2 * (num mod den)) den); simpl; try reflexivity; lia.
Qed.

End Binary64Facts.

Module Binary64Rounding.

Import Binary64 Binary64Facts.
Local Open Scope Z_scope.

(** ** Rounding on a grid *)

Lemma rne_bounds (q rem G : Z) : q <= rne q rem G <= q + 1.
Proof.
  unfold rne. destruct (2 * rem ?= G); [destruct (Z.even q)| |]; lia.
Qed.

Lemma rne_exact (q G : Z) : 0 < G -> rne q 0 G = q.
Proof.
  intros HG. unfold rne. destruct (Z.compare_spec (2 * 0) G); [lia|reflexivity|lia].
Qed.

Lemma rne_mono_rem (q r1 r2 G : Z) : r1 <= r2 -> rne q r1 G <= rne q r2 G.
Proof.
  intros H. unfold rne.
  destruct (Z.compare_spec (2 * r1) G); destruct (Z.compare_spec (2 * r2) G);
    try destruct (Z.even q); lia.
Qed.

Section Grid.

Variable t : Z.
Hypothesis Ht : unit_exp <= t.

Lemma grid_pos : 0 < 2 ^ (t - unit_exp).
Proof. apply pow2_pos. lia. Qed.

Lemma round_at_eq (V : Z) :
  round_at t V
  = rne (V / 2 ^ (t - unit_exp)) (V mod 2 ^ (t - unit_exp)) (2 ^ (t - unit_exp))
    * 2 ^ (t - unit_exp).
Proof. reflexivity. Qed.

Lemma round_at_multiple (K : Z) :
  round_at t (K * 2 ^ (t - unit_exp)) = K * 2 ^ (t - unit_exp).
Proof.
  assert (HG := grid_pos). rewrite round_at_eq.
  set (G := 2 ^ (t - unit_exp)) in *.
  rewrite Z.div_mul, Z.mod_mul by lia. now rewrite rne_exact.
Qed.

Lemma round_at_le_multiple (V K : Z) :
  V <= K * 2 ^ (t - unit_exp) -> round_at t V <= K * 2 ^ (t - unit_exp).
Proof.
  assert (HG := grid_pos). rewrite round_at_eq.
  set (G := 2 ^ (t - unit_exp)) in *. intros HV.
  assert (Hdm := Z.div_mod V G ltac:(lia)).
  assert (Hrem := Z.mod_pos_bound V G HG).
  assert (Hb := rne_bounds (V / G) (V mod G) G).
  destruct (Z.eq_dec (V mod G) 0) as [H0|H0].
  - rewrite H0, rne_exact by lia. nia.
  - assert (V / G < K) by nia. nia.
Qed.

Lemma round_at_ge_multiple (V K : Z) :
  K * 2 ^ (t - unit_exp) <= V -> K * 2 ^ (t - unit_exp) <= round_at t V.
Proof.
  assert (HG := grid_pos). rewrite round_at_eq.
  set (G := 2 ^ (t - unit_exp)) in *. intros HV.
  assert (Hdm := Z.div_mod V G ltac:(lia)).
  assert (Hrem := Z.mod_pos_bound V G HG).
  assert (Hb := rne_bounds (V / G) (V mod G) G).
  assert (K <= V / G) by nia. nia.
Qed.

Lemma round_at_mono (V1 V2 : Z) : V1 <= V2 -> round_at t V1 <= round_at t V2.
Proof.
  assert (HG := grid_pos). intros HV. rewrite !round_at_eq.
  set (G := 2 ^ (t - unit_exp)) in *.
  apply Z.mul_le_mono_nonneg_r; [lia|].
  assert (Hq : V1 / G <= V2 / G) by (apply Z.div_le_mono; lia).
  assert (Hb1 := rne_bounds (V1 / G) (V1 mod G) G).
  assert (Hb2 := rne_bounds (V2 / G) (V2 mod G) G).
  destruct (Z.eq_dec (V1 / G) (V2 / G)) as [Heq|Hne]; [|lia].
  rewrite Heq. apply rne_mono_rem.
  assert (Hdm1 := Z.div_mod V1 G ltac:(lia)).
  assert (Hdm2 := Z.div_mod V2 G ltac:(lia)).
  rewrite Heq in Hdm1. lia.
Qed.

Lemma round_at_above (V : Z) : round_at t V <= V + 2 ^ (t - unit_exp).
Proof.
  assert (HG := grid_pos). rewrite round_at_eq.
  set (G := 2 ^ (t - unit_exp)) in *.
  assert (Hdm := Z.div_mod V G ltac:(lia)).
  assert (Hrem := Z.mod_pos_bound V G HG).
  assert (Hb := rne_bounds (V / G) (V mod G) G). nia.
Qed.

End Grid.

(** ** Rounding to binary64 *)

Lemma magnitude_spec (V : Z) :
  0 < V ->
  2 ^ (magnitude V - 1 - unit_exp) <= V < 2 ^ (magnitude V - unit_exp).
Proof.
  intros HV. unfold magnitude.
  replace (Z.log2 V + 1 + unit_exp - 1 - unit_exp) with (Z.log2 V) by lia.
  replace (Z.log2 V + 1 + unit_exp - unit_exp) with (Z.log2 V + 1) by lia.
  now apply log2_bounds.
Qed.

Lemma magnitude_mono (V1 V2 : Z) :
  0 < V1 -> V1 <= V2 -> magnitude V1 <= magnitude V2.
Proof.
  intros H1 H2. unfold magnitude.
  assert (Z.log2 V1 <= Z.log2 V2) by now apply Z.log2_le_mono. lia.
Qed.

Lemma magnitude_ge (V : Z) : 0 < V -> unit_exp + 1 <= magnitude V.
Proof.
  intros HV. unfold magnitude. assert (0 <= Z.log2 V) by apply Z.log2_nonneg. lia.
Qed.

Lemma magnitude_scaled (m k : Z) :
  0 < m -> 0 <= k -> magnitude (m * 2 ^ k) = Z.log2 m + 1 + k + unit_exp.
Proof.
  intros Hm Hk. unfold magnitude. rewrite Z.log2_mul_pow2 by lia. lia.
Qed.

Lemma fexp64_unit (d : Z) : unit_exp <= fexp64 d.
Proof. unfold fexp64, unit_exp. lia. Qed.

Lemma rvalZ_nonneg (V : Z) : 0 <= V -> 0 <= rvalZ V.
Proof.
  intros HV. unfold rvalZ.
  assert (Ht := fexp64_unit (magnitude V)).
  apply (round_at_ge_multiple _ Ht V 0). lia.
Qed.

Lemma rvalZ_mono (V1 V2 : Z) : 0 < V1 -> V1 <= V2 -> rvalZ V1 <= rvalZ V2.
Proof.
  intros H1 H12. unfold rvalZ.
  assert (Hd := magnitude_mono V1 V2 H1 H12).
  assert (Ht := fexp64_mono _ _ Hd).
  assert (Hu1 := fexp64_unit (magnitude V1)).
  assert (Hu2 := fexp64_unit (magnitude V2)).
  destruct (Z.eq_dec (fexp64 (magnitude V1)) (fexp64 (magnitude V2))) as [Heq|Hne].
  - rewrite Heq. now apply round_at_mono.
  - assert (Hlt : fexp64 (magnitude V1) < fexp64 (magnitude V2)) by lia.
    assert (Hd12 : magnitude V1 < magnitude V2).
    { destruct (Z.lt_ge_cases (magnitude V1) (magnitude V2)); [assumption|].
      assert (magnitude V1 = magnitude V2) by lia. congruence. }
    assert (Ht2 : fexp64 (magnitude V2) = magnitude V2 - 53).
    { assert (H := fexp64_ge (magnitude V1)). unfold fexp64 in *. lia. }
    destruct (magnitude_spec V1 H1) as (_ & Hup1).
    destruct (magnitude_spec V2 ltac:(lia)) as (Hlow2 & _).
    set (U := 2 ^ (magnitude V2 - 1 - unit_exp)) in *.
    assert (HV1U : V1 <= U).
    { assert (2 ^ (magnitude V1 - unit_exp) <= U).
      { apply pow2_le. assert (H := magnitude_ge V1 H1). lia. }
      lia. }
    transitivity U.
    + replace U with (2 ^ (magnitude V2 - 1 - fexp64 (magnitude V1))
                      * 2 ^ (fexp64 (magnitude V1) - unit_exp)).
      * apply (round_at_le_multiple _ Hu1).
        rewrite <- pow2_add by lia.
        replace (magnitude V2 - 1 - fexp64 (magnitude V1)
                 + (fexp64 (magnitude V1) - unit_exp))
          with (magnitude V2 - 1 - unit_exp) by lia.
        exact HV1U.
      * rewrite <- pow2_add by lia. unfold U. f_equal. lia.
    + replace U with (2 ^ 52 * 2 ^ (fexp64 (magnitude V2) - unit_exp)).
      * apply (round_at_ge_multiple _ Hu2).
        rewrite <- pow2_add by lia.
        replace (52 + (fexp64 (magnitude V2) - unit_exp))
          with (magnitude V2 - 1 - unit_exp) by lia.
        exact Hlow2.
      * rewrite <- pow2_add by lia. unfold U. f_equal. lia.
Qed.

(** A canonical number is its own rounding. *)
Lemma rvalZ_canonical (m e : Z) :
  0 < m -> fexp64 (Z.log2 m + 1 + e) = e ->
  rvalZ (m * 2 ^ (e - unit_exp)) = m * 2 ^ (e - unit_exp).
Proof.
  intros Hm Hcan.
  assert (He : unit_exp <= e) by (rewrite <- Hcan; apply fexp64_unit).
  unfold rvalZ. rewrite magnitude_scaled by lia.
  replace (Z.log2 m + 1 + (e - unit_exp) + unit_exp) with (Z.log2 m + 1 + e) by lia.
  rewrite Hcan. now apply round_at_multiple.
Qed.

(** In the normal range the rounding error is at most one part in
    [2^52] of the result. *)
Lemma rvalZ_relative (V : Z) :
  2 ^ (-1022 - unit_exp) <= V ->
  (2 ^ 52 - 1) * rvalZ V <= 2 ^ 52 * V.
Proof.
  intros HV.
  assert (Hpos : 0 < V).
  { assert (0 < 2 ^ (-1022 - unit_exp)) by (apply pow2_pos; unfold unit_exp; lia). lia. }
  destruct (magnitude_spec V Hpos) as (Hlow & Hup).
  assert (Hd : -1021 <= magnitude V).
  { destruct (Z.lt_ge_cases (magnitude V) (-1021)) as [Hlt|]; [|assumption].
    assert (2 ^ (magnitude V - unit_exp) <= 2 ^ (-1022 - unit_exp)).
    { apply pow2_le. assert (H := magnitude_ge V Hpos). unfold unit_exp in *. lia. }
    lia. }
  assert (Ht : fexp64 (magnitude V) = magnitude V - 53) by (unfold fexp64; lia).
  assert (Hu := fexp64_unit (magnitude V)).
  unfold rvalZ.
  set (t := fexp64 (magnitude V)) in *.
  assert (HG := grid_pos t Hu).
  assert (Habove := round_at_above t Hu V).
  assert (Hge : 2 ^ 52 * 2 ^ (t - unit_exp) <= round_at t V).
  { apply (round_at_ge_multiple _ Hu).
    rewrite <- pow2_add by lia.
    replace (52 + (t - unit_exp)) with (magnitude V - 1 - unit_exp) by lia.
    exact Hlow. }
  set (G := 2 ^ (t - unit_exp)) in *.
  set (R := round_at t V) in *.
  change (2 ^ 52) with 4503599627370496 in *. lia.
Qed.

(** ** Signed values *)

Lemma CAP_pos : 0 < CAP.
Proof. apply pow2_pos. unfold unit_exp. lia. Qed.

Lemma RV_mono (S1 S2 : Z) : S1 <= S2 -> RV S1 <= RV S2.
Proof.
  intros H. assert (HC := CAP_pos).
  destruct S1 as [|p1|p1], S2 as [|p2|p2]; cbn [RV]; try lia.
  - assert (0 <= rvalZ (Zpos p2)) by (apply rvalZ_nonneg; lia). lia.
  - assert (rvalZ (Zpos p1) <= rvalZ (Zpos p2)) by (apply rvalZ_mono; lia). lia.
  - assert (0 <= rvalZ (- Zneg p1)) by (apply rvalZ_nonneg; lia). lia.
  - assert (0 <= rvalZ (- Zneg p1)) by (apply rvalZ_nonneg; lia).
    assert (0 <= rvalZ (Zpos p2)) by (apply rvalZ_nonneg; lia). lia.
  - assert (rvalZ (- Zneg p2) <= rvalZ (- Zneg p1)) by (apply rvalZ_mono; lia). lia.
Qed.

End Binary64Rounding.

Module Binary64Round.

Import Binary64 Binary64Facts Binary64Rounding.
Local Open Scope Z_scope.

Lemma rne_scale (q r g c : Z) : 0 < c -> rne q (r * c) (g * c) = rne q r g.
Proof.
  intros Hc. unfold rne.
  replace (2 * (r * c)) with (2 * r * c) by ring.
  destruct (Z.compare_spec (2 * r) g); destruct (Z.compare_spec (2 * r * c) (g * c));
    try reflexivity; nia.
Qed.

Lemma rne_nonneg (q r g : Z) : 0 <= q -> 0 <= rne q r g.
Proof. intros H. assert (Hb := rne_bounds q r g). lia. Qed.

Lemma Zdigits2_nonneg (m : Z) : 0 <= Zdigits2 m.
Proof. destruct m; simpl; lia. Qed.

Lemma Zdigits2_bounds (m : Z) :
  0 < m -> 2 ^ (Zdigits2 m - 1) <= m < 2 ^ Zdigits2 m.
Proof.
  intros Hm. rewrite Zdigits2_log2 by assumption.
  replace (Z.log2 m + 1 - 1) with (Z.log2 m) by lia. now apply log2_bounds.
Qed.

Lemma Zdigits2_le (m k : Z) : 0 <= k -> 0 <= m < 2 ^ k -> Zdigits2 m <= k.
Proof.
  intros Hk [H0 Hm]. destruct (Z.eq_dec m 0) as [->|Hne]; [simpl; lia|].
  destruct (Zdigits2_bounds m ltac:(lia)) as [Hlow _].
  destruct (Z.le_gt_cases (Zdigits2 m) k) as [|Hgt]; [assumption|].
  assert (2 ^ k <= 2 ^ (Zdigits2 m - 1)) by (apply pow2_le; lia). lia.
Qed.

Lemma Zdigits2_ge (m k : Z) : 0 <= k -> 2 ^ k <= m -> k + 1 <= Zdigits2 m.
Proof.
  intros Hk Hm.
  assert (Hpos : 0 < m) by (assert (H := pow2_pos k Hk); lia).
  destruct (Zdigits2_bounds m Hpos) as [_ Hup].
  destruct (Z.le_gt_cases (k + 1) (Zdigits2 m)) as [|Hgt]; [assumption|].
  assert (2 ^ Zdigits2 m <= 2 ^ k)
    by (apply pow2_le; assert (H := Zdigits2_nonneg m); lia).
  lia.
Qed.

Lemma shr_nonpos (mrs : shr_record) (e n : Z) : n <= 0 -> shr mrs e n = (mrs, e).
Proof. destruct n; [reflexivity|lia|reflexivity]. Qed.

(** The second shift of [binary_round_aux]: it moves one place exactly
    when the rounded mantissa is [2^53]. *)
Lemma second_shift (m t : Z) :
  0 <= m <= 2 ^ 53 -> -1074 <= t ->
  exists m' N,
    shr_m (fst (shr_fexp prec emax m t loc_Exact)) = m'
    /\ snd (shr_fexp prec emax m t loc_Exact) = t + N
    /\ m' * 2 ^ N = m
    /\ 0 <= m' < 2 ^ 53
    /\ (N = 0 \/ (N = 1 /\ m' = 2 ^ 52)).
Proof.
  intros [H0 Hm] Ht. unfold shr_fexp. rewrite fexp_fexp64.
  destruct (Z.eq_dec m (2 ^ 53)) as [->|Hne].
  - exists (2 ^ 52), 1.
    change (Zdigits2 (2 ^ 53)) with 54.
    replace (fexp64 (54 + t) - t) with 1 by (unfold fexp64; lia).
    cbn. repeat split; lia.
  - exists m, 0.
    assert (Hd : Zdigits2 m <= 53) by (apply Zdigits2_le; lia).
    rewrite shr_nonpos by (unfold fexp64; lia).
    cbn [fst snd shr_record_of_loc shr_m].
    repeat split; lia.
Qed.

(** [binary_round_aux] on the truncated quotient [mx] of [num] by [den],
    with its location: the quotient is rounded to nearest, ties to even,
    on the grid of its magnitude, and an overflow gives the infinity. *)
Lemma binary_round_aux_spec (s : bool) (num den mx ex : Z) (lx : location) :
  represents num den (shr_record_of_loc mx lx) ->
  unit_exp <= ex ->
  ex <= fexp64 (Zdigits2 mx + ex) ->
  let t := fexp64 (Zdigits2 mx + ex) in
  let D := den * 2 ^ (t - ex) in
  let m := rne (num / D) (num mod D) D in
  SFval (binary_round_aux prec emax s mx ex lx)
  = Some (cond_Zopp s (Z.min (m * 2 ^ (t - unit_exp)) CAP))
  /\ 0 <= m <= 2 ^ 53
  /\ (-1074 < t -> 2 ^ 52 <= m)
  /\ (m - 1) * D <= num < (m + 1) * D.
Proof.
  intros Hrep Hex Hpre t D m.
  assert (Hmx : shr_m (shr_record_of_loc mx lx) = mx)
    by (destruct lx as [|[]]; reflexivity).
  assert (Hq : mx = num / den /\ 0 < den /\ 0 <= num).
  { destruct Hrep as (Hden & Hnum & Hm & _). rewrite Hmx in Hm. lia. }
  destruct Hq as (Hq & Hden & Hnum).
  assert (Hmx0 : 0 <= mx) by (subst mx; apply Z.div_pos; lia).
  assert (Ht : -1074 <= t) by apply fexp64_ge.
  assert (Hn1 : 0 <= t - ex) by (unfold t; lia).
  assert (Hpow : 0 < 2 ^ (t - ex)) by now apply pow2_pos.
  assert (HD : 0 < D) by (unfold D; nia).
  (* the first shift *)
  unfold binary_round_aux.
  destruct (shr_represents num den _ ex (t - ex) Hrep) as [Hrep1 He1].
  rewrite Z.max_l in Hrep1, He1 by lia.
  unfold shr_fexp at 1. rewrite fexp_fexp64. fold t.
  destruct (shr (shr_record_of_loc mx lx) ex (t - ex)) as [mrs' e'].
  cbn [fst snd] in Hrep1, He1. fold D in Hrep1.
  replace e' with t by lia. clear He1 e'.
  rewrite (round_nearest_even_rne num D mrs' Hrep1). fold m.
  (* the rounded mantissa *)
  assert (Hq1 : num / D = mx / 2 ^ (t - ex)).
  { unfold D. rewrite <- Z.div_div by lia. now rewrite Hq. }
  assert (Hq1up : num / D < 2 ^ 53).
  { rewrite Hq1. apply Z.div_lt_upper_bound; [lia|].
    destruct (Z.eq_dec mx 0) as [->|Hne].
    - assert (0 < 2 ^ 53) by (apply pow2_pos; lia). nia.
    - destruct (Zdigits2_bounds mx ltac:(lia)) as [_ Hup].
      assert (2 ^ Zdigits2 mx <= 2 ^ (t - ex + 53)).
      { apply pow2_le. assert (H := Zdigits2_nonneg mx). unfold t, fexp64. lia. }
      rewrite pow2_add in H by lia. lia. }
  assert (Hq10 : 0 <= num / D) by (apply Z.div_pos; lia).
  assert (Hmb := rne_bounds (num / D) (num mod D) D). fold m in Hmb.
  assert (Hm53 : 0 <= m <= 2 ^ 53) by lia.
  assert (Hnormal : -1074 < t -> 2 ^ 52 <= m).
  { intros Hlt.
    assert (Hteq : t = Zdigits2 mx + ex - 53) by (unfold t, fexp64 in *; lia).
    assert (Hdig : 53 <= Zdigits2 mx) by lia.
    assert (Hmxpos : 0 < mx) by (destruct mx; simpl in Hdig; lia).
    destruct (Zdigits2_bounds mx Hmxpos) as [Hlow _].
    assert (2 ^ 52 <= num / D); [|lia].
    rewrite Hq1. apply Z.div_le_lower_bound; [lia|].
    rewrite Z.mul_comm, <- pow2_add by lia.
    replace (52 + (t - ex)) with (Zdigits2 mx - 1) by lia. exact Hlow. }
  assert (Hdown : (m - 1) * D <= num < (m + 1) * D).
  { assert (Hdm := Z.div_mod num D ltac:(lia)).
    assert (Hrem := Z.mod_pos_bound num D HD). nia. }
  split; [|split; [exact Hm53|split; [exact Hnormal|exact Hdown]]].
  (* the second shift *)
  destruct (second_shift m t Hm53 Ht) as (m' & N & Hm' & He'' & Hval & Hm'53 & HN).
  destruct (shr_fexp prec emax m t loc_Exact) as [mrs'' e''].
  cbn [fst snd] in Hm', He''. rewrite Hm', He''.
  assert (HN0 : 0 <= N) by (destruct HN as [->|[-> _]]; lia).
  assert (HX : m * 2 ^ (t - unit_exp) = m' * 2 ^ (t + N - unit_exp)).
  { rewrite <- Hval. replace (t + N - unit_exp) with (N + (t - unit_exp)) by lia.
    rewrite pow2_add by (unfold unit_exp; lia). ring. }
  assert (HC := CAP_pos).
  destruct m' as [|p|p]; [| |lia].
  - cbn [SFval]. rewrite HX. simpl (0 * _). rewrite Z.min_l by lia.
    now destruct s.
  - change (emax - prec) with 971.
    destruct (Z.leb_spec (t + N) 971) as [Hle|Hgt]; cbn [SFval].
    + rewrite HX. rewrite Z.min_l; [reflexivity|].
      assert (2 ^ (t + N - unit_exp) <= 2 ^ (971 - unit_exp))
        by (apply pow2_le; unfold unit_exp; lia).
      assert (0 < 2 ^ (t + N - unit_exp)) by (apply pow2_pos; unfold unit_exp; lia).
      replace CAP with (2 ^ 53 * 2 ^ (971 - unit_exp))
        by (unfold CAP; rewrite <- pow2_add by (unfold unit_exp; lia); reflexivity).
      nia.
    + rewrite Z.min_r; [reflexivity|].
      rewrite HX.
      assert (H52 : 2 ^ 52 <= Zpos p).
      { destruct HN as [->|[-> H]]; [|lia].
        rewrite Z.add_0_r in Hgt. rewrite Z.pow_0_r, Z.mul_1_r in Hval.
        rewrite Hval. apply Hnormal. lia. }
      assert (2 ^ (972 - unit_exp) <= 2 ^ (t + N - unit_exp))
        by (apply pow2_le; unfold unit_exp; lia).
      assert (0 < 2 ^ (972 - unit_exp)) by (apply pow2_pos; unfold unit_exp; lia).
      replace CAP with (2 ^ 52 * 2 ^ (972 - unit_exp))
        by (unfold CAP; rewrite <- pow2_add by (unfold unit_exp; lia); reflexivity).
      nia.
Qed.

End Binary64Round.

Module Binary64Exact.

Import Binary64 Binary64Facts Binary64Rounding Binary64Round.
Local Open Scope Z_scope.

Lemma RV_pos (S : Z) : 0 < S -> RV S = Z.min (rvalZ S) CAP.
Proof. destruct S; [lia|reflexivity|lia]. Qed.

Lemma RV_neg (S : Z) : S < 0 -> RV S = - Z.min (rvalZ (- S)) CAP.
Proof. destruct S; [lia|lia|reflexivity]. Qed.

Lemma RV_opp (S : Z) : RV (- S) = - RV S.
Proof.
  destruct S as [|p|p]; cbn [RV Z.opp]; [reflexivity|reflexivity|].
  now rewrite Z.opp_involutive.
Qed.

Lemma RV_nonneg (S : Z) : 0 <= S -> 0 <= RV S.
Proof. intros H. change 0 with (RV 0) at 1. now apply RV_mono. Qed.

(** ** Valid numbers *)

Lemma valid_finite (s : bool) (m : positive) (e : Z) :
  valid_binary (S754_finite s m e) = true ->
  fexp64 (Zdigits2 (Zpos m) + e) = e /\ e <= 971.
Proof.
  unfold valid_binary, bounded, canonical_mantissa.
  rewrite fexp_fexp64. change (emax - prec) with 971.
  intros H. apply andb_prop in H as [H1 H2].
  apply Z.eqb_eq in H1. apply Z.leb_le in H2. now split.
Qed.

Lemma valid_finite_bounds (s : bool) (m : positive) (e : Z) :
  valid_binary (S754_finite s m e) = true ->
  -1074 <= e <= 971
  /\ Zdigits2 (Zpos m) <= 53
  /\ Zpos m < 2 ^ 53
  /\ (-1074 < e -> 2 ^ 52 <= Zpos m).
Proof.
  intros H. destruct (valid_finite s m e H) as [Hcan He].
  assert (Hge := fexp64_ge (Zdigits2 (Zpos m) + e)).
  assert (Hd : Zdigits2 (Zpos m) <= 53) by (unfold fexp64 in Hcan; lia).
  destruct (Zdigits2_bounds (Zpos m) ltac:(lia)) as [Hlow Hup].
  split; [lia|]. split; [exact Hd|]. split.
  - assert (2 ^ Zdigits2 (Zpos m) <= 2 ^ 53)
      by (apply pow2_le; assert (H0 := Zdigits2_nonneg (Zpos m)); lia).
    lia.
  - intros Hlt.
    assert (Hd53 : Zdigits2 (Zpos m) = 53) by (unfold fexp64 in Hcan; lia).
    rewrite Hd53 in Hlow. exact Hlow.
Qed.

(** The value of a valid finite number is its own rounding, below the
    infinity. *)
Lemma valid_finite_value (s : bool) (m : positive) (e : Z) :
  valid_binary (S754_finite s m e) = true ->
  let V := Zpos m * 2 ^ (e - unit_exp) in
  rvalZ V = V /\ 0 < V < CAP.
Proof.
  intros H V. destruct (valid_finite s m e H) as [Hcan He].
  destruct (valid_finite_bounds s m e H) as (Hb & _ & Hm & _).
  split.
  - apply rvalZ_canonical; [lia|].
    rewrite <- Zdigits2_log2 by lia. exact Hcan.
  - assert (Hp : 0 < 2 ^ (e - unit_exp)) by (apply pow2_pos; unfold unit_exp; lia).
    split; [unfold V; nia|].
    assert (2 ^ (e - unit_exp) <= 2 ^ (971 - unit_exp))
      by (apply pow2_le; unfold unit_exp; lia).
    replace CAP with (2 ^ 53 * 2 ^ (971 - unit_exp))
      by (unfold CAP; rewrite <- pow2_add by (unfold unit_exp; lia); reflexivity).
    unfold V. nia.
Qed.

Lemma RV_CAP : RV CAP = CAP.
Proof.
  assert (HC := CAP_pos). rewrite RV_pos by lia.
  replace (rvalZ CAP) with CAP; [lia|]. symmetry.
  replace CAP with (2 ^ 52 * 2 ^ (972 - unit_exp))
    by (unfold CAP; rewrite <- pow2_add by (unfold unit_exp; lia); reflexivity).
  apply rvalZ_canonical; [lia|reflexivity].
Qed.

(** What a valid number that is not a NaN stands for is a fixed point of
    the rounding, between the two infinities; it is finite exactly when
    it is strictly between them. *)
Lemma SFval_valid (x : spec_float) (X : Z) :
  valid_binary x = true -> SFval x = Some X ->
  RV X = X /\ - CAP <= X <= CAP
  /\ (SFis_finite x = true <-> - CAP < X < CAP).
Proof.
  intros Hv HX. assert (HC := CAP_pos).
  destruct x as [s|s| |s m e]; [| | discriminate|].
  - assert (X = 0) by (unfold SFval in HX; congruence). subst X.
    repeat split; try reflexivity; lia.
  - assert (HXe : X = cond_Zopp s CAP) by (unfold SFval in HX; congruence).
    subst X. unfold SFis_finite.
    destruct s; unfold cond_Zopp.
    + rewrite RV_opp, RV_CAP. repeat split; try lia; discriminate.
    + rewrite RV_CAP. repeat split; try lia; discriminate.
  - destruct (valid_finite_value s m e Hv) as [Hr Hb].
    set (V := Zpos m * 2 ^ (e - unit_exp)) in *.
    assert (HXe : X = cond_Zopp s V) by (unfold SFval in HX; fold V in HX; congruence).
    subst X. unfold SFis_finite.
    destruct s; unfold cond_Zopp.
    + rewrite RV_opp, RV_pos by lia. rewrite Hr, Z.min_l by lia.
      repeat split; lia.
    + rewrite RV_pos by lia. rewrite Hr, Z.min_l by lia.
      repeat split; lia.
Qed.

(** ** Exact operands *)

Lemma binary_round_aux_exact (s : bool) (mx ex : Z) :
  0 < mx -> unit_exp <= ex -> ex <= fexp64 (Zdigits2 mx + ex) ->
  SFval (binary_round_aux prec emax s mx ex loc_Exact)
  = Some (cond_Zopp s (Z.min (rvalZ (mx * 2 ^ (ex - unit_exp))) CAP)).
Proof.
  intros Hmx Hex Hpre.
  destruct (binary_round_aux_spec s mx 1 mx ex loc_Exact
              (represents_exact mx ltac:(lia)) Hex Hpre) as (H & _).
  rewrite H. do 3 f_equal.
  set (t := fexp64 (Zdigits2 mx + ex)) in *.
  assert (Ht : rvalZ (mx * 2 ^ (ex - unit_exp))
               = round_at t (mx * 2 ^ (ex - unit_exp))).
  { unfold rvalZ. rewrite magnitude_scaled by lia.
    rewrite <- Zdigits2_log2 by lia.
    now replace (Zdigits2 mx + (ex - unit_exp) + unit_exp) with (Zdigits2 mx + ex) by lia. }
  rewrite Ht. unfold round_at.
  assert (Hc : 0 < 2 ^ (ex - unit_exp)) by (apply pow2_pos; lia).
  assert (HP : 0 < 2 ^ (t - ex)) by (apply pow2_pos; lia).
  replace (2 ^ (t - unit_exp)) with (2 ^ (t - ex) * 2 ^ (ex - unit_exp))
    by (rewrite <- pow2_add by lia; f_equal; lia).
  rewrite Z.div_mul_cancel_r, Z.mul_mod_distr_r by lia.
  rewrite rne_scale by lia. now rewrite Z.mul_1_l.
Qed.

Lemma iter_xO (p d : positive) : Zpos (Pos.iter xO p d) = Zpos p * 2 ^ Zpos d.
Proof.
  induction d as [|d IH] using Pos.peano_ind.
  - simpl. lia.
  - rewrite Pos.iter_succ, Pos2Z.inj_succ, Z.pow_succ_r by lia.
    rewrite Pos2Z.inj_xO, IH. ring.
Qed.

Lemma shl_align_le (mx : positive) (ex ez : Z) :
  ez <= ex ->
  snd (shl_align mx ex ez) = ez
  /\ Zpos (fst (shl_align mx ex ez)) = Zpos mx * 2 ^ (ex - ez).
Proof.
  intros H. unfold shl_align.
  destruct (ez - ex) as [|d|d] eqn:Hd; cbn [fst snd]; try lia.
  - replace (ex - ez) with 0 by lia. split; lia.
  - split; [reflexivity|]. rewrite iter_xO. do 2 f_equal. lia.
Qed.

Lemma shl_align_ge (mx : positive) (ex ez : Z) :
  ex <= ez -> shl_align mx ex ez = (mx, ex).
Proof.
  intros H. unfold shl_align. destruct (ez - ex) eqn:Hd; try reflexivity; lia.
Qed.

Lemma shl_align_value (mx : positive) (ex ez : Z) :
  unit_exp <= ez -> ez <= ex ->
  Zpos (fst (shl_align mx ex ez)) * 2 ^ (ez - unit_exp)
  = Zpos mx * 2 ^ (ex - unit_exp).
Proof.
  intros Hu H. destruct (shl_align_le mx ex ez H) as [_ ->].
  rewrite <- Z.mul_assoc, <- pow2_add by lia. do 2 f_equal. lia.
Qed.

Lemma binary_round_spec (s : bool) (mx : positive) (ex : Z) :
  unit_exp <= ex ->
  SFval (binary_round prec emax s mx ex)
  = Some (cond_Zopp s (Z.min (rvalZ (Zpos mx * 2 ^ (ex - unit_exp))) CAP)).
Proof.
  intros Hex. unfold binary_round. rewrite fexp_fexp64.
  change (Zpos (digits2_pos mx)) with (Zdigits2 (Zpos mx)).
  set (t := fexp64 (Zdigits2 (Zpos mx) + ex)).
  destruct (Z.le_gt_cases ex t) as [Hle|Hgt].
  - rewrite shl_align_ge by assumption.
    apply binary_round_aux_exact; [lia|assumption|assumption].
  - destruct (shl_align_le mx ex t ltac:(lia)) as [He Hm].
    assert (Hval := shl_align_value mx ex t (fexp64_unit _) ltac:(lia)).
    destruct (shl_align mx ex t) as [mz ez]. cbn [fst snd] in He, Hm, Hval.
    subst ez. rewrite <- Hval.
    apply binary_round_aux_exact; [lia|apply fexp64_unit|].
    assert (Hdig : Zdigits2 (Zpos mz) = Zdigits2 (Zpos mx) + (ex - t)).
    { assert (0 < 2 ^ (ex - t)) by (apply pow2_pos; lia).
      rewrite Hm, (Zdigits2_log2 (Zpos mx)), Zdigits2_log2 by nia.
      rewrite Z.log2_mul_pow2 by lia. lia. }
    rewrite Hdig.
    replace (Zdigits2 (Zpos mx) + (ex - t) + t) with (Zdigits2 (Zpos mx) + ex) by lia.
    fold t. lia.
Qed.

Lemma binary_normalize_spec (m e : Z) (z : bool) :
  unit_exp <= e ->
  SFval (binary_normalize prec emax m e z) = Some (RV (m * 2 ^ (e - unit_exp))).
Proof.
  intros He.
  assert (Hp : 0 < 2 ^ (e - unit_exp)) by (apply pow2_pos; lia).
  destruct m as [|p|p]; cbn [binary_normalize].
  - reflexivity.
  - rewrite binary_round_spec by assumption. rewrite RV_pos by lia. reflexivity.
  - rewrite binary_round_spec by assumption. rewrite RV_neg by lia.
    cbn [cond_Zopp]. do 4 f_equal. lia.
Qed.

End Binary64Exact.

Module Binary64Operations.

Import Binary64 Binary64Facts Binary64Rounding Binary64Round Binary64Exact.
Local Open Scope Z_scope.

Lemma SFis_finite_cases (x : spec_float) :
  SFis_finite x = true ->
  (exists s, x = S754_zero s) \/ (exists s m e, x = S754_finite s m e).
Proof.
  destruct x as [s|s| |s m e]; try discriminate; intros _.
  - left. now exists s.
  - right. now exists s, m, e.
Qed.

Lemma cond_Zopp_mul (s : bool) (a b : Z) : cond_Zopp s a * b = cond_Zopp s (a * b).
Proof. destruct s; unfold cond_Zopp; ring. Qed.

Lemma SFval_finite (s : bool) (m : positive) (e : Z) :
  SFval (S754_finite s m e) = Some (cond_Zopp s (Zpos m * 2 ^ (e - unit_exp))).
Proof. reflexivity. Qed.

Lemma SFval_finite_inv (s : bool) (m : positive) (e : Z) (X : Z) :
  SFval (S754_finite s m e) = Some X ->
  X = cond_Zopp s (Zpos m * 2 ^ (e - unit_exp)).
Proof. rewrite SFval_finite. congruence. Qed.

(** ** Addition and subtraction *)

Lemma SFadd_spec (x y : spec_float) (X Y : Z) :
  valid_binary x = true -> valid_binary y = true ->
  SFis_finite x = true -> SFis_finite y = true ->
  SFval x = Some X -> SFval y = Some Y ->
  SFval (SFadd prec emax x y) = Some (RV (X + Y)).
Proof.
  intros Hvx Hvy Hfx Hfy HX HY.
  destruct (SFval_valid x X Hvx HX) as (HrX & _).
  destruct (SFval_valid y Y Hvy HY) as (HrY & _).
  destruct (SFis_finite_cases x Hfx) as [[sx ->]|(sx & mx & ex & ->)];
    destruct (SFis_finite_cases y Hfy) as [[sy ->]|(sy & my & ey & ->)].
  - assert (X = 0) by (unfold SFval in HX; congruence).
    assert (Y = 0) by (unfold SFval in HY; congruence). subst.
    destruct sx, sy; reflexivity.
  - assert (X = 0) by (unfold SFval in HX; congruence). subst X.
    rewrite Z.add_0_l, HrY. exact HY.
  - assert (Y = 0) by (unfold SFval in HY; congruence). subst Y.
    rewrite Z.add_0_r, HrX. exact HX.
  - apply SFval_finite_inv in HX, HY. subst X Y.
    destruct (valid_finite_bounds sx mx ex Hvx) as (Hex & _).
    destruct (valid_finite_bounds sy my ey Hvy) as (Hey & _).
    unfold SFadd. rewrite binary_normalize_spec by (unfold unit_exp; lia).
    do 2 f_equal.
    rewrite Z.mul_add_distr_r, !cond_Zopp_mul.
    rewrite !shl_align_value by (unfold unit_exp; lia). reflexivity.
Qed.

Lemma SFsub_spec (x y : spec_float) (X Y : Z) :
  valid_binary x = true -> valid_binary y = true ->
  SFis_finite x = true -> SFis_finite y = true ->
  SFval x = Some X -> SFval y = Some Y ->
  SFval (SFsub prec emax x y) = Some (RV (X - Y)).
Proof.
  intros Hvx Hvy Hfx Hfy HX HY.
  destruct (SFval_valid x X Hvx HX) as (HrX & _).
  destruct (SFval_valid y Y Hvy HY) as (HrY & _).
  destruct (SFis_finite_cases x Hfx) as [[sx ->]|(sx & mx & ex & ->)];
    destruct (SFis_finite_cases y Hfy) as [[sy ->]|(sy & my & ey & ->)].
  - assert (X = 0) by (unfold SFval in HX; congruence).
    assert (Y = 0) by (unfold SFval in HY; congruence). subst.
    destruct sx, sy; reflexivity.
  - assert (X = 0) by (unfold SFval in HX; congruence). subst X.
    rewrite Z.sub_0_l, RV_opp, HrY.
    apply SFval_finite_inv in HY. subst Y.
    unfold SFsub. rewrite SFval_finite. f_equal.
    destruct sy; unfold cond_Zopp, negb; lia.
  - assert (Y = 0) by (unfold SFval in HY; congruence). subst Y.
    rewrite Z.sub_0_r, HrX. exact HX.
  - apply SFval_finite_inv in HX, HY. subst X Y.
    destruct (valid_finite_bounds sx mx ex Hvx) as (Hex & _).
    destruct (valid_finite_bounds sy my ey Hvy) as (Hey & _).
    unfold SFsub. rewrite binary_normalize_spec by (unfold unit_exp; lia).
    do 2 f_equal.
    rewrite Z.mul_sub_distr_r, !cond_Zopp_mul.
    rewrite !shl_align_value by (unfold unit_exp; lia). reflexivity.
Qed.

Lemma SFsub_finite (x y : spec_float) :
  SFis_finite (SFsub prec emax x y) = true ->
  SFis_finite x = true /\ SFis_finite y = true.
Proof.
  destruct x as [sx|sx| |sx mx ex], y as [sy|sy| |sy my ey];
    try (intros _; split; reflexivity); try discriminate;
    try (destruct sx, sy; discriminate).
Qed.

(** ** Multiplication *)

Lemma SFmul_spec (sx sy : bool) (mx my : positive) (ex ey : Z) :
  valid_binary (S754_finite sx mx ex) = true ->
  valid_binary (S754_finite sy my ey) = true ->
  SFval (SFmul prec emax (S754_finite sx mx ex) (S754_finite sy my ey))
  = Some (cond_Zopp (xorb sx sy)
            (Z.min (rvalZ (Zpos mx * Zpos my * 2 ^ (ex + ey - unit_exp))) CAP)).
Proof.
  intros Hvx Hvy.
  destruct (valid_finite sx mx ex Hvx) as [Hcx _].
  destruct (valid_finite sy my ey Hvy) as [Hcy _].
  destruct (valid_finite_bounds sx mx ex Hvx) as (Hex & Hdx & _).
  destruct (valid_finite_bounds sy my ey Hvy) as (Hey & Hdy & _).
  unfold SFmul. rewrite Pos2Z.inj_mul.
  apply binary_round_aux_exact; [lia|unfold unit_exp; lia|].
  destruct (Zdigits2_bounds (Zpos mx) ltac:(lia)) as [Hlx _].
  destruct (Zdigits2_bounds (Zpos my) ltac:(lia)) as [Hly _].
  assert (H1x : 1 <= Zdigits2 (Zpos mx)) by (simpl; lia).
  assert (H1y : 1 <= Zdigits2 (Zpos my)) by (simpl; lia).
  assert (Hd : Zdigits2 (Zpos mx) + Zdigits2 (Zpos my) - 1
               <= Zdigits2 (Zpos mx * Zpos my)).
  { replace (Zdigits2 (Zpos mx) + Zdigits2 (Zpos my) - 1)
      with ((Zdigits2 (Zpos mx) - 1 + (Zdigits2 (Zpos my) - 1)) + 1) by lia.
    apply Zdigits2_ge; [lia|]. rewrite pow2_add by lia. nia. }
  unfold fexp64 in *. lia.
Qed.

(** ** Division *)

Lemma new_location_represents (num den : Z) :
  0 < den -> 0 <= num ->
  represents num den
    (shr_record_of_loc (num / den) (new_location den (num mod den))).
Proof.
  intros Hden Hnum. assert (Hrem := Z.mod_pos_bound num den Hden).
  unfold represents. split; [exact Hden|]. split; [exact Hnum|].
  set (r := num mod den) in *.
  unfold new_location, new_location_even, new_location_odd.
  destruct (Z.even den) eqn:Heven.
  - destruct (Z.eqb_spec r 0) as [Hr|Hr]; cbn [shr_record_of_loc shr_m shr_r shr_s].
    + rewrite Hr. split; [reflexivity|]. split; [|reflexivity].
      symmetry. apply Z.leb_gt. lia.
    + destruct (Z.compare_spec (2 * r) den) as [H|H|H];
        cbn [shr_record_of_loc shr_m shr_r shr_s];
        (split; [reflexivity|]); split;
        try (symmetry; apply Z.leb_le; lia);
        try (symmetry; apply Z.leb_gt; lia);
        destruct (Z.eqb_spec (2 * r) den); cbn; try reflexivity; lia.
  - assert (Hodd : forall k, den <> 2 * k).
    { intros k ->. rewrite Z.even_mul in Heven. discriminate. }
    destruct (Z.eqb_spec r 0) as [Hr|Hr]; cbn [shr_record_of_loc shr_m shr_r shr_s].
    + rewrite Hr. split; [reflexivity|]. split; [|reflexivity].
      symmetry. apply Z.leb_gt. lia.
    + assert (Hne := Hodd r).
      destruct (Z.compare_spec (2 * r + 1) den) as [H|H|H];
        cbn [shr_record_of_loc shr_m shr_r shr_s];
        (split; [reflexivity|]); split;
        try (symmetry; apply Z.leb_le; lia);
        try (symmetry; apply Z.leb_gt; lia);
        destruct (Z.eqb_spec (2 * r) den); cbn; try reflexivity; lia.
Qed.

(** The division of two positive numbers is [binary_round_aux] on the
    truncated quotient of the shifted mantissas, which has digits
    enough. *)
Lemma SFdiv_core (mx my : positive) (ex ey : Z) :
  valid_binary (S754_finite false mx ex) = true ->
  valid_binary (S754_finite false my ey) = true ->
  exists e',
    0 <= ex - ey - e' /\ unit_exp <= e'
    /\ represents (Zpos mx * 2 ^ (ex - ey - e')) (Zpos my)
         (shr_record_of_loc (Zpos mx * 2 ^ (ex - ey - e') / Zpos my)
            (new_location (Zpos my) ((Zpos mx * 2 ^ (ex - ey - e')) mod Zpos my)))
    /\ e' <= fexp64 (Zdigits2 (Zpos mx * 2 ^ (ex - ey - e') / Zpos my) + e')
    /\ SFdiv prec emax (S754_finite false mx ex) (S754_finite false my ey)
       = binary_round_aux prec emax false
           (Zpos mx * 2 ^ (ex - ey - e') / Zpos my) e'
           (new_location (Zpos my) ((Zpos mx * 2 ^ (ex - ey - e')) mod Zpos my)).
Proof.
  intros Hvx Hvy.
  destruct (valid_finite_bounds false mx ex Hvx) as (Hex & _).
  destruct (valid_finite_bounds false my ey Hvy) as (Hey & _).
  unfold SFdiv, SFdiv_core_binary. rewrite fexp_fexp64.
  set (d1 := Zdigits2 (Zpos mx)). set (d2 := Zdigits2 (Zpos my)).
  set (e' := Z.min (fexp64 (d1 + ex - (d2 + ey))) (ex - ey)).
  set (s := ex - ey - e').
  exists e'. fold s.
  assert (Hs : 0 <= s) by (unfold s, e'; lia).
  assert (He' : unit_exp <= e').
  { unfold e'. assert (H := fexp64_ge (d1 + ex - (d2 + ey))). unfold unit_exp. lia. }
  assert (Hm' : match s with
                | Zpos _ => Z.shiftl (Zpos mx) s
                | 0 => Zpos mx
                | Zneg _ => 0
                end = Zpos mx * 2 ^ s).
  { destruct s as [|p|p] eqn:Es; [lia| |lia].
    now rewrite Z.shiftl_mul_pow2 by lia. }
  rewrite Hm'. clear Hm'.
  set (num := Zpos mx * 2 ^ s).
  assert (H2s : 0 < 2 ^ s) by now apply pow2_pos.
  assert (Hnum : 0 < num) by (unfold num; nia).
  assert (Hqr : Z.div_eucl num (Zpos my) = (num / Zpos my, num mod Zpos my)).
  { unfold Z.div, Z.modulo. now destruct (Z.div_eucl num (Zpos my)). }
  rewrite Hqr.
  set (q := num / Zpos my).
  split; [exact Hs|]. split; [exact He'|].
  split; [apply new_location_represents; lia|].
  split; [|reflexivity].
  (* the quotient has enough digits *)
  assert (Hdq : d1 + ex - (d2 + ey) - e' <= Zdigits2 q).
  { destruct (Z.le_gt_cases (d1 + ex - (d2 + ey) - e') 0) as [Hle|Hgt].
    - assert (H := Zdigits2_nonneg q). lia.
    - set (k := d1 + ex - (d2 + ey) - e') in *.
      replace k with ((k - 1) + 1) by lia.
      apply Zdigits2_ge; [lia|].
      destruct (Zdigits2_bounds (Zpos mx) ltac:(lia)) as [Hlx _].
      destruct (Zdigits2_bounds (Zpos my) ltac:(lia)) as [_ Huy].
      fold d1 in Hlx. fold d2 in Huy.
      assert (H1x : 1 <= d1) by (unfold d1; simpl; lia).
      assert (H1y : 1 <= d2) by (unfold d2; simpl; lia).
      unfold q. apply Z.div_le_lower_bound; [lia|].
      assert (Hk : k - 1 + d2 = d1 - 1 + s) by (unfold k, s; lia).
      assert (2 ^ (k - 1) * 2 ^ d2 = 2 ^ (d1 - 1) * 2 ^ s).
      { rewrite <- !pow2_add by lia. f_equal. exact Hk. }
      assert (0 < 2 ^ (k - 1)) by (apply pow2_pos; lia).
      unfold num. nia. }
  assert (H := fexp64_mono (d1 + ex - (d2 + ey)) (Zdigits2 q + e') ltac:(lia)).
  unfold e' at 1. lia.
Qed.

(** The quotient of two positive numbers, when it is in the normal
    range, is above the exact quotient by at most one part in [2^52]. *)
Lemma SFdiv_bound (mx my : positive) (ex ey : Z) (S : Z) :
  valid_binary (S754_finite false mx ex) = true ->
  valid_binary (S754_finite false my ey) = true ->
  SFval (SFdiv prec emax (S754_finite false mx ex) (S754_finite false my ey))
  = Some S ->
  2 ^ (-1022 - unit_exp) <= Z.abs S ->
  0 <= S
  /\ (2 ^ 52 - 1) * S * Zpos my <= 2 ^ 52 * (Zpos mx * 2 ^ (ex - ey - unit_exp)).
Proof.
  intros Hvx Hvy HS Hnormal.
  destruct (valid_finite_bounds false mx ex Hvx) as (Hex & _).
  destruct (valid_finite_bounds false my ey Hvy) as (Hey & _).
  destruct (SFdiv_core mx my ex ey Hvx Hvy) as (e' & Hs & He' & Hrep & Hpre & Hdiv).
  rewrite Hdiv in HS. clear Hdiv.
  set (num := Zpos mx * 2 ^ (ex - ey - e')) in *.
  set (q := num / Zpos my) in *.
  destruct (binary_round_aux_spec false num (Zpos my) q e' _ Hrep He' Hpre)
    as (Hval & Hm53 & Hm52 & Hdown & _).
  rewrite Hval in HS. clear Hval.
  set (t := fexp64 (Zdigits2 q + e')) in *.
  set (m := rne (num / (Zpos my * 2 ^ (t - e')))
                (num mod (Zpos my * 2 ^ (t - e'))) (Zpos my * 2 ^ (t - e'))) in *.
  unfold cond_Zopp in HS.
  assert (HSe : S = Z.min (m * 2 ^ (t - unit_exp)) CAP) by congruence.
  clear HS.
  assert (Ht : -1074 <= t) by apply fexp64_ge.
  assert (HG : 0 < 2 ^ (t - unit_exp)) by (apply pow2_pos; unfold unit_exp; lia).
  assert (HC := CAP_pos).
  assert (HS0 : 0 <= S) by (rewrite HSe; apply Z.min_glb; [nia|lia]).
  rewrite Z.abs_eq in Hnormal by exact HS0.
  split; [exact HS0|].
  assert (HSle : S <= m * 2 ^ (t - unit_exp)) by lia.
  assert (Hm : 2 ^ 52 <= m).
  { destruct (Z.eq_dec t (-1074)) as [Heq|Hne]; [|apply Hm52; lia].
    rewrite Heq in HSle.
    replace (2 ^ (-1022 - unit_exp)) with (2 ^ 52 * 2 ^ (-1074 - unit_exp)) in Hnormal
      by (rewrite <- pow2_add by (unfold unit_exp; lia); reflexivity).
    assert (0 < 2 ^ (-1074 - unit_exp)) by (apply pow2_pos; unfold unit_exp; lia).
    nia. }
  (* from the mantissa to the values *)
  assert (HP : 0 < 2 ^ (t - e')) by (apply pow2_pos; lia).
  assert (Hc : 0 < 2 ^ (e' - unit_exp)) by (apply pow2_pos; lia).
  assert (HGe : 2 ^ (t - unit_exp) = 2 ^ (t - e') * 2 ^ (e' - unit_exp)).
  { rewrite <- pow2_add by lia. f_equal. lia. }
  assert (Hnume : num * 2 ^ (e' - unit_exp) = Zpos mx * 2 ^ (ex - ey - unit_exp)).
  { unfold num. rewrite <- Z.mul_assoc, <- pow2_add by lia. do 2 f_equal. lia. }
  rewrite <- Hnume.
  assert (H1 : (m - 1) * 2 ^ (t - unit_exp) * Zpos my <= num * 2 ^ (e' - unit_exp)).
  { rewrite HGe.
    replace ((m - 1) * (2 ^ (t - e') * 2 ^ (e' - unit_exp)) * Zpos my)
      with ((m - 1) * (Zpos my * 2 ^ (t - e')) * 2 ^ (e' - unit_exp)) by ring.
    apply Z.mul_le_mono_nonneg_r; [lia|exact Hdown]. }
  assert (H2 : (2 ^ 52 - 1) * m <= 2 ^ 52 * (m - 1)) by lia.
  assert (H3 : (2 ^ 52 - 1) * S * Zpos my
               <= (2 ^ 52 - 1) * (m * 2 ^ (t - unit_exp)) * Zpos my).
  { apply Z.mul_le_mono_nonneg_r; [lia|].
    apply Z.mul_le_mono_nonneg_l; [lia|exact HSle]. }
  assert (H4 : (2 ^ 52 - 1) * (m * 2 ^ (t - unit_exp)) * Zpos my
               <= 2 ^ 52 * ((m - 1) * 2 ^ (t - unit_exp) * Zpos my)).
  { replace ((2 ^ 52 - 1) * (m * 2 ^ (t - unit_exp)) * Zpos my)
      with ((2 ^ 52 - 1) * m * (2 ^ (t - unit_exp) * Zpos my)) by ring.
    replace (2 ^ 52 * ((m - 1) * 2 ^ (t - unit_exp) * Zpos my))
      with (2 ^ 52 * (m - 1) * (2 ^ (t - unit_exp) * Zpos my)) by ring.
    apply Z.mul_le_mono_nonneg_r; [nia|exact H2]. }
  assert (H5 : 2 ^ 52 * ((m - 1) * 2 ^ (t - unit_exp) * Zpos my)
               <= 2 ^ 52 * (num * 2 ^ (e' - unit_exp))).
  { apply Z.mul_le_mono_nonneg_l; [lia|exact H1]. }
  lia.
Qed.

(** A quotient of two positive numbers that rounds to zero is below
    the least denormal. *)
Lemma SFdiv_zero (mx my : positive) (ex ey : Z) :
  valid_binary (S754_finite false mx ex) = true ->
  valid_binary (S754_finite false my ey) = true ->
  SFval (SFdiv prec emax (S754_finite false mx ex) (S754_finite false my ey))
  = Some 0 ->
  Zpos mx * 2 ^ (ex - ey - unit_exp) < Zpos my * 2 ^ (-1074 - unit_exp).
Proof.
  intros Hvx Hvy HS.
  destruct (valid_finite_bounds false mx ex Hvx) as (Hex & _).
  destruct (valid_finite_bounds false my ey Hvy) as (Hey & _).
  destruct (SFdiv_core mx my ex ey Hvx Hvy) as (e' & Hs & He' & Hrep & Hpre & Hdiv).
  rewrite Hdiv in HS. clear Hdiv.
  set (num := Zpos mx * 2 ^ (ex - ey - e')) in *.
  set (q := num / Zpos my) in *.
  destruct (binary_round_aux_spec false num (Zpos my) q e' _ Hrep He' Hpre)
    as (Hval & Hm53 & Hm52 & _ & Hup).
  rewrite Hval in HS. clear Hval.
  set (t := fexp64 (Zdigits2 q + e')) in *.
  set (m := rne (num / (Zpos my * 2 ^ (t - e')))
                (num mod (Zpos my * 2 ^ (t - e'))) (Zpos my * 2 ^ (t - e'))) in *.
  unfold cond_Zopp in HS.
  assert (HSe : Z.min (m * 2 ^ (t - unit_exp)) CAP = 0) by congruence.
  clear HS.
  assert (Ht : -1074 <= t) by apply fexp64_ge.
  assert (HG : 0 < 2 ^ (t - unit_exp)) by (apply pow2_pos; unfold unit_exp; lia).
  assert (HC := CAP_pos).
  assert (Hm0 : m = 0) by nia.
  assert (Ht' : t = -1074).
  { destruct (Z.eq_dec t (-1074)) as [|Hne]; [assumption|].
    assert (2 ^ 52 <= m) by (apply Hm52; lia).
    assert (0 < 2 ^ 52) by (apply pow2_pos; lia). lia. }
  rewrite Hm0, Ht' in Hup.
  assert (Hc : 0 < 2 ^ (e' - unit_exp)) by (apply pow2_pos; lia).
  assert (He'' : e' <= -1074) by lia.
  replace (Zpos mx * 2 ^ (ex - ey - unit_exp)) with (num * 2 ^ (e' - unit_exp)).
  - replace (2 ^ (-1074 - unit_exp)) with (2 ^ (-1074 - e') * 2 ^ (e' - unit_exp))
      by (rewrite <- pow2_add by lia; f_equal; lia).
    rewrite Z.mul_assoc. apply Z.mul_lt_mono_pos_r; [exact Hc|]. lia.
  - unfold num. rewrite <- Z.mul_assoc, <- pow2_add by lia. do 2 f_equal. lia.
Qed.

Lemma SFdiv_finite (x : spec_float) (sy : bool) (my : positive) (ey : Z) :
  SFis_finite (SFdiv prec emax x (S754_finite sy my ey)) = true ->
  SFis_finite x = true.
Proof. destruct x; try reflexivity; discriminate. Qed.

(** ** Comparison *)

Lemma canonical_lt (s1 s2 : bool) (m1 m2 : positive) (e1 e2 : Z) :
  valid_binary (S754_finite s1 m1 e1) = true ->
  valid_binary (S754_finite s2 m2 e2) = true ->
  e1 < e2 ->
  Zpos m1 * 2 ^ (e1 - unit_exp) < Zpos m2 * 2 ^ (e2 - unit_exp).
Proof.
  intros H1 H2 Hlt.
  destruct (valid_finite_bounds s1 m1 e1 H1) as (He1 & _ & Hm1 & _).
  destruct (valid_finite_bounds s2 m2 e2 H2) as (He2 & _ & _ & Hm2).
  specialize (Hm2 ltac:(lia)).
  assert (Hp1 : 0 < 2 ^ (e1 - unit_exp)) by (apply pow2_pos; unfold unit_exp; lia).
  assert (Hle : 2 ^ (e1 + 1 - unit_exp) <= 2 ^ (e2 - unit_exp))
    by (apply pow2_le; unfold unit_exp; lia).
  replace (e1 + 1 - unit_exp) with (1 + (e1 - unit_exp)) in Hle by lia.
  rewrite pow2_add in Hle by (unfold unit_exp; lia).
  change (2 ^ 1) with 2 in Hle.
  change (2 ^ 53) with (2 * 2 ^ 52) in Hm1.
  assert (0 < 2 ^ 52) by (apply pow2_pos; lia).
  nia.
Qed.

Lemma SFleb_values (x y : spec_float) (X Y : Z) :
  valid_binary x = true -> valid_binary y = true ->
  SFval x = Some X -> SFval y = Some Y ->
  SFleb x y = (X <=? Y).
Proof.
  intros Hvx Hvy HX HY. assert (HC := CAP_pos).
  destruct (SFval_valid x X Hvx HX) as (_ & HbX & HfX).
  destruct (SFval_valid y Y Hvy HY) as (_ & HbY & HfY).
  unfold SFleb.
  destruct x as [sx|sx| |sx mx ex]; [| |discriminate|];
    (destruct y as [sy|sy| |sy my ey]; [| |discriminate|]).
  - (* zero, zero *)
    assert (X = 0) by (unfold SFval in HX; congruence).
    assert (Y = 0) by (unfold SFval in HY; congruence). subst. reflexivity.
  - (* zero, infinity *)
    assert (X = 0) by (unfold SFval in HX; congruence).
    assert (Y = cond_Zopp sy CAP) by (unfold SFval in HY; congruence). subst.
    destruct sy; unfold cond_Zopp; cbn [SFcompare]; symmetry;
      [apply Z.leb_gt|apply Z.leb_le]; lia.
  - (* zero, finite *)
    assert (X = 0) by (unfold SFval in HX; congruence). subst X.
    destruct (valid_finite_value sy my ey Hvy) as [_ HV].
    apply SFval_finite_inv in HY. subst Y.
    destruct sy; unfold cond_Zopp; cbn [SFcompare]; symmetry;
      [apply Z.leb_gt|apply Z.leb_le]; lia.
  - (* infinity, zero *)
    assert (Y = 0) by (unfold SFval in HY; congruence).
    assert (X = cond_Zopp sx CAP) by (unfold SFval in HX; congruence). subst.
    destruct sx; unfold cond_Zopp; cbn [SFcompare]; symmetry;
      [apply Z.leb_le|apply Z.leb_gt]; lia.
  - (* infinity, infinity *)
    assert (X = cond_Zopp sx CAP) by (unfold SFval in HX; congruence).
    assert (Y = cond_Zopp sy CAP) by (unfold SFval in HY; congruence). subst.
    destruct sx, sy; unfold cond_Zopp; cbn [SFcompare]; symmetry;
      try (apply Z.leb_le; lia); apply Z.leb_gt; lia.
  - (* infinity, finite *)
    assert (X = cond_Zopp sx CAP) by (unfold SFval in HX; congruence). subst X.
    destruct (valid_finite_value sy my ey Hvy) as [_ HV].
    apply SFval_finite_inv in HY. subst Y.
    destruct sx, sy; unfold cond_Zopp; cbn [SFcompare]; symmetry;
      try (apply Z.leb_le; lia); apply Z.leb_gt; lia.
  - (* finite, zero *)
    assert (Y = 0) by (unfold SFval in HY; congruence). subst Y.
    destruct (valid_finite_value sx mx ex Hvx) as [_ HV].
    apply SFval_finite_inv in HX. subst X.
    destruct sx; unfold cond_Zopp; cbn [SFcompare]; symmetry;
      [apply Z.leb_le|apply Z.leb_gt]; lia.
  - (* finite, infinity *)
    assert (Y = cond_Zopp sy CAP) by (unfold SFval in HY; congruence). subst Y.
    destruct (valid_finite_value sx mx ex Hvx) as [_ HV].
    apply SFval_finite_inv in HX. subst X.
    destruct sx, sy; unfold cond_Zopp; cbn [SFcompare]; symmetry;
      try (apply Z.leb_le; lia); apply Z.leb_gt; lia.
  - (* finite, finite *)
    destruct (valid_finite_value sx mx ex Hvx) as [_ HVx].
    destruct (valid_finite_value sy my ey Hvy) as [_ HVy].
    apply SFval_finite_inv in HX, HY. subst X Y.
    assert (Hlt := canonical_lt sx sy mx my ex ey Hvx Hvy).
    assert (Hgt := canonical_lt sy sx my mx ey ex Hvy Hvx).
    assert (Hp : 0 < 2 ^ (ex - unit_exp)).
    { destruct (valid_finite_bounds sx mx ex Hvx) as (He & _).
      apply pow2_pos. unfold unit_exp. lia. }
    cbn [SFcompare].
    change (Pos.compare_cont Eq mx my) with (Pos.compare mx my).
    destruct sx, sy; unfold cond_Zopp; symmetry.
    + destruct (Z.compare_spec ex ey) as [He|He|He].
      * subst ey.
        destruct (Pos.compare_spec mx my); cbn [CompOpp];
          try (apply Z.leb_le; nia); apply Z.leb_gt; nia.
      * apply Z.leb_gt. specialize (Hlt He). lia.
      * apply Z.leb_le. specialize (Hgt He). lia.
    + apply Z.leb_le. lia.
    + apply Z.leb_gt. lia.
    + destruct (Z.compare_spec ex ey) as [He|He|He].
      * subst ey.
        destruct (Pos.compare_spec mx my);
          try (apply Z.leb_le; nia); apply Z.leb_gt; nia.
      * apply Z.leb_le. specialize (Hlt He). lia.
      * apply Z.leb_gt. specialize (Hgt He). lia.
Qed.

End Binary64Operations.

(* ================================================================= *)
(** ** The order of the support grid *)

Module GridOrder.

Import Binary64 Binary64Facts Binary64Rounding Binary64Round Binary64Exact
       Binary64Operations.
Local Open Scope Z_scope.

Lemma is_finite_SF (x : float) :
  PrimFloat.is_finite x = true -> SFis_finite (Prim2SF x) = true.
Proof.
  intros H. destruct (finite_cases x H) as [[s ->]|(s & m & e & ->)]; reflexivity.
Qed.

Lemma SFis_finite_val (x : spec_float) :
  SFis_finite x = true -> exists X, SFval x = Some X.
Proof. destruct x; try discriminate; intros _; eexists; reflexivity. Qed.

Lemma SFval_abs (x : spec_float) (X : Z) :
  SFval x = Some X -> SFval (SFabs x) = Some (Z.abs X).
Proof.
  assert (Hp : forall k, 0 <= 2 ^ k) by (intros k; apply Z.pow_nonneg; lia).
  assert (HC := CAP_pos).
  destruct x as [s|s| |s m e]; [| |discriminate|].
  - intros H. assert (X = 0) by (unfold SFval in H; congruence). subst. reflexivity.
  - intros H. assert (X = cond_Zopp s CAP) by (unfold SFval in H; congruence).
    subst. unfold SFabs, SFval. f_equal. destruct s; unfold cond_Zopp; lia.
  - intros H. apply SFval_finite_inv in H. subst X.
    unfold SFabs. rewrite SFval_finite. f_equal.
    specialize (Hp (e - unit_exp)).
    destruct s; unfold cond_Zopp; nia.
Qed.

Lemma valid_abs (x : spec_float) : valid_binary (SFabs x) = valid_binary x.
Proof. now destruct x. Qed.

(** The values of finite numbers are multiples of the least denormal. *)
Lemma valid_value_grid (x : spec_float) (X : Z) :
  valid_binary x = true -> SFis_finite x = true -> SFval x = Some X ->
  exists k, X = k * 2 ^ (-1074 - unit_exp).
Proof.
  intros Hv Hf HX.
  destruct (SFis_finite_cases x Hf) as [[s ->]|(s & m & e & ->)].
  - exists 0. rewrite Z.mul_0_l. unfold SFval in HX. congruence.
  - apply SFval_finite_inv in HX. subst X.
    destruct (valid_finite_bounds s m e Hv) as (He & _).
    exists (cond_Zopp s (Zpos m * 2 ^ (e + 1074))).
    rewrite cond_Zopp_mul, <- Z.mul_assoc, <- pow2_add by (unfold unit_exp; lia).
    do 3 f_equal. lia.
Qed.

(** Below the normal range nothing is rounded. *)
Lemma rvalZ_subnormal (k : Z) :
  0 < k -> k * 2 ^ (-1074 - unit_exp) < 2 ^ (-1022 - unit_exp) ->
  rvalZ (k * 2 ^ (-1074 - unit_exp)) = k * 2 ^ (-1074 - unit_exp).
Proof.
  intros Hk Hlt.
  assert (Hg : 0 < 2 ^ (-1074 - unit_exp)) by (apply pow2_pos; unfold unit_exp; lia).
  set (V := k * 2 ^ (-1074 - unit_exp)) in *.
  assert (HV : 0 < V) by (unfold V; nia).
  assert (Hlog : Z.log2 V < -1022 - unit_exp)
    by (apply Z.log2_lt_pow2; [exact HV|exact Hlt]).
  assert (Hmag : fexp64 (magnitude V) = -1074).
  { unfold magnitude, fexp64. lia. }
  unfold rvalZ. rewrite Hmag. unfold V.
  apply round_at_multiple. unfold unit_exp. lia.
Qed.

(** The difference of two finite numbers is above the exact difference
    by at most one part in [2^52]. *)
Lemma RV_difference (k : Z) :
  0 <= k ->
  (2 ^ 52 - 1) * RV (k * 2 ^ (-1074 - unit_exp)) <= 2 ^ 52 * (k * 2 ^ (-1074 - unit_exp)).
Proof.
  intros Hk.
  assert (Hg : 0 < 2 ^ (-1074 - unit_exp)) by (apply pow2_pos; unfold unit_exp; lia).
  destruct (Z.eq_dec k 0) as [->|Hne]; [simpl; lia|].
  set (V := k * 2 ^ (-1074 - unit_exp)).
  assert (HV : 0 < V) by (unfold V; nia).
  rewrite RV_pos by exact HV.
  assert (Hr : (2 ^ 52 - 1) * rvalZ V <= 2 ^ 52 * V).
  { destruct (Z.le_gt_cases (2 ^ (-1022 - unit_exp)) V) as [Hle|Hgt].
    - now apply rvalZ_relative.
    - unfold V. rewrite rvalZ_subnormal by (fold V; lia). fold V.
      change (2 ^ 52) with 4503599627370496. lia. }
  change (2 ^ 52) with 4503599627370496 in *. lia.
Qed.

(** ** The integers of the grid, as floats *)

Lemma float_of_nat_table : forallb exact_integer (seq 1 499) = true.
Proof. vm_compute. reflexivity. Qed.

Lemma float_of_nat_exact (i : nat) :
  (1 <= i <= 499)%nat ->
  exists m e,
    Prim2SF (float_of_nat i) = S754_finite false m e
    /\ e <= 0 /\ Zpos m = Z.of_nat i * 2 ^ (- e).
Proof.
  intros Hi.
  assert (Hin : In i (seq 1 499)) by (apply in_seq; lia).
  assert (H := proj1 (forallb_forall _ _) float_of_nat_table i Hin).
  unfold exact_integer in H.
  destruct (Prim2SF (float_of_nat i)) as [| | |[] m e]; try discriminate.
  apply andb_prop in H as [H1 H2].
  apply Z.leb_le in H1. apply Z.eqb_eq in H2.
  now exists m, e.
Qed.

Lemma float_of_nat_0 : Prim2SF (float_of_nat 0) = S754_zero false.
Proof. vm_compute. reflexivity. Qed.

(** The product of an integer of the grid by a positive step. *)
Lemma mul_index (i : nat) (step : float) (ms : positive) (es : Z) :
  (i <= 499)%nat ->
  Prim2SF step = S754_finite false ms es ->
  Fval (float_of_nat i * step)
  = Some (RV (Z.of_nat i * (Zpos ms * 2 ^ (es - unit_exp)))).
Proof.
  intros Hi Hstep. unfold Fval. rewrite mul_spec, Hstep.
  assert (Hvs : valid_binary (S754_finite false ms es) = true)
    by (rewrite <- Hstep; apply Prim2SF_valid).
  destruct (valid_finite_bounds false ms es Hvs) as (Hes & _).
  destruct i as [|i].
  - rewrite float_of_nat_0. reflexivity.
  - destruct (float_of_nat_exact (S i) ltac:(lia)) as (m & e & Hfi & He & Hm).
    assert (Hvi : valid_binary (S754_finite false m e) = true)
      by (rewrite <- Hfi; apply Prim2SF_valid).
    destruct (valid_finite_bounds false m e Hvi) as (Hei & _).
    rewrite Hfi. unfold SF64mul. rewrite SFmul_spec by assumption.
    cbn [xorb]. unfold cond_Zopp.
    assert (Heq : Zpos m * Zpos ms * 2 ^ (e + es - unit_exp)
                  = Z.of_nat (S i) * (Zpos ms * 2 ^ (es - unit_exp))).
    { rewrite Hm.
      replace (es - unit_exp) with (- e + (e + es - unit_exp)) by lia.
      rewrite (pow2_add (- e)) by (unfold unit_exp; lia). ring. }
    rewrite Heq.
    assert (0 < 2 ^ (es - unit_exp)) by (apply pow2_pos; unfold unit_exp; lia).
    rewrite RV_pos by nia. reflexivity.
Qed.

Lemma float_of_nat_499 :
  Prim2SF (float_of_nat 499)
  = S754_finite false 8778500836163584 (-44).
Proof. vm_compute. reflexivity. Qed.

Lemma least_normal :
  Prim2SF 0x1p-1022 = S754_finite false 4503599627370496 (-1074).
Proof. vm_compute. reflexivity. Qed.

Lemma least_normal_value : Fval 0x1p-1022 = Some (2 ^ (-1022 - unit_exp)).
Proof.
  unfold Fval. rewrite least_normal, SFval_finite. unfold cond_Zopp.
  change 4503599627370496 with (2 ^ 52).
  rewrite <- pow2_add by (unfold unit_exp; lia). reflexivity.
Qed.

(** ** Nondecreasing lists *)

Lemma nondecreasing_nth (xs : list float) :
  (forall i, (i + 1 < length xs)%nat ->
             (nth i xs 0 <=? nth (i + 1) xs 0)%float = true) ->
  nondecreasing xs = true.
Proof.
  unfold nondecreasing.
  induction xs as [|x xs IH]; intros H; [reflexivity|].
  destruct xs as [|y ys]; [reflexivity|].
  cbn [tl combine forallb fst snd]. apply andb_true_intro. split.
  - apply (H 0%nat). simpl. lia.
  - apply IH. intros i Hi.
    apply (H (S i)). simpl in *. lia.
Qed.

(** ** The bounds, their difference and the step *)

Lemma least_normal_lt_CAP : 2 ^ (-1022 - unit_exp) < CAP.
Proof. unfold CAP. apply pow2_lt. unfold unit_exp. lia. Qed.

Lemma RV_least_normal : RV (2 ^ (-1022 - unit_exp)) = 2 ^ (-1022 - unit_exp).
Proof.
  assert (Hp : 0 < 2 ^ (-1022 - unit_exp)) by (apply pow2_pos; unfold unit_exp; lia).
  assert (Hlt := least_normal_lt_CAP).
  rewrite RV_pos by exact Hp.
  replace (rvalZ (2 ^ (-1022 - unit_exp))) with (2 ^ (-1022 - unit_exp)); [lia|].
  symmetry.
  replace (2 ^ (-1022 - unit_exp)) with (2 ^ 52 * 2 ^ (-1074 - unit_exp))
    by (rewrite <- pow2_add by (unfold unit_exp; lia); reflexivity).
  apply rvalZ_canonical; [lia|reflexivity].
Qed.

(** A difference that rounds below the normal range is exact. *)
Lemma RV_subnormal (k : Z) :
  0 <= k ->
  RV (k * 2 ^ (-1074 - unit_exp)) < 2 ^ (-1022 - unit_exp) ->
  RV (k * 2 ^ (-1074 - unit_exp)) = k * 2 ^ (-1074 - unit_exp).
Proof.
  intros Hk Hlt.
  assert (Hg : 0 < 2 ^ (-1074 - unit_exp)) by (apply pow2_pos; unfold unit_exp; lia).
  assert (Hcap := least_normal_lt_CAP).
  destruct (Z.eq_dec k 0) as [->|Hne]; [reflexivity|].
  set (V := k * 2 ^ (-1074 - unit_exp)) in *.
  assert (HV : 0 < V) by (unfold V; nia).
  assert (HVlt : V < 2 ^ (-1022 - unit_exp)).
  { destruct (Z.lt_ge_cases V (2 ^ (-1022 - unit_exp))) as [|Hge]; [assumption|].
    apply RV_mono in Hge. rewrite RV_least_normal in Hge. lia. }
  rewrite RV_pos by exact HV.
  unfold V. rewrite rvalZ_subnormal by (fold V; lia). fold V. lia.
Qed.

(** Ordered bounds with a finite step are finite, and so is their
    difference, which is above the exact difference by at most one part
    in [2^52], and equal to it below the normal range. *)
Lemma grid_bounds (lo hi : float) :
  (lo <=? hi)%float = true ->
  PrimFloat.is_finite ((hi - lo) / float_of_nat 499) = true ->
  exists L H,
    Fval lo = Some L /\ Fval hi = Some H /\ L <= H
    /\ SFis_finite (Prim2SF lo) = true
    /\ SFis_finite (Prim2SF (hi - lo)) = true
    /\ RV H = H
    /\ Fval (hi - lo) = Some (RV (H - L))
    /\ 0 <= RV (H - L) < CAP
    /\ RV (RV (H - L)) = RV (H - L)
    /\ (2 ^ 52 - 1) * RV (H - L) <= 2 ^ 52 * (H - L)
    /\ (RV (H - L) < 2 ^ (-1022 - unit_exp) -> RV (H - L) = H - L).
Proof.
  intros Hb Hfin.
  set (delta := (hi - lo)%float) in *.
  set (step := (delta / float_of_nat 499)%float) in *.
  assert (Hstep : Prim2SF step
                  = SFdiv prec emax (Prim2SF delta)
                      (S754_finite false 8778500836163584 (-44))).
  { unfold step. now rewrite div_spec, float_of_nat_499. }
  assert (Hdelta : Prim2SF delta = SFsub prec emax (Prim2SF hi) (Prim2SF lo)).
  { unfold delta. now rewrite sub_spec. }
  assert (Hfs := is_finite_SF step Hfin).
  assert (Hfd : SFis_finite (Prim2SF delta) = true).
  { rewrite Hstep in Hfs. now apply SFdiv_finite in Hfs. }
  assert (Hfhl := Hfd). rewrite Hdelta in Hfhl.
  apply SFsub_finite in Hfhl as [Hfh Hfl].
  destruct (SFis_finite_val _ Hfh) as [H HH].
  destruct (SFis_finite_val _ Hfl) as [L HL].
  assert (HLH : L <= H).
  { rewrite leb_spec in Hb.
    rewrite (SFleb_values _ _ L H (Prim2SF_valid lo) (Prim2SF_valid hi) HL HH) in Hb.
    now apply Z.leb_le. }
  assert (HD : SFval (Prim2SF delta) = Some (RV (H - L))).
  { rewrite Hdelta.
    apply SFsub_spec; try assumption; apply Prim2SF_valid. }
  assert (HD0 : 0 <= RV (H - L)) by (apply RV_nonneg; lia).
  destruct (SFval_valid _ _ (Prim2SF_valid delta) HD) as (HrD & HbD & HfD).
  assert (HDcap : RV (H - L) < CAP) by (apply HfD in Hfd; lia).
  destruct (SFval_valid _ H (Prim2SF_valid hi) HH) as (HrH & _).
  exists L, H.
  repeat (split; [assumption|]).
  split; [lia|]. split; [exact HrD|].
  destruct (valid_value_grid _ H (Prim2SF_valid hi) Hfh HH) as [kh ->].
  destruct (valid_value_grid _ L (Prim2SF_valid lo) Hfl HL) as [kl ->].
  assert (Hg : 0 < 2 ^ (-1074 - unit_exp))
    by (apply pow2_pos; unfold unit_exp; lia).
  rewrite <- Z.mul_sub_distr_r.
  split; [apply RV_difference; nia|apply RV_subnormal; nia].
Qed.

(** What ordered bounds and a normal step give, in exact values: the
    step is positive and in the normal range, and it is above the exact
    quotient by at most one part in [2^52]. *)
Lemma grid_values (lo hi : float) :
  (lo <=? hi)%float = true ->
  normal ((hi - lo) / float_of_nat 499) = true ->
  exists L H D ms es,
    Fval lo = Some L /\ Fval hi = Some H /\ L <= H
    /\ SFis_finite (Prim2SF lo) = true
    /\ RV H = H
    /\ Prim2SF ((hi - lo) / float_of_nat 499) = S754_finite false ms es
    /\ 2 ^ (-1022 - unit_exp) <= Zpos ms * 2 ^ (es - unit_exp)
    /\ (2 ^ 52 - 1) * (499 * (Zpos ms * 2 ^ (es - unit_exp))) <= 2 ^ 52 * D
    /\ (2 ^ 52 - 1) * D <= 2 ^ 52 * (H - L)
    /\ RV D = D /\ D < CAP.
Proof.
  intros Hb Hn. unfold normal in Hn. apply andb_prop in Hn as [Hfin Hleb].
  destruct (grid_bounds lo hi Hb Hfin)
    as (L & H & HL & HH & HLH & Hfl & Hfd & HrH & HD & HDb & HrD & Hdiff & _).
  set (delta := (hi - lo)%float) in *.
  set (step := (delta / float_of_nat 499)%float) in *.
  set (D := RV (H - L)) in *. unfold Fval in HD.
  assert (Hstep : Prim2SF step
                  = SFdiv prec emax (Prim2SF delta)
                      (S754_finite false 8778500836163584 (-44))).
  { unfold step. now rewrite div_spec, float_of_nat_499. }
  assert (Hfs := is_finite_SF step Hfin).
  assert (Hvs := Prim2SF_valid step).
  destruct (SFis_finite_val _ Hfs) as [S HS].
  assert (HSn : 2 ^ (-1022 - unit_exp) <= Z.abs S).
  { rewrite leb_spec, abs_spec in Hleb.
    rewrite (SFleb_values _ _ _ (Z.abs S) (Prim2SF_valid _)
               (eq_trans (valid_abs _) Hvs) least_normal_value
               (SFval_abs _ _ HS)) in Hleb.
    now apply Z.leb_le. }
  assert (Hpos : 0 < 2 ^ (-1022 - unit_exp))
    by (apply pow2_pos; unfold unit_exp; lia).
  destruct (SFis_finite_cases _ Hfd) as [[sd Hd]|(sd & md & ed & Hd)].
  { (* a zero difference gives a zero step *)
    exfalso. rewrite Hstep, Hd in HS.
    assert (S = 0) by (unfold SFdiv, SFval in HS; congruence). lia. }
  assert (Hvd : valid_binary (S754_finite sd md ed) = true)
    by (rewrite <- Hd; apply Prim2SF_valid).
  destruct (valid_finite_bounds sd md ed Hvd) as (Hed & _).
  assert (Hpd : 0 < 2 ^ (ed - unit_exp)) by (apply pow2_pos; unfold unit_exp; lia).
  assert (HDe : D = cond_Zopp sd (Zpos md * 2 ^ (ed - unit_exp))).
  { rewrite Hd in HD. now apply SFval_finite_inv in HD. }
  destruct sd; [unfold cond_Zopp in HDe; nia|]. unfold cond_Zopp in HDe.
  assert (Hv499 : valid_binary (S754_finite false 8778500836163584 (-44)) = true)
    by reflexivity.
  assert (HS' := HS). rewrite Hstep, Hd in HS'.
  destruct (SFdiv_bound md 8778500836163584 ed (-44) S Hvd Hv499 HS' HSn)
    as [HS0 Hquot].
  destruct (SFis_finite_cases _ Hfs) as [[ss Hs]|(ss & ms & es & Hs)].
  { exfalso. rewrite Hs in HS.
    assert (S = 0) by (unfold SFval in HS; congruence). lia. }
  assert (Hvss : valid_binary (S754_finite ss ms es) = true)
    by (rewrite <- Hs; exact Hvs).
  destruct (valid_finite_bounds ss ms es Hvss) as (Hes & _).
  assert (Hps : 0 < 2 ^ (es - unit_exp)) by (apply pow2_pos; unfold unit_exp; lia).
  assert (HSe : S = cond_Zopp ss (Zpos ms * 2 ^ (es - unit_exp))).
  { rewrite Hs in HS. now apply SFval_finite_inv in HS. }
  destruct ss; [unfold cond_Zopp in HSe; nia|]. unfold cond_Zopp in HSe.
  exists L, H, D, ms, es.
  rewrite <- HSe. rewrite Z.abs_eq in HSn by exact HS0.
  repeat (split; [assumption|]).
  split; [|split; [exact Hdiff|split; [exact HrD|lia]]].
  replace (ed - -44 - unit_exp) with (44 + (ed - unit_exp)) in Hquot by lia.
  rewrite pow2_add in Hquot by (unfold unit_exp; lia).
  replace (Zpos md * (2 ^ 44 * 2 ^ (ed - unit_exp))) with (2 ^ 44 * D) in Hquot
    by (rewrite HDe; ring).
  change (2 ^ 44) with 17592186044416 in Hquot.
  change (2 ^ 52) with 4503599627370496 in *.
  lia.
Qed.

(** The points of the grid before the last one, in exact values. *)
Lemma grid_point (lo : float) (step : float) (L D : Z) (ms : positive) (es : Z)
    (i : nat) :
  (i <= 498)%nat ->
  Fval lo = Some L -> SFis_finite (Prim2SF lo) = true ->
  Prim2SF step = S754_finite false ms es ->
  (2 ^ 52 - 1) * (499 * (Zpos ms * 2 ^ (es - unit_exp))) <= 2 ^ 52 * D ->
  RV D = D -> D < CAP ->
  Fval (float_of_nat i * step + lo)
  = Some (RV (RV (Z.of_nat i * (Zpos ms * 2 ^ (es - unit_exp))) + L)).
Proof.
  intros Hi HL Hfl Hs Hquot HrD HDcap.
  assert (Hvs : valid_binary (S754_finite false ms es) = true)
    by (rewrite <- Hs; apply Prim2SF_valid).
  destruct (valid_finite_bounds false ms es Hvs) as (Hes & _).
  assert (Hps : 0 < 2 ^ (es - unit_exp)) by (apply pow2_pos; unfold unit_exp; lia).
  set (S := Zpos ms * 2 ^ (es - unit_exp)) in *.
  assert (HS0 : 0 < S) by (unfold S; nia).
  assert (HP := mul_index i step ms es ltac:(lia) Hs). fold S in HP.
  assert (HiS : Z.of_nat i * S <= D).
  { assert (Z.of_nat i * S <= 498 * S) by nia.
    change (2 ^ 52) with 4503599627370496 in Hquot. lia. }
  assert (HPD : RV (Z.of_nat i * S) <= D)
    by (rewrite <- HrD; now apply RV_mono).
  assert (HP0 : 0 <= RV (Z.of_nat i * S)) by (apply RV_nonneg; nia).
  assert (HC := CAP_pos).
  unfold Fval in *. rewrite add_spec.
  apply SFadd_spec; try assumption; try apply Prim2SF_valid.
  apply (proj2 (proj2 (SFval_valid _ _ (Prim2SF_valid _) HP))). lia.
Qed.

(** With ordered bounds and a normal step, the 500 points of the grid
    are in order: each product [i * step] is rounded monotonically, and
    the point before the last one, which carries three roundings of one
    part in [2^52] each, stays below the upper bound, that is the last
    point. *)
Theorem linspace_nondecreasing (lo hi : float) :
  (lo <=? hi)%float = true ->
  normal ((hi - lo) / float_of_nat 499) = true ->
  nondecreasing (np.linspace lo hi 500) = true.
Proof.
  intros Hb Hn.
  destruct (grid_values lo hi Hb Hn)
    as (L & H & D & ms & es & HL & HH & HLH & Hfl & HrH & Hs & HSn & Hquot
        & Hdiff & HrD & HDcap).
  set (step := ((hi - lo) / float_of_nat 499)%float) in *.
  set (S := Zpos ms * 2 ^ (es - unit_exp)) in *.
  assert (Hpos : 0 < 2 ^ (-1022 - unit_exp))
    by (apply pow2_pos; unfold unit_exp; lia).
  destruct (linspace_points lo hi 500 ltac:(lia)) as (Hlen & Hlast & Hpts).
  change (500 - 1)%nat with 499%nat in *. cbv zeta in Hpts. fold step in Hpts.
  assert (Hnz : (step =? 0)%float = false).
  { rewrite eqb_spec, Hs. reflexivity. }
  rewrite Hnz in Hpts.
  assert (Hval : forall j, (j <= 498)%nat ->
            Fval (nth j (np.linspace lo hi 500) 0%float)
            = Some (RV (RV (Z.of_nat j * S) + L))).
  { intros j Hj. rewrite Hpts by lia.
    now apply (grid_point lo step L D ms es j Hj). }
  apply nondecreasing_nth. intros i Hi. rewrite Hlen in Hi.
  rewrite leb_spec.
  destruct (Nat.eq_dec i 498) as [->|Hne].
  - (* the point before the last one *)
    change (498 + 1)%nat with 499%nat. rewrite Hlast.
    rewrite (SFleb_values _ _ _ H (Prim2SF_valid _) (Prim2SF_valid _)
               (Hval 498%nat ltac:(lia)) HH).
    apply Z.leb_le. rewrite <- HrH. apply RV_mono.
    change (Z.of_nat 498) with 498.
    assert (HS498 : 2 ^ (-1022 - unit_exp) <= 498 * S) by lia.
    assert (Hrel := rvalZ_relative (498 * S) HS498).
    rewrite RV_pos by lia.
    assert (Hmin : Z.min (rvalZ (498 * S)) CAP <= rvalZ (498 * S)) by lia.
    change (2 ^ 52) with 4503599627370496 in *. lia.
  - rewrite (SFleb_values _ _ _ _ (Prim2SF_valid _) (Prim2SF_valid _)
               (Hval i ltac:(lia)) (Hval (i + 1)%nat ltac:(lia))).
    apply Z.leb_le. apply RV_mono. apply Z.add_le_mono_r. apply RV_mono.
    apply Z.mul_le_mono_nonneg_r; lia.
Qed.

(** ** A step that is zero *)

Lemma fraction_table : forallb fractions_in_order (seq 0 498) = true.
Proof. vm_compute. reflexivity. Qed.

Lemma fraction_weight_bounds (i : nat) :
  (i <= 498)%nat -> 0 <= fraction_weight i <= 2 ^ 62.
Proof.
  intros Hi.
  assert (Hpair : forall j, (j <= 497)%nat ->
            0 <= fraction_weight j <= fraction_weight (j + 1)
            /\ fraction_weight (j + 1) <= 2 ^ 62).
  { intros j Hj.
    assert (Hin : In j (seq 0 498)) by (apply in_seq; lia).
    assert (H := proj1 (forallb_forall _ _) fraction_table j Hin).
    unfold fractions_in_order in H.
    apply andb_prop in H as [H H3]. apply andb_prop in H as [H1 H2].
    apply Z.leb_le in H1, H2, H3. lia. }
  destruct (Nat.eq_dec i 498) as [->|Hne].
  - destruct (Hpair 497%nat ltac:(lia)) as [H1 H2].
    change (497 + 1)%nat with 498%nat in *. lia.
  - destruct (Hpair i ltac:(lia)) as [H1 H2]. lia.
Qed.

Lemma fraction_weight_mono (i : nat) :
  (i <= 497)%nat -> fraction_weight i <= fraction_weight (i + 1).
Proof.
  intros Hi.
  assert (Hin : In i (seq 0 498)) by (apply in_seq; lia).
  assert (H := proj1 (forallb_forall _ _) fraction_table i Hin).
  unfold fractions_in_order in H.
  apply andb_prop in H as [H H3]. apply andb_prop in H as [H1 H2].
  now apply Z.leb_le in H2.
Qed.

(** The product of a fraction of the grid by a positive difference. *)
Lemma fraction_product (i : nat) (delta : float) (md : positive) (ed : Z) :
  (i <= 498)%nat ->
  Prim2SF delta = S754_finite false md ed ->
  Fval (float_of_nat i / float_of_nat 499 * delta)
  = Some (RV (fraction_weight i * (Zpos md * 2 ^ (ed - 62 - unit_exp)))).
Proof.
  intros Hi Hd.
  assert (Hw := fraction_weight_bounds i Hi).
  assert (Hvd : valid_binary (S754_finite false md ed) = true)
    by (rewrite <- Hd; apply Prim2SF_valid).
  destruct (valid_finite_bounds false md ed Hvd) as (Hed & _).
  assert (Hvq := Prim2SF_valid (float_of_nat i / float_of_nat 499)).
  unfold Fval. rewrite mul_spec, Hd.
  unfold fraction_weight in *.
  destruct (Prim2SF (float_of_nat i / float_of_nat 499)) as [s|s| |[] m e];
    try lia.
  - reflexivity.
  - destruct (Z.leb_spec (-62) e) as [He|He]; [|lia].
    unfold SF64mul. rewrite SFmul_spec by assumption.
    cbn [xorb]. unfold cond_Zopp.
    assert (Heq : Zpos m * Zpos md * 2 ^ (e + ed - unit_exp)
                  = Zpos m * 2 ^ (e + 62) * (Zpos md * 2 ^ (ed - 62 - unit_exp))).
    { replace (e + ed - unit_exp) with ((e + 62) + (ed - 62 - unit_exp)) by lia.
      rewrite pow2_add by (unfold unit_exp; lia). ring. }
    rewrite Heq.
    assert (0 < 2 ^ (e + 62)) by (apply pow2_pos; lia).
    assert (0 < 2 ^ (ed - 62 - unit_exp)) by (apply pow2_pos; unfold unit_exp; lia).
    rewrite RV_pos by nia. reflexivity.
Qed.

(** The product of a fraction of the grid by a zero difference. *)
Lemma fraction_product_zero (i : nat) (delta : float) (sd : bool) :
  (i <= 498)%nat ->
  Prim2SF delta = S754_zero sd ->
  Fval (float_of_nat i / float_of_nat 499 * delta) = Some 0.
Proof.
  intros Hi Hd.
  assert (Hw := fraction_weight_bounds i Hi).
  unfold Fval. rewrite mul_spec, Hd.
  unfold fraction_weight in *.
  destruct (Prim2SF (float_of_nat i / float_of_nat 499)) as [s|s| |[] m e];
    try lia; reflexivity.
Qed.

Lemma SFeqb_zero (x : spec_float) :
  SFeqb x (S754_zero false) = true -> exists s, x = S754_zero s.
Proof.
  destruct x as [s|[]| |[] m e]; try discriminate. intros _. now exists s.
Qed.

(** With ordered bounds and a finite step that is zero, the difference
    of the bounds is exact, and the points [i / 499 * difference + lo]
    are in order, the last one below the upper bound. *)
Theorem linspace_nondecreasing_zero_step (lo hi : float) :
  (lo <=? hi)%float = true ->
  ((hi - lo) / float_of_nat 499 =? 0)%float = true ->
  nondecreasing (np.linspace lo hi 500) = true.
Proof.
  intros Hb Hz.
  assert (Hzero : exists s, Prim2SF ((hi - lo) / float_of_nat 499) = S754_zero s).
  { rewrite eqb_spec in Hz. now apply SFeqb_zero. }
  destruct Hzero as [sz Hsz].
  assert (Hfin : PrimFloat.is_finite ((hi - lo) / float_of_nat 499) = true).
  { unfold PrimFloat.is_finite, PrimFloat.is_nan, PrimFloat.is_infinity.
    rewrite !eqb_spec, abs_spec, Hsz. reflexivity. }
  destruct (grid_bounds lo hi Hb Hfin)
    as (L & H & HL & HH & HLH & Hfl & Hfd & HrH & HD & HDb & HrD & _ & Hexact).
  set (delta := (hi - lo)%float) in *.
  set (step := (delta / float_of_nat 499)%float) in *.
  set (D := RV (H - L)) in *. unfold Fval in HD.
  assert (Hg : 0 < 2 ^ (-1074 - unit_exp)) by (apply pow2_pos; unfold unit_exp; lia).
  assert (Hstep : Prim2SF step
                  = SFdiv prec emax (Prim2SF delta)
                      (S754_finite false 8778500836163584 (-44))).
  { unfold step. now rewrite div_spec, float_of_nat_499. }
  (* the products, in units of [2^-62] of the difference *)
  assert (Hprod : exists DU,
            0 <= DU /\ D = 2 ^ 62 * DU /\ D < 2 ^ (-1022 - unit_exp)
            /\ forall i, (i <= 498)%nat ->
                 Fval (float_of_nat i / float_of_nat 499 * delta)
                 = Some (RV (fraction_weight i * DU))).
  { destruct (SFis_finite_cases _ Hfd) as [[sd Hd]|(sd & md & ed & Hd)].
    - exists 0.
      assert (HD0 : D = 0) by (rewrite Hd in HD; unfold SFval in HD; congruence).
      split; [lia|]. split; [lia|].
      split; [rewrite HD0; apply pow2_pos; unfold unit_exp; lia|].
      intros i Hi. rewrite Z.mul_0_r. now apply (fraction_product_zero i delta sd).
    - assert (Hvd : valid_binary (S754_finite sd md ed) = true)
        by (rewrite <- Hd; apply Prim2SF_valid).
      destruct (valid_finite_bounds sd md ed Hvd) as (Hed & _).
      assert (Hpd : 0 < 2 ^ (ed - unit_exp))
        by (apply pow2_pos; unfold unit_exp; lia).
      assert (HDe : D = cond_Zopp sd (Zpos md * 2 ^ (ed - unit_exp))).
      { rewrite Hd in HD. now apply SFval_finite_inv in HD. }
      destruct sd; [unfold cond_Zopp in HDe; nia|]. unfold cond_Zopp in HDe.
      exists (Zpos md * 2 ^ (ed - 62 - unit_exp)).
      assert (Hpu : 0 < 2 ^ (ed - 62 - unit_exp))
        by (apply pow2_pos; unfold unit_exp; lia).
      split; [nia|]. split.
      { rewrite HDe. replace (ed - unit_exp) with (62 + (ed - 62 - unit_exp)) by lia.
        rewrite pow2_add by (unfold unit_exp; lia). ring. }
      split.
      { assert (Hv499 : valid_binary (S754_finite false 8778500836163584 (-44)) = true)
          by reflexivity.
        assert (HS : SFval (SFdiv prec emax (S754_finite false md ed)
                              (S754_finite false 8778500836163584 (-44))) = Some 0).
        { rewrite <- Hd, <- Hstep, Hsz. reflexivity. }
        assert (Hlt := SFdiv_zero md 8778500836163584 ed (-44) Hvd Hv499 HS).
        replace (ed - -44 - unit_exp) with (44 + (ed - unit_exp)) in Hlt by lia.
        rewrite pow2_add in Hlt by (unfold unit_exp; lia).
        replace (Zpos md * (2 ^ 44 * 2 ^ (ed - unit_exp))) with (2 ^ 44 * D) in Hlt
          by (rewrite HDe; ring).
        replace (2 ^ (-1022 - unit_exp)) with (2 ^ 52 * 2 ^ (-1074 - unit_exp))
          by (rewrite <- pow2_add by (unfold unit_exp; lia); reflexivity).
        change (2 ^ 44) with 17592186044416 in Hlt.
        change (2 ^ 52) with 4503599627370496. lia. }
      intros i Hi. now apply fraction_product. }
  destruct Hprod as (DU & HDU & HDe & Hsub & Hprod).
  assert (HDV : D = H - L) by (apply Hexact; exact Hsub).
  (* the points *)
  destruct (linspace_points lo hi 500 ltac:(lia)) as (Hlen & Hlast & Hpts).
  change (500 - 1)%nat with 499%nat in *. cbv zeta in Hpts.
  fold delta in Hpts. fold step in Hpts. rewrite Hz in Hpts.
  assert (HC := CAP_pos).
  assert (Hle : forall j, (j <= 498)%nat -> RV (fraction_weight j * DU) <= D).
  { intros j Hj. assert (Hw := fraction_weight_bounds j Hj).
    rewrite <- HrD. apply RV_mono. rewrite HDe. nia. }
  assert (Hval : forall j, (j <= 498)%nat ->
            Fval (nth j (np.linspace lo hi 500) 0%float)
            = Some (RV (RV (fraction_weight j * DU) + L))).
  { intros j Hj. rewrite Hpts by lia.
    assert (HP := Hprod j Hj). assert (Hw := fraction_weight_bounds j Hj).
    assert (HP0 : 0 <= RV (fraction_weight j * DU)) by (apply RV_nonneg; nia).
    assert (HPD := Hle j Hj).
    unfold Fval in *. rewrite add_spec.
    apply SFadd_spec; try assumption; try apply Prim2SF_valid.
    apply (proj2 (proj2 (SFval_valid _ _ (Prim2SF_valid _) HP))). lia. }
  apply nondecreasing_nth. intros i Hi. rewrite Hlen in Hi.
  rewrite leb_spec.
  destruct (Nat.eq_dec i 498) as [->|Hne].
  - change (498 + 1)%nat with 499%nat. rewrite Hlast.
    rewrite (SFleb_values _ _ _ H (Prim2SF_valid _) (Prim2SF_valid _)
               (Hval 498%nat ltac:(lia)) HH).
    apply Z.leb_le. rewrite <- HrH. apply RV_mono.
    assert (HPD := Hle 498%nat ltac:(lia)). lia.
  - rewrite (SFleb_values _ _ _ _ (Prim2SF_valid _) (Prim2SF_valid _)
               (Hval i ltac:(lia)) (Hval (i + 1)%nat ltac:(lia))).
    apply Z.leb_le. apply RV_mono. apply Z.add_le_mono_r. apply RV_mono.
    apply Z.mul_le_mono_nonneg_r; [exact HDU|].
    apply fraction_weight_mono. lia.
Qed.

(** The grid is in order whenever the bounds are and the step is zero
    or normal. *)
Theorem linspace_in_order (lo hi : float) :
  (lo <=? hi)%float = true ->
  zero_or_normal ((hi - lo) / float_of_nat 499) = true ->
  nondecreasing (np.linspace lo hi 500) = true.
Proof.
  intros Hb Hs. unfold zero_or_normal in Hs.
  apply orb_prop in Hs as [Hz|Hn].
  - now apply linspace_nondecreasing_zero_step.
  - now apply linspace_nondecreasing.
Qed.

End GridOrder.

(* ================================================================= *)
(** ** The density estimate *)

Section DensityClaims.

Context {num : numerics} {neighbors : sklearn_neighbors}.

Lemma format_proba_density_nonempty (data : list float)
    (sw : option (list float)) (lo hi : float) :
  data <> [] ->
  format_proba_density data sw lo hi
  = (kde <- call (call_KernelDensity_fit (selected_bandwidth data) data
                                         (fitted_weights data sw))
                 (KernelDensity_fit (selected_bandwidth data) data
                                    (fitted_weights data sw)) ;;
     log_density <- call (call_score_samples (np.linspace lo hi 500))
                         (score_samples kde (np.linspace lo hi 500)) ;;
     ret (combine (np.linspace lo hi 500)
            (map (fun v => if negb (np.isnan v) then PyFloat v else PyInt 0)
                 (map np_exp log_density))))%py.
Proof. destruct data; [contradiction|reflexivity]. Qed.

(** C5: the kernel is fitted at most once; never on empty data, and on
    any other data with the bandwidth [1.06 * stddev(data) * n^(-0.2)],
    replaced by 0.06 exactly when that product is [<= 0], on the data as
    given, and with no weights exactly when the data holds a single
    unique value, the caller's weights otherwise. *)
Theorem format_proba_density_kernel_fit (data : list float)
    (sw : option (list float)) (lo hi : float) :
  let h := (1.06 * np_std data
            * math_pow (float_of_nat (length data)) (-0.2))%float in
  kernel_fits (trace (format_proba_density data sw lo hi))
  = match data with
    | [] => []
    | _ :: _ => [(selected_bandwidth data, data, fitted_weights data sw)]
    end
  /\ ((h <=? 0)%float = true -> selected_bandwidth data = 0.06%float)
  /\ ((h <=? 0)%float = false -> selected_bandwidth data = h)
  /\ (length (np_unique data) = 1%nat -> fitted_weights data sw = None)
  /\ (length (np_unique data) <> 1%nat -> fitted_weights data sw = sw).
Proof.
  intros h. split; [|repeat split].
  - destruct data as [|x data]; [reflexivity|].
    rewrite format_proba_density_nonempty by discriminate.
    destruct (KernelDensity_fit _ _ _) as [kde|e]; [|reflexivity].
    cbn [call bind].
    destruct (score_samples kde _) as [ld|e]; reflexivity.
  - unfold selected_bandwidth, rule_of_thumb. fold h. now intros ->.
  - unfold selected_bandwidth, rule_of_thumb. fold h. now intros ->.
  - unfold fitted_weights, single_valued. now intros ->.
  - unfold fitted_weights, single_valued. intros Hne.
    now destruct (Nat.eqb_spec (length (np_unique data)) 1).
Qed.

(** C6 (amended): empty data gives the empty list, with no error and no
    call, whatever the bounds.  For other data, when the kernel fit and
    its evaluation on the grid succeed with one log-density per grid
    point, the result holds exactly 500 pairs, whose x-coordinates are the
    500 points of numpy's [linspace] from [min_support] to [max_support]:
    [x_i] is the float [i * step + min_support] for [i < 499], with
    [step = (max_support - min_support) / 499] (applied as
    [i / 499 * (max_support - min_support)] when that step is zero),
    [x_499] is [max_support] itself, and [x_0] equals [min_support] when
    [min_support] and the step are finite (as floats: up to the sign of
    zero).  The x-coordinates are nondecreasing whenever
    [min_support <= max_support] and the step is zero or a finite number
    of the normal range (any finite step but a nonzero denormal). *)
Theorem format_proba_density_shape (data : list float)
    (sw : option (list float)) (lo hi : float) :
  let grid := np.linspace lo hi 500 in
  let step := ((hi - lo) / float_of_nat 499)%float in
  format_proba_density [] sw lo hi = ret []
  /\ (forall kde log_density,
        data <> [] ->
        KernelDensity_fit (selected_bandwidth data) data (fitted_weights data sw)
        = Ok kde ->
        score_samples kde grid = Ok log_density ->
        length log_density = 500%nat ->
        exists out,
          outcome (format_proba_density data sw lo hi) = Ok out
          /\ length out = 500%nat
          /\ map fst out = grid
          /\ ((lo <=? hi)%float = true -> zero_or_normal step = true ->
              nondecreasing (map fst out) = true))
  /\ length grid = 500%nat
  /\ nth 499 grid 0%float = hi
  /\ (forall i, (i < 499)%nat ->
        nth i grid 0%float
        = if (step =? 0)%float
          then (float_of_nat i / float_of_nat 499 * (hi - lo) + lo)%float
          else (float_of_nat i * step + lo)%float)
  /\ (PrimFloat.is_finite lo = true -> PrimFloat.is_finite step = true ->
      (nth 0 grid 0 =? lo)%float = true)
  /\ ((lo <=? hi)%float = true -> zero_or_normal step = true ->
      nondecreasing grid = true).
Proof.
  intros grid step.
  destruct (linspace_points lo hi 500) as (Hlen & Hlast & Hpoints); [lia|].
  split; [reflexivity|]. split.
  { intros kde ld Hdata Hfit Hscore Hld.
    rewrite format_proba_density_nonempty by assumption.
    rewrite Hfit. cbn [call bind]. fold grid. rewrite Hscore.
    cbn [ret outcome snd].
    eexists. split; [reflexivity|].
    assert (Hsame : length grid
                    = length (map (fun v => if negb (np.isnan v) then PyFloat v else PyInt 0)
                                  (map np_exp ld)))
      by (rewrite !length_map, Hld; exact Hlen).
    assert (Hfst : map fst (combine grid
                              (map (fun v => if negb (np.isnan v) then PyFloat v else PyInt 0)
                                   (map np_exp ld))) = grid).
    { clear - Hsame. revert Hsame.
      generalize (map (fun v => if negb (np.isnan v) then PyFloat v else PyInt 0)
                      (map np_exp ld)).
      induction grid as [|x xs IH]; intros [|d ds] Hsame; simpl in *;
        try discriminate; [reflexivity|].
      f_equal. apply IH. now injection Hsame. }
    split; [rewrite length_combine, <- Hsame, Nat.min_id; exact Hlen|].
    split; [exact Hfst|].
    rewrite Hfst. exact (GridOrder.linspace_in_order lo hi). }
  split; [exact Hlen|]. split; [exact Hlast|]. split; [exact Hpoints|].
  split; [apply linspace_first_point|].
  exact (GridOrder.linspace_in_order lo hi).
Qed.



End DensityClaims.

(** A constant sample is fitted with the minimum bandwidth and without
    its weights; a sample with two values keeps them. *)
Lemma format_proba_density_kernel_fit_witness :
  kernel_fits (trace (format_proba_density (num := reference_numerics)
                        (neighbors := reference_neighbors)
                        [0.5; 0.5; 0.5]%float (Some [1; 2; 3]%float) 0 1))
  = [(0.06, [0.5; 0.5; 0.5], None)]%float
  /\ kernel_fits (trace (format_proba_density (num := reference_numerics)
                           (neighbors := reference_neighbors)
                           [0.1; 0.5; 0.5]%float (Some [1; 2; 3]%float) 0 1))
     = [(0.16044838452603541, [0.1; 0.5; 0.5], Some [1; 2; 3])]%float.
Proof.
  destruct (format_proba_density_kernel_fit (num := reference_numerics)
              (neighbors := reference_neighbors)
              [0.5; 0.5; 0.5]%float (Some [1; 2; 3]%float) 0 1) as (Hconstant & _).
  destruct (format_proba_density_kernel_fit (num := reference_numerics)
              (neighbors := reference_neighbors)
              [0.1; 0.5; 0.5]%float (Some [1; 2; 3]%float) 0 1) as (Hspread & _).
  split; [rewrite Hconstant|rewrite Hspread]; vm_compute; reflexivity.
Defined.

(** Five scores on the support (0, 1), whose step 1/499 is normal: 500
    pairs on the grid, in order. *)
Lemma format_proba_density_shape_witness :
  exists out,
    outcome (format_proba_density (num := reference_numerics)
               (neighbors := reference_neighbors)
               [0.1; 0.2; 0.4; 0.8; 0.9]%float None 0 1) = Ok out
    /\ length out = 500%nat
    /\ map fst out = np.linspace 0 1 500
    /\ nondecreasing (map fst out) = true.
Proof.
  destruct (format_proba_density_shape (num := reference_numerics)
              (neighbors := reference_neighbors)
              [0.1; 0.2; 0.4; 0.8; 0.9]%float None 0 1) as (_ & Hshape & _).
  eassert (Hex : _).
  { eapply Hshape.
    - discriminate.
    - vm_compute. reflexivity.
    - vm_compute. reflexivity.
    - vm_compute. reflexivity. }
  destruct Hex as (out & Hout & Hlen & Hfst & Hord).
  exists out. split; [exact Hout|]. split; [exact Hlen|]. split; [exact Hfst|].
  apply Hord; vm_compute; reflexivity.
Defined.

(** C6, as stated, fails: with the upper bound first the x-coordinates
    descend; with two denormal bounds in the right order the point before
    the last overshoots [max_support]; and a sample holding a NaN is
    refused by the kernel fit, so that nothing is returned. *)
Lemma format_proba_density_grid_not_sorted :
  (exists out,
      outcome (format_proba_density (num := reference_numerics)
                 (neighbors := reference_neighbors) [0.5]%float None 1 0) = Ok out
      /\ length out = 500%nat
      /\ nondecreasing (map fst out) = false)
  /\ (9.017e-321 <? 4.556e-320)%float = true
  /\ nondecreasing (np.linspace 9.017e-321 4.556e-320 500) = false
  /\ outcome (format_proba_density (num := reference_numerics)
                (neighbors := reference_neighbors) [nan] None 0 1)
     = Raise (ValueError "Input contains NaN, infinity or a value too large").
Proof.
  split; [|vm_compute; repeat split].
  eexists. split; [vm_compute; reflexivity|].
  split; vm_compute; reflexivity.
Qed.


(* ================================================================= *)
(** ** The surrogate model *)

Lemma drop_columns (df : DataFrame) (name : string) (X : DataFrame) :
  drop df name = Ok X ->
  columns X = filter (fun c => negb (String.eqb name c)) (columns df).
Proof.
  unfold drop. destruct (existsb _ _); [|discriminate].
  intros H. injection H as <-. unfold columns.
  induction df as [|[c cells] df IH]; simpl; [reflexivity|].
  destruct (String.eqb name c); simpl; now rewrite IH.
Qed.

Section SurrogateClaims.

Context {constants : ModelDriftConstants} {ensemble : sklearn_ensemble}
        {preprocessor : preprocessing}.

(** C8: a prediction type that is neither of the two tags raises the
    [ValueError] at once, no estimator having been created (the trace is
    empty); the classification tag creates the classifier, the
    regression tag the regressor, both seeded with 1407, and the
    construction succeeds. *)
Theorem init_checks_prediction_type (prediction_type : string) :
  (prediction_type <> CLASSIFICATION_TYPE ->
   prediction_type <> REGRRSSION_TYPE ->
   __init__ prediction_type
   = raise (ValueError "Prediction type must either be CLASSIFICATION or REGRESSION."))
  /\ (prediction_type = CLASSIFICATION_TYPE ->
      __init__ prediction_type
      = ([new_RandomForestClassifier 1407],
         Ok (mk_SurrogateModel None None prediction_type
               (RandomForestClassifier 1407))))
  /\ (prediction_type = REGRRSSION_TYPE ->
      prediction_type <> CLASSIFICATION_TYPE ->
      __init__ prediction_type
      = ([new_RandomForestRegressor 1407],
         Ok (mk_SurrogateModel None None prediction_type
               (RandomForestRegressor 1407)))).
Proof.
  unfold __init__, check. simpl existsb.
  destruct (String.eqb_spec prediction_type CLASSIFICATION_TYPE) as [Hc|Hc];
    destruct (String.eqb_spec prediction_type REGRRSSION_TYPE) as [Hr|Hr];
    simpl; repeat split; intros; try contradiction; reflexivity.
Qed.


(** What a successful [fit] went through. *)
Lemma fit_ok (self self' : SurrogateModel) (df : DataFrame) (target_name : string) :
  outcome (fit self df target_name) = Ok self' ->
  exists train test train_X train_Y fitted,
    get_processed_train_test df target_name = Ok (train, test)
    /\ drop train target_name = Ok train_X
    /\ getitem train target_name = Ok train_Y
    /\ estimator_fit (clf self) train_X train_Y = Ok fitted
    /\ self' = mk_SurrogateModel (Some (columns train_X)) (target self)
                                 (prediction_type self) fitted.
Proof.
  unfold fit.
  destruct (get_processed_train_test df target_name) as [[train test]|e] eqn:Hpre;
    [|discriminate].
  cbn [call bind fst].
  destruct (drop train target_name) as [train_X|e] eqn:Hdrop; [|discriminate].
  rewrite bind_pure_ok.
  destruct (getitem train target_name) as [train_Y|e] eqn:Hget; [|discriminate].
  rewrite bind_pure_ok.
  destruct (estimator_fit (clf self) train_X train_Y) as [fitted|e] eqn:Hfit;
    [|discriminate].
  cbn [call bind ret outcome snd]. intros H. injection H as <-.
  exists train, test, train_X, train_Y, fitted. repeat split; assumption.
Qed.


(** C10: [fit] never looks at the recorded feature names, so it behaves
    on a fitted object as on a fresh one holding the same estimator.  On
    an object that was already fitted, a second [fit] whose preprocessing
    and estimator fit succeed runs the preprocessing again, fits the
    estimator the object holds (no new estimator is created), and
    records the feature columns of the second train partition, which is
    all that [get_features] returns from then on. *)
Theorem fit_again (self fitted_model : SurrogateModel)
    (df1 df2 : DataFrame) (target1 target2 : string)
    (train test train_X : DataFrame) (train_Y : list (list cell))
    (refitted : estimator) :
  outcome (fit self df1 target1) = Ok fitted_model ->
  get_processed_train_test df2 target2 = Ok (train, test) ->
  drop train target2 = Ok train_X ->
  getitem train target2 = Ok train_Y ->
  estimator_fit (clf fitted_model) train_X train_Y = Ok refitted ->
  get_features fitted_model <> None
  /\ fit fitted_model df2 target2
     = ([call_get_processed_train_test df2 target2;
         call_estimator_fit train_X train_Y],
        Ok (mk_SurrogateModel (Some (columns train_X)) (target fitted_model)
              (prediction_type fitted_model) refitted))
  /\ (forall self'', outcome (fit fitted_model df2 target2) = Ok self'' ->
        get_features self'' = Some (columns train_X) /\ clf self'' = refitted)
  /\ (forall names,
        fit fitted_model df2 target2
        = fit (mk_SurrogateModel names (target fitted_model)
                 (prediction_type fitted_model) (clf fitted_model)) df2 target2).
Proof.
  intros Hfirst Hpre Hdrop Hget Hest.
  destruct (fit_ok _ _ _ _ Hfirst) as (? & ? & X1 & ? & ? & _ & _ & _ & _ & Hmodel).
  assert (Hsecond :
    fit fitted_model df2 target2
    = ([call_get_processed_train_test df2 target2;
        call_estimator_fit train_X train_Y],
       Ok (mk_SurrogateModel (Some (columns train_X)) (target fitted_model)
             (prediction_type fitted_model) refitted))).
  { unfold fit. rewrite Hpre. cbn [call bind fst].
    rewrite Hdrop, bind_pure_ok, Hget, bind_pure_ok, Hest. reflexivity. }
  split; [rewrite Hmodel; discriminate|].
  split; [exact Hsecond|]. split.
  - rewrite Hsecond. intros self'' H. injection H as <-. now split.
  - intros names. reflexivity.
Qed.

End SurrogateClaims.

(** The three kinds of prediction type, with the tags spelled as in the
    error message. *)
Lemma init_checks_prediction_type_witness :
  __init__ (constants := reference_constants) (ensemble := reference_ensemble)
    "CLUSTERING"
  = raise (ValueError "Prediction type must either be CLASSIFICATION or REGRESSION.")
  /\ trace (__init__ (constants := reference_constants)
              (ensemble := reference_ensemble) "CLASSIFICATION")
     = [new_RandomForestClassifier 1407]
  /\ trace (__init__ (constants := reference_constants)
              (ensemble := reference_ensemble) "REGRESSION")
     = [new_RandomForestRegressor 1407].
Proof.
  destruct (init_checks_prediction_type (constants := reference_constants)
              (ensemble := reference_ensemble) "CLUSTERING") as (H & _ & _).
  split; [apply H; discriminate|]. split; reflexivity.
Defined.



(** The surrogate fitted on [shops] is fitted again on [flats]. *)
Lemma fit_again_witness :
  outcome (fit (preprocessor := reference_preprocessing)
             unfitted_regressor shops "price") = Ok shops_model
  /\ exists refitted,
       fit (preprocessor := reference_preprocessing) shops_model flats "rent"
       = ([call_get_processed_train_test flats "rent";
           call_estimator_fit [("rooms"%string, [Num 1; Num 2; Num 3; Num 4])]
                              [[Num 500; Num 700; Num 900; Num 1100]]],
          Ok refitted)
       /\ get_features refitted = Some ["rooms"%string].
Proof.
  assert (Hfit : outcome (fit (preprocessor := reference_preprocessing)
                            unfitted_regressor shops "price") = Ok shops_model)
    by (vm_compute; reflexivity).
  split; [exact Hfit|].
  destruct (fit_again (preprocessor := reference_preprocessing)
              unfitted_regressor shops_model shops flats "price" "rent"
              [("rooms"%string, [Num 1; Num 2; Num 3; Num 4]);
               ("rent"%string, [Num 500; Num 700; Num 900; Num 1100])]
              [("rooms"%string, [Num 5]); ("rent"%string, [Num 1300])]
              [("rooms"%string, [Num 1; Num 2; Num 3; Num 4])]
              [[Num 500; Num 700; Num 900; Num 1100]]
              (Forest.mk_forest Forest.Regressor 1407 (Some ["rooms"%string])))
    as (_ & Hsecond & _).
  - exact Hfit.
  - vm_compute. reflexivity.
  - vm_compute. reflexivity.
  - vm_compute. reflexivity.
  - vm_compute. reflexivity.
  - eexists. split; [exact Hsecond|reflexivity].
Defined.

(* ================================================================= *)
(** ** Further properties *)

Lemma filter_other_absent (i : Z) (l : list Z) :
  ~ In i l -> filter (fun j => negb (i =? j)%Z) l = l.
Proof.
  induction l as [|j t IH]; intros Hnot; simpl; [reflexivity|].
  destruct (Z.eqb_spec i j) as [->|_]; simpl.
  - exfalso. apply Hnot. now left.
  - rewrite IH; [reflexivity|]. intros Hin. apply Hnot. now right.
Qed.

Lemma filter_other_length (i : Z) (l : list Z) :
  NoDup l -> In i l ->
  length (filter (fun j => negb (i =? j)%Z) l) = (length l - 1)%nat.
Proof.
  induction 1 as [|j t Hnot Hnd IH]; intros Hin; [contradiction|].
  simpl. destruct (Z.eqb_spec i j) as [->|Hne]; simpl.
  - rewrite filter_other_absent by assumption. lia.
  - destruct Hin as [->|Hin]; [contradiction|].
    rewrite IH by assumption. destruct t; [contradiction|simpl; lia].
Qed.

(** [k] distinct classes make [k (k-1)] ordered pairs. *)
Lemma pairs_length (classes : list Z) :
  NoDup classes ->
  length (pairs classes) = (length classes * (length classes - 1))%nat.
Proof.
  intros Hnd. unfold pairs. apply flat_map_constant_length.
  intros i Hi. rewrite length_map. now apply filter_other_length.
Qed.

Lemma mapM_trace_length {X Y} (f : X -> py Y) (l : list X) :
  (forall x t y, f x = (t, Ok y) -> length t = 1%nat) ->
  forall t ys, mapM f l = (t, Ok ys) -> length t = length l.
Proof.
  intros Hone. induction l as [|x l IH]; intros t ys Hm.
  - injection Hm as <- _. reflexivity.
  - apply mapM_cons_ok in Hm as (t1 & y & t2 & ys' & Hx & Hl & -> & _).
    rewrite length_app, (Hone _ _ _ Hx), (IH _ _ Hl). reflexivity.
Qed.

Section FurtherScorer.

Context {metrics : sklearn_metrics}.

Lemma A_ok_one_call (y : Series) (P : ndarray) (w : option (list float))
    (i j : Z) (t : list event) (v : float) :
  A y P w i j = (t, Ok v) -> length t = 1%nat.
Proof.
  unfold A. rewrite take_in1d_self, bind_pure_ok.
  destruct (np.take_rows P _) as [Pm|e]; [|discriminate].
  rewrite bind_pure_ok.
  destruct (np.column Pm i) as [col|e]; [|discriminate].
  rewrite bind_pure_ok.
  destruct w as [ws|].
  - destruct (np.take ws _) as [wm|e]; [|discriminate].
    rewrite bind_pure_ok, bind_ret_l. intros H. now injection H as <- _.
  - rewrite bind_ret_l. intros H. now injection H as <- _.
Qed.

(** A multi-class score that is returned took exactly [k (k-1)] calls to
    the binary score, one per ordered pair of distinct observed
    classes. *)
Theorem mroc_auc_score_number_of_calls (y_true : Series) (P : ndarray)
    (w : option (list float)) (t : list event) (M : float) :
  let k := length (np.unique y_true) in
  (2 < k)%nat ->
  mroc_auc_score y_true P w = (t, Ok M) ->
  length t = (k * (k - 1))%nat.
Proof.
  intros k Hk Hscore.
  destruct (Nat.le_gt_cases k (shape1 P)) as [Hmax|Hmax].
  - rewrite mroc_auc_score_multiclass in Hscore by assumption. fold k in Hscore.
    destruct (mapM _ _) as [t' [terms|e]] eqn:Hm; [|discriminate].
    simpl in Hscore. rewrite app_nil_r in Hscore. injection Hscore as <- _.
    rewrite (mapM_trace_length _ _ (fun x t0 y H => A_ok_one_call _ _ _ _ _ _ _ H) _ _ Hm).
    apply pairs_length, unique_NoDup.
  - unfold mroc_auc_score in Hscore. fold k in Hscore.
    destruct (Nat.ltb_spec (shape1 P) k); [discriminate|lia].
Qed.

End FurtherScorer.

Lemma mroc_auc_score_number_of_calls_witness :
  exists t,
    mroc_auc_score (metrics := reference_metrics) six_labels six_by_three None
    = (t, Ok 0.8125%float)
    /\ length t = 6%nat.
Proof.
  eexists. split; [vm_compute; reflexivity|].
  apply (mroc_auc_score_number_of_calls (metrics := reference_metrics)
           six_labels six_by_three None _ 0.8125%float).
  - vm_compute. lia.
  - vm_compute. reflexivity.
Defined.

Lemma mapM_ok_all {X Y} (f : X -> py Y) (l : list X) (t : list event) (ys : list Y) :
  mapM f l = (t, Ok ys) ->
  forall x, In x l -> exists t' y, f x = (t', Ok y).
Proof.
  revert t ys. induction l as [|a l IH]; intros t ys Hm x Hx; [contradiction|].
  apply mapM_cons_ok in Hm as (t1 & y & t2 & ys' & Ha & Hl & _ & _).
  destruct Hx as [<-|Hx]; [now exists t1, y|]. eapply IH; eassumption.
Qed.

Lemma another_class (classes : list Z) (c : Z) :
  NoDup classes -> (2 <= length classes)%nat ->
  exists j, In j classes /\ c <> j.
Proof.
  intros Hnd Hlen. destruct classes as [|a [|b t]]; simpl in Hlen; try lia.
  destruct (Z.eq_dec c a) as [->|Hne].
  - exists b. split; [simpl; auto|].
    inversion Hnd as [|? ? Hnot _]; subst. intros ->. apply Hnot. now left.
  - exists a. split; [now left|assumption].
Qed.

Section LabelsAndColumns.

Context {metrics : sklearn_metrics}.

Lemma A_column_outside (y : Series) (P : ndarray) (w : option (list float))
    (c j : Z) (t : list event) (v : float) :
  (Z.of_nat (shape1 P) <= c \/ c < - Z.of_nat (shape1 P))%Z ->
  A y P w c j <> (t, Ok v).
Proof.
  intros Hc. unfold A. rewrite take_in1d_self, bind_pure_ok.
  unfold np.take_rows. destruct (np.take (array_rows P) _) as [rs|e];
    cbn [result_bind]; [|discriminate].
  rewrite bind_pure_ok, column_outside by exact Hc. discriminate.
Qed.

(** With more than two observed classes, an observed label that is not
    a column index of the prediction matrix (at or past the number of
    columns, or below minus that number) leaves the score without a
    value: the computation ends on an exception. *)
Theorem mroc_auc_score_label_outside_columns (y_true : Series) (P : ndarray)
    (w : option (list float)) (c : Z) (t : list event) (M : float) :
  (2 < length (np.unique y_true))%nat ->
  In c y_true ->
  (Z.of_nat (shape1 P) <= c \/ c < - Z.of_nat (shape1 P))%Z ->
  mroc_auc_score y_true P w <> (t, Ok M).
Proof.
  intros Hk Hin Hc Hscore.
  destruct (Nat.le_gt_cases (length (np.unique y_true)) (shape1 P)) as [Hmax|Hmax].
  - rewrite mroc_auc_score_multiclass in Hscore by assumption.
    destruct (mapM _ _) as [t' [terms|e]] eqn:Hm; [|discriminate].
    destruct (another_class (np.unique y_true) c (unique_NoDup y_true))
      as (j & Hj & Hcj); [lia|].
    destruct (mapM_ok_all _ _ _ _ Hm (c, j)) as (t0 & v & HA).
    + apply in_pairs. split; [now apply unique_In|]. now split.
    + simpl in HA. now apply A_column_outside in HA.
  - unfold mroc_auc_score in Hscore.
    destruct (Nat.ltb_spec (shape1 P) (length (np.unique y_true)));
      [discriminate|lia].
Qed.

End LabelsAndColumns.

Lemma mroc_auc_score_label_outside_columns_witness :
  ~ exists t M,
      mroc_auc_score (metrics := reference_metrics) labels_0_1_5 six_by_three None
      = (t, Ok M).
Proof.
  intros (t & M & Hscore). revert Hscore.
  apply (mroc_auc_score_label_outside_columns (metrics := reference_metrics)
           labels_0_1_5 six_by_three None 5%Z).
  - vm_compute. lia.
  - simpl. auto 10.
  - left. simpl. lia.
Defined.

Section FurtherSurrogate.

Context {constants : ModelDriftConstants} {ensemble : sklearn_ensemble}
        {preprocessor : preprocessing}.

(** A failure of the preprocessing or of the estimator's fit is the
    failure of [fit], with nothing attempted after it. *)
Theorem fit_propagates_failures (self : SurrogateModel) (df : DataFrame)
    (target_name : string) (e : exn) :
  (get_processed_train_test df target_name = Raise e ->
   fit self df target_name
   = ([call_get_processed_train_test df target_name], Raise e))
  /\ (forall train test train_X train_Y,
        get_processed_train_test df target_name = Ok (train, test) ->
        drop train target_name = Ok train_X ->
        getitem train target_name = Ok train_Y ->
        estimator_fit (clf self) train_X train_Y = Raise e ->
        fit self df target_name
        = ([call_get_processed_train_test df target_name;
            call_estimator_fit train_X train_Y], Raise e)).
Proof.
  split.
  - intros Hpre. unfold fit. now rewrite Hpre.
  - intros train test train_X train_Y Hpre Hdrop Hget Hest.
    unfold fit. rewrite Hpre. cbn [call bind fst].
    rewrite Hdrop, bind_pure_ok, Hget, bind_pure_ok, Hest. reflexivity.
Qed.

(** The [target] attribute is [None] from the construction on: [fit]
    neither sets it nor changes the prediction type. *)
Theorem target_is_never_set (prediction_type0 : string)
    (self : SurrogateModel) (df : DataFrame) (target_name : string) :
  (forall s, outcome (__init__ prediction_type0) = Ok s ->
     target s = None /\ prediction_type s = prediction_type0)
  /\ (forall self', outcome (fit self df target_name) = Ok self' ->
        target self' = target self
        /\ prediction_type self' = prediction_type self).
Proof.
  split.
  - intros s. unfold __init__, check.
    destruct (negb _); [discriminate|]. rewrite bind_ret_l.
    destruct (String.eqb _ _); simpl; intros H; injection H as <-; now split.
  - intros self' Hfit.
    destruct (fit_ok _ _ _ _ Hfit) as (? & ? & ? & ? & ? & _ & _ & _ & _ & ->).
    now split.
Qed.

End FurtherSurrogate.

(** A table without its target column: the preprocessing refuses it, and
    [fit] fails with that error. *)
Lemma fit_propagates_failures_witness :
  fit (preprocessor := reference_preprocessing) unfitted_regressor flats "price"
  = ([call_get_processed_train_test flats "price"],
     Raise (ValueError "The target column is not in the table")).
Proof.
  destruct (fit_propagates_failures (preprocessor := reference_preprocessing)
              unfitted_regressor flats "price"
              (ValueError "The target column is not in the table")) as (H & _).
  apply H. reflexivity.
Defined.

Lemma target_is_never_set_witness :
  target shops_model = None /\ prediction_type shops_model = "REGRESSION"%string.
Proof.
  destruct (target_is_never_set (constants := reference_constants)
              (preprocessor := reference_preprocessing)
              "REGRESSION" unfitted_regressor shops "price") as (_ & H).
  destruct (H shops_model) as (Ht & Hp); [vm_compute; reflexivity|].
  split; [exact Ht|exact Hp].
Defined.

(* ================================================================= *)
(** ** What the binary score is called with *)

Lemma trace_bind_ret {X Y} (m : py X) (g : X -> Y) :
  trace (bind m (fun x => ret (g x))) = trace m.
Proof.
  destruct m as [t [a|e]]; simpl; [apply app_nil_r|reflexivity].
Qed.

(** A call made along a [mapM] was made for one of the elements. *)
Lemma mapM_trace_In {X Y} (f : X -> py Y) (l : list X) (ev : event) :
  In ev (trace (mapM f l)) -> exists x, In x l /\ In ev (trace (f x)).
Proof.
  induction l as [|x l IH]; [simpl; tauto|].
  cbn [mapM]. destruct (f x) as [t1 [y|e]] eqn:Hx.
  - unfold bind at 1.
    destruct (bind (mapM f l) (fun ys => ret (y :: ys))) as [t2 r] eqn:Hrest.
    assert (Ht2 : t2 = trace (mapM f l)).
    { change t2 with (trace (t2, r)). rewrite <- Hrest. apply trace_bind_ret. }
    cbn [trace fst]. intros Hin. apply in_app_or in Hin as [Hin|Hin].
    + exists x. rewrite Hx. split; [now left|exact Hin].
    + rewrite Ht2 in Hin. destruct (IH Hin) as (x' & Hx' & Hev).
      exists x'. split; [now right|exact Hev].
  - cbn [bind trace fst]. intros Hin.
    exists x. rewrite Hx. split; [now left|exact Hin].
Qed.

(** A boolean mask keeps as many entries as it holds [True]. *)
Lemma take_length {X} (a : list X) (mask : list bool) (r : list X) :
  np.take a mask = Ok r -> length r = length (filter (fun b : bool => b) mask).
Proof.
  unfold np.take. destruct (Nat.eqb_spec (length mask) (length a)) as [Hlen|];
    [|discriminate].
  intros H. injection H as <-. rewrite length_map.
  revert mask Hlen. induction a as [|x a IH]; intros [|b mask] Hlen;
    simpl in *; try discriminate; [reflexivity|].
  injection Hlen as Hlen. destruct b; simpl; now rewrite IH.
Qed.

Lemma in1d_count (y values : list Z) :
  length (filter (fun b : bool => b) (np.in1d y values))
  = length (filter (fun c => existsb (Z.eqb c) values) y).
Proof.
  unfold np.in1d. induction y as [|c y IH]; simpl; [reflexivity|].
  destruct (existsb (Z.eqb c) values); simpl; now rewrite IH.
Qed.

Lemma column_length (a : ndarray) (i : Z) (col : list float) :
  np.column a i = Ok col -> length col = shape0 a.
Proof.
  unfold np.column, shape0. destruct ((i <? _)%Z || _); [discriminate|].
  intros H. injection H as <-. apply length_map.
Qed.

(** An index in [[-shape1, shape1)] selects the column at that index
    modulo the number of columns. *)
Lemma column_in_range (a : ndarray) (i : Z) :
  (- Z.of_nat (shape1 a) <= i < Z.of_nat (shape1 a))%Z ->
  np.column a i
  = Ok (map (fun r => nth (Z.to_nat (i mod Z.of_nat (shape1 a))) r 0%float)
            (array_rows a)).
Proof.
  intros Hi. unfold np.column.
  destruct (Z.ltb_spec i (- Z.of_nat (shape1 a))); [lia|].
  destruct (Z.leb_spec (Z.of_nat (shape1 a)) i); [lia|].
  cbn [orb]. destruct (Z.ltb_spec i 0).
  - replace (i mod Z.of_nat (shape1 a))%Z with (i + Z.of_nat (shape1 a))%Z;
      [reflexivity|].
    apply Z.mod_unique with (q := (-1)%Z); lia.
  - now rewrite Z.mod_small by lia.
Qed.

Section ScorerCalls.

Context {metrics : sklearn_metrics}.

(** The call that [A(i, j)] makes, if it makes one: the indicator of
    class [i] on the rows labelled [i] or [j], with as many scores, and
    as many weights when there are weights. *)
Lemma A_calls (y : Series) (P : ndarray) (w : option (list float))
    (i j : Z) (ev : event) :
  In ev (trace (A y P w i j)) ->
  let labels :=
    map (fun c => Z.b2z (c =? i)%Z) (filter (fun c => existsb (Z.eqb c) [i; j]) y) in
  exists scores weights,
    ev = call_roc_auc_score labels scores weights
    /\ length scores = length labels
    /\ (forall ws, weights = Some ws -> length ws = length labels)
    /\ (weights = None <-> w = None).
Proof.
  unfold A. rewrite take_in1d_self, bind_pure_ok.
  destruct (np.take_rows P (np.in1d y [i; j])) as [Pm|e] eqn:Hrows;
    [|simpl; tauto].
  rewrite bind_pure_ok.
  destruct (np.column Pm i) as [col|e] eqn:Hcol; [|simpl; tauto].
  rewrite bind_pure_ok.
  assert (Hlen : length col
                 = length (filter (fun c => existsb (Z.eqb c) [i; j]) y)).
  { rewrite (column_length _ _ _ Hcol), <- in1d_count.
    unfold np.take_rows in Hrows.
    destruct (np.take (array_rows P) (np.in1d y [i; j])) as [rs|e] eqn:Ht;
      [|discriminate].
    injection Hrows as <-. unfold shape0. cbn [array_rows].
    now apply take_length in Ht. }
  destruct w as [ws|].
  - destruct (np.take ws (np.in1d y [i; j])) as [wm|e] eqn:Hw; [|simpl; tauto].
    rewrite bind_pure_ok, bind_ret_l. cbn [do_roc_auc_score call trace fst In].
    intros [<-|[]]. exists col, (Some wm).
    split; [reflexivity|]. rewrite length_map.
    split; [exact Hlen|]. split; [|split; discriminate].
    intros ws' H. injection H as <-.
    rewrite (take_length _ _ _ Hw). apply in1d_count.
  - rewrite bind_ret_l. cbn [do_roc_auc_score call trace fst In].
    intros [<-|[]]. exists col, None.
    split; [reflexivity|]. rewrite length_map.
    split; [exact Hlen|]. split; [discriminate|tauto].
Qed.

(** Every call to the binary score is well posed: the labels are
    0/1 indicators and both values occur among them, so the binary score
    is never asked about a single class; weights are passed exactly when
    the caller gave weights; and with more than two observed classes the
    scores and the weights are as many as the labels. *)
Theorem mroc_auc_score_calls_are_well_posed (y_true : Series) (P : ndarray)
    (w : option (list float)) (ev : event) :
  In ev (trace (mroc_auc_score y_true P w)) ->
  exists labels scores weights,
    ev = call_roc_auc_score labels scores weights
    /\ In 0%Z labels /\ In 1%Z labels
    /\ (forall c, In c labels -> c = 0%Z \/ c = 1%Z)
    /\ (weights = None <-> w = None)
    /\ ((2 < length (np.unique y_true))%nat ->
        length scores = length labels
        /\ forall ws, weights = Some ws -> length ws = length labels).
Proof.
  unfold mroc_auc_score.
  destruct (Nat.ltb_spec (shape1 P) (length (np.unique y_true))); [simpl; tauto|].
  destruct (Nat.ltb_spec (length (np.unique y_true)) 2); [simpl; tauto|].
  destruct (Nat.eqb_spec (length (np.unique y_true)) 2) as [Hk|Hk].
  - destruct (np.unique y_true) as [|a [|b [|? ?]]] eqn:Hu; try discriminate.
    destruct (two_classes y_true a b Hu) as (Hab & Hin & _).
    rewrite (result_mapM_ok _ (fun c => if (c =? a)%Z then 0%Z else 1%Z)).
    + rewrite bind_pure_ok.
      destruct (np.column P 1) as [col|e]; [|simpl; tauto].
      rewrite bind_pure_ok. intros [<-|[]].
      exists (map (fun c => if (c =? a)%Z then 0%Z else 1%Z) y_true), col, w.
      split; [reflexivity|].
      assert (Ha : In a y_true) by (apply unique_In; rewrite Hu; now left).
      assert (Hb : In b y_true) by (apply unique_In; rewrite Hu; right; now left).
      split.
      { apply in_map_iff. exists a. now rewrite Z.eqb_refl. }
      split.
      { apply in_map_iff. exists b. split; [|assumption].
        destruct (Z.eqb_spec b a); [lia|reflexivity]. }
      split.
      { intros c Hc. apply in_map_iff in Hc as (x & <- & _).
        destruct (x =? a)%Z; auto. }
      split; [tauto|]. simpl. lia.
    + intros c Hc. simpl. destruct (Hin c Hc) as [->| ->].
      * now rewrite Z.eqb_refl.
      * destruct (Z.eqb_spec a b); [lia|]. destruct (Z.eqb_spec b a); [lia|].
        now rewrite Z.eqb_refl.
  - rewrite trace_bind_ret. intros Hev.
    apply mapM_trace_In in Hev as ([i j] & Hij & Hev). cbn [fst snd] in Hev.
    destruct (proj1 (in_pairs _ _ _) Hij) as (Hi & Hj & Hne).
    apply (proj1 (unique_In _ _)) in Hi. apply (proj1 (unique_In _ _)) in Hj.
    destruct (A_calls _ _ _ _ _ _ Hev) as (scores & weights & -> & Hs & Hws & Hnone).
    eexists _, scores, weights. split; [reflexivity|].
    split.
    { apply in_map_iff. exists j. split.
      - destruct (Z.eqb_spec j i); [congruence|reflexivity].
      - apply filter_In. split; [assumption|].
        rewrite existsb_pair, Z.eqb_refl. apply orb_true_r. }
    split.
    { apply in_map_iff. exists i. split; [now rewrite Z.eqb_refl|].
      apply filter_In. split; [assumption|].
      rewrite existsb_pair, Z.eqb_refl. reflexivity. }
    split.
    { intros c Hc. apply in_map_iff in Hc as (x & <- & _).
      destruct (x =? i)%Z; auto. }
    split; [exact Hnone|]. intros _. split; assumption.
Qed.

(** With more than two observed classes, labels or weights that are not
    one per row of the prediction matrix stop the score on numpy's
    [IndexError] for a boolean mask of the wrong length, before the
    binary score is called at all. *)
Theorem mroc_auc_score_misaligned_inputs (y_true : Series) (P : ndarray)
    (w : option (list float)) :
  let k := length (np.unique y_true) in
  (2 < k)%nat ->
  (k <= shape1 P)%nat ->
  (forall c, In c y_true ->
     (- Z.of_nat (shape1 P) <= c < Z.of_nat (shape1 P))%Z) ->
  length y_true <> shape0 P
  \/ (exists ws, w = Some ws /\ length ws <> length y_true) ->
  mroc_auc_score y_true P w
  = raise (IndexError "boolean index did not match indexed array").
Proof.
  intros k Hk Hmax Hcols Hbad.
  rewrite mroc_auc_score_multiclass by assumption.
  assert (Hne := pairs_nonempty (np.unique y_true) (unique_NoDup y_true)).
  destruct (pairs (np.unique y_true)) as [|[i j] rest] eqn:Hpairs.
  { exfalso. apply Hne; [fold k; lia|reflexivity]. }
  assert (Hi : In i y_true).
  { apply unique_In.
    assert (Hin : In (i, j) (pairs (np.unique y_true))) by (rewrite Hpairs; now left).
    now destruct (proj1 (in_pairs _ _ _) Hin). }
  assert (HA : A y_true P w i j
               = raise (IndexError "boolean index did not match indexed array")).
  { unfold A. rewrite take_in1d_self, bind_pure_ok.
    destruct (Nat.eq_dec (length y_true) (shape0 P)) as [Hrows|Hrows].
    - destruct Hbad as [Hbad|(ws & -> & Hws)]; [contradiction|].
      unfold np.take_rows. rewrite (take_in1d _ _ _ Hrows). cbn [result_bind].
      rewrite bind_pure_ok, column_in_range by (cbn [shape1]; auto).
      rewrite bind_pure_ok. unfold np.take at 1, np.in1d.
      rewrite length_map.
      destruct (Nat.eqb_spec (length y_true) (length ws)); [congruence|].
      reflexivity.
    - rewrite take_rows_wrong_length; [reflexivity|].
      unfold np.in1d. now rewrite length_map. }
  cbn [mapM fst snd]. rewrite HA. reflexivity.
Qed.

(** The inner score on aligned inputs, for any label that numpy accepts
    as a column index: a negative label is not refused, it reads the
    column counted from the end (the column at the label modulo the
    number of columns). *)
Theorem A_reads_column_modulo (y_true : Series) (P : ndarray)
    (w : option (list float)) (i j : Z) :
  let rows := restricted i j y_true (array_rows P) in
  length y_true = shape0 P ->
  (forall ws, w = Some ws -> length ws = length y_true) ->
  (- Z.of_nat (shape1 P) <= i < Z.of_nat (shape1 P))%Z ->
  A y_true P w i j
  = do_roc_auc_score
      (map (fun r => if (fst r =? i)%Z then 1%Z else 0%Z) rows)
      (map (fun r => nth (Z.to_nat (i mod Z.of_nat (shape1 P))) (snd r) 0%float) rows)
      (option_map (fun ws => map snd (restricted i j y_true ws)) w).
Proof.
  intros rows Hrows Hw Hi. unfold rows, A, shape0 in *.
  rewrite take_in1d_self, bind_pure_ok.
  unfold np.take_rows. rewrite (take_in1d _ _ _ Hrows). cbn [result_bind].
  rewrite bind_pure_ok, restricted_mask.
  rewrite column_in_range by exact Hi. cbn [array_rows shape1]. rewrite bind_pure_ok.
  assert (Hlabels :
    map (fun c => Z.b2z (c =? i)%Z) (filter (fun c => existsb (Z.eqb c) [i; j]) y_true)
    = map (fun r => if (fst r =? i)%Z then 1%Z else 0%Z)
          (restricted i j y_true (array_rows P))).
  { rewrite <- (filter_combine_fst (fun c => existsb (Z.eqb c) [i; j]) _ _ Hrows).
    rewrite restricted_mask, !map_map. apply map_ext.
    intros r. now destruct (fst r =? i)%Z. }
  rewrite Hlabels, map_map.
  destruct w as [ws|]; cbn [option_map].
  - rewrite take_in1d by (symmetry; now apply Hw).
    rewrite bind_pure_ok, bind_ret_l, restricted_mask. reflexivity.
  - rewrite bind_ret_l. reflexivity.
Qed.

(** Only the columns of the observed classes are read: two prediction
    matrices with the same number of rows that agree on those columns
    get the same score, with the same calls; and with exactly two
    observed classes only column 1 is read, whatever the two labels
    are. *)
Theorem mroc_auc_score_reads_observed_columns_only (y_true : Series)
    (P P' : ndarray) (w : option (list float)) :
  let k := length (np.unique y_true) in
  (k <= shape1 P)%nat ->
  (k <= shape1 P')%nat ->
  ((2 < k)%nat ->
   shape0 P' = shape0 P ->
   (forall c, In c y_true -> np.column P' c = np.column P c) ->
   mroc_auc_score y_true P' w = mroc_auc_score y_true P w)
  /\ (k = 2%nat ->
      np.column P' 1 = np.column P 1 ->
      mroc_auc_score y_true P' w = mroc_auc_score y_true P w).
Proof.
  intros k Hmax Hmax'. split.
  - intros Hk Hrows Hcols.
    rewrite !mroc_auc_score_multiclass by assumption.
    f_equal. apply mapM_ext. intros [i j] Hij. cbn [fst snd].
    destruct (proj1 (in_pairs _ _ _) Hij) as (Hi & Hj & _).
    apply (proj1 (unique_In _ _)) in Hi. apply (proj1 (unique_In _ _)) in Hj.
    rewrite <- (A_relabel (fun c => c) y_true (fun a b _ _ H => H) P P' w i j)
      by auto.
    now rewrite map_id.
  - intros Hk Hcol. unfold mroc_auc_score. fold k. rewrite Hk.
    destruct (Nat.ltb_spec (shape1 P) 2); [lia|].
    destruct (Nat.ltb_spec (shape1 P') 2); [lia|].
    now rewrite Hcol.
Qed.

End ScorerCalls.

(** The first call of the six-row example: the rows of classes 0 and 1,
    class 0 positive, column 0 as the score. *)
Lemma mroc_auc_score_calls_are_well_posed_witness :
  In (call_roc_auc_score [1; 1; 0; 0]%Z [0.5; 0.2; 0.3; 0.1]%float None)
     (trace (mroc_auc_score (metrics := reference_metrics)
               six_labels six_by_three None))
  /\ exists labels scores weights,
       call_roc_auc_score [1; 1; 0; 0]%Z [0.5; 0.2; 0.3; 0.1]%float None
       = call_roc_auc_score labels scores weights
       /\ In 0%Z labels /\ In 1%Z labels.
Proof.
  assert (Hin :
    In (call_roc_auc_score [1; 1; 0; 0]%Z [0.5; 0.2; 0.3; 0.1]%float None)
       (trace (mroc_auc_score (metrics := reference_metrics)
                 six_labels six_by_three None)))
    by (vm_compute; now left).
  split; [exact Hin|].
  destruct (mroc_auc_score_calls_are_well_posed (metrics := reference_metrics)
              six_labels six_by_three None _ Hin)
    as (labels & scores & weights & Hev & H0 & H1 & _).
  exists labels, scores, weights. split; [exact Hev|]. split; assumption.
Defined.

(** Six rows of predictions, five labels. *)
Lemma mroc_auc_score_misaligned_inputs_witness :
  mroc_auc_score (metrics := reference_metrics) [0; 0; 1; 1; 2]%Z six_by_three None
  = raise (IndexError "boolean index did not match indexed array").
Proof.
  apply (mroc_auc_score_misaligned_inputs (metrics := reference_metrics)
           [0; 0; 1; 1; 2]%Z six_by_three None).
  - vm_compute. lia.
  - vm_compute. lia.
  - intros c Hc. simpl in Hc. simpl. lia.
  - left. vm_compute. lia.
Defined.

(** The label [-1] on a three-column matrix reads column 2. *)
Lemma A_reads_column_modulo_witness :
  A (metrics := reference_metrics) [0; 0; 1; 1; -1; -1]%Z six_by_three None (-1) 0
  = do_roc_auc_score (metrics := reference_metrics)
      [0; 0; 1; 1]%Z [0.2; 0.3; 0.6; 0.3]%float None.
Proof.
  rewrite (A_reads_column_modulo (metrics := reference_metrics)
             [0; 0; 1; 1; -1; -1]%Z six_by_three None (-1) 0).
  - reflexivity.
  - reflexivity.
  - discriminate.
  - simpl. lia.
Defined.

(** A fourth column that no observed class points at changes nothing. *)
Lemma mroc_auc_score_reads_observed_columns_only_witness :
  mroc_auc_score (metrics := reference_metrics) six_labels
    (mk_ndarray 4
       [[0.5; 0.3; 0.2; 9]; [0.2; 0.5; 0.3; 9]; [0.3; 0.4; 0.3; 9];
        [0.1; 0.7; 0.2; 9]; [0.2; 0.2; 0.6; 9]; [0.4; 0.3; 0.3; 9]]%float) None
  = mroc_auc_score (metrics := reference_metrics) six_labels six_by_three None.
Proof.
  destruct (mroc_auc_score_reads_observed_columns_only
              (metrics := reference_metrics) six_labels six_by_three
              (mk_ndarray 4
                 [[0.5; 0.3; 0.2; 9]; [0.2; 0.5; 0.3; 9]; [0.3; 0.4; 0.3; 9];
                  [0.1; 0.7; 0.2; 9]; [0.2; 0.2; 0.6; 9]; [0.4; 0.3; 0.3; 9]]%float)
              None) as (H & _).
  - vm_compute. lia.
  - vm_compute. lia.
  - apply H.
    + vm_compute. lia.
    + reflexivity.
    + intros c Hc. simpl in Hc.
      repeat (destruct Hc as [<-|Hc]; [vm_compute; reflexivity|]).
      contradiction.
Defined.

(* ================================================================= *)
(** ** The first pairwise term that fails *)

Lemma mapM_first_failure {X Y} (f : X -> py Y) (before after : list X)
    (x : X) (t : list event) (e : exn) :
  (forall p tp v, f p = (tp, Ok v) -> length tp = 1%nat) ->
  (forall p, In p before -> exists tp v, f p = (tp, Ok v)) ->
  f x = (t, Raise e) ->
  exists tb,
    mapM f (before ++ x :: after) = (tb ++ t, Raise e)
    /\ length tb = length before.
Proof.
  intros Hone Hbefore Hx.
  induction before as [|p before IH].
  - exists []. cbn [app mapM]. rewrite Hx. split; reflexivity.
  - destruct (Hbefore p (or_introl eq_refl)) as (tp & v & Hp).
    destruct IH as (tb & Hrest & Hlen); [intros q Hq; apply Hbefore; now right|].
    exists (tp ++ tb). cbn [app mapM]. rewrite Hp, Hrest. cbn [bind].
    rewrite app_assoc. split; [reflexivity|].
    rewrite length_app, (Hone _ _ _ Hp), Hlen. reflexivity.
Qed.

Section FirstFailure.

Context {metrics : sklearn_metrics}.

(** With more than two observed classes, the pairs are scored in their
    order and the first term that fails ends the score with its error:
    one call was made for each pair before it, and no pair after it is
    scored. *)
Theorem mroc_auc_score_first_failure (y_true : Series) (P : ndarray)
    (w : option (list float)) (before after : list (Z * Z)) (i j : Z)
    (t : list event) (e : exn) :
  let k := length (np.unique y_true) in
  (2 < k)%nat ->
  (k <= shape1 P)%nat ->
  pairs (np.unique y_true) = before ++ (i, j) :: after ->
  (forall p, In p before ->
     exists tp v, A y_true P w (fst p) (snd p) = (tp, Ok v)) ->
  A y_true P w i j = (t, Raise e) ->
  outcome (mroc_auc_score y_true P w) = Raise e
  /\ length (trace (mroc_auc_score y_true P w)) = (length before + length t)%nat.
Proof.
  intros k Hk Hmax Hpairs Hbefore Hij.
  rewrite mroc_auc_score_multiclass by assumption. rewrite Hpairs.
  destruct (mapM_first_failure
              (fun ij => A y_true P w (fst ij) (snd ij)) before after (i, j) t e)
    as (tb & -> & Hlen).
  - intros p tp v. apply A_ok_one_call.
  - exact Hbefore.
  - exact Hij.
  - cbn [bind outcome trace fst snd]. split; [reflexivity|].
    now rewrite length_app, Hlen.
Qed.

End FirstFailure.

(** Labels 0, 1 and 5 on three columns: four pairs are scored, then the
    term of the pair (5, 0) fails on its column. *)
Lemma mroc_auc_score_first_failure_witness :
  outcome (mroc_auc_score (metrics := reference_metrics)
             labels_0_1_5 six_by_three None)
  = Raise (IndexError "index is out of bounds for axis 1")
  /\ length (trace (mroc_auc_score (metrics := reference_metrics)
                      labels_0_1_5 six_by_three None)) = 4%nat.
Proof.
  apply (mroc_auc_score_first_failure (metrics := reference_metrics)
           labels_0_1_5 six_by_three None
           [(0, 1); (0, 5); (1, 0); (1, 5)]%Z [(5, 1)]%Z 5 0 []).
  - vm_compute. lia.
  - vm_compute. lia.
  - reflexivity.
  - intros p Hp. simpl in Hp.
    repeat (destruct Hp as [<-|Hp]; [eexists; eexists; vm_compute; reflexivity|]).
    contradiction.
  - vm_compute. reflexivity.
Defined.

(* ================================================================= *)
(** ** Further properties of the density estimate *)

(** A float for which [h <= 0] is false is positive, or a NaN. *)
Lemma not_leb_zero (h : float) :
  (h <=? 0)%float = false ->
  (0 <? h)%float = true \/ PrimFloat.is_nan h = true.
Proof.
  unfold PrimFloat.is_nan. rewrite leb_spec, ltb_spec, eqb_spec.
  change (Prim2SF 0) with (S754_zero false).
  destruct (Prim2SF h) as [[]|[]| |[] m e]; cbn; intros H;
    try discriminate; auto.
Qed.

(** A zero standard deviation makes the rule of thumb zero. *)
Lemma zero_rule_of_thumb (s p : float) :
  (s =? 0)%float = true ->
  PrimFloat.is_finite p = true ->
  (1.06 * s * p <=? 0)%float = true.
Proof.
  intros Hs Hp. rewrite eqb_spec in Hs. rewrite leb_spec, !mul_spec.
  change (Prim2SF 0) with (S754_zero false) in *.
  remember (Prim2SF 1.06) as c eqn:Hc. vm_compute in Hc. subst c.
  destruct (Prim2SF s) as [zs|[]| |[] ms es]; try discriminate.
  destruct (finite_cases p Hp) as [[s' ->]|(s' & m' & e' & ->)];
    destruct zs, s'; reflexivity.
Qed.

Section FurtherDensityFacts.

Context {num : numerics} {neighbors : sklearn_neighbors}.

(** A kernel is only ever fitted on the sample as given, which is then
    not empty, and with a bandwidth that is positive or a NaN: a rule of
    thumb that evaluates to NaN is not [<= 0], so it is handed to the
    kernel as it is, and nothing [<= 0] ever is. *)
Theorem format_proba_density_fitted_bandwidth (data : list float)
    (sw : option (list float)) (lo hi : float)
    (h : float) (X : list float) (w : option (list float)) :
  In (h, X, w) (kernel_fits (trace (format_proba_density data sw lo hi))) ->
  ((0 <? h)%float = true \/ PrimFloat.is_nan h = true)
  /\ (h <=? 0)%float = false
  /\ X = data
  /\ data <> [].
Proof.
  destruct data as [|x data]; [simpl; tauto|].
  rewrite format_proba_density_nonempty by discriminate.
  intros Hin.
  assert (Hfit : (h, X, w)
                 = (selected_bandwidth (x :: data), x :: data,
                    fitted_weights (x :: data) sw)).
  { destruct (KernelDensity_fit _ _ _) as [kde|e]; cbn [call bind] in Hin.
    - destruct (score_samples kde _) as [ld|e]; simpl in Hin;
        destruct Hin as [H|[]]; now symmetry.
    - simpl in Hin. destruct Hin as [H|[]]; now symmetry. }
  injection Hfit as -> -> _.
  assert (Hh : (selected_bandwidth (x :: data) <=? 0)%float = false).
  { unfold selected_bandwidth.
    destruct (rule_of_thumb (x :: data) <=? 0)%float eqn:Hrule;
      [reflexivity|exact Hrule]. }
  split; [now apply not_leb_zero|]. split; [exact Hh|].
  split; [reflexivity|discriminate].
Qed.

(** Nothing is caught: a failure of the kernel fit is the failure of the
    estimate, the grid never being evaluated, and a failure of the
    evaluation on the grid is the failure of the estimate. *)
Theorem format_proba_density_propagates_failures (data : list float)
    (sw : option (list float)) (lo hi : float) (e : exn) :
  let h := selected_bandwidth data in
  let w := fitted_weights data sw in
  let grid := np.linspace lo hi 500 in
  data <> [] ->
  (KernelDensity_fit h data w = Raise e ->
   format_proba_density data sw lo hi
   = ([call_KernelDensity_fit h data w], Raise e))
  /\ (forall kde,
        KernelDensity_fit h data w = Ok kde ->
        score_samples kde grid = Raise e ->
        format_proba_density data sw lo hi
        = ([call_KernelDensity_fit h data w; call_score_samples grid], Raise e)).
Proof.
  intros h w grid Hdata.
  rewrite format_proba_density_nonempty by assumption. fold h w grid.
  split.
  - intros ->. reflexivity.
  - intros kde -> Hscore. cbn [call bind]. rewrite Hscore. reflexivity.
Qed.

(** A sample whose standard deviation is zero is fitted with the minimum
    bandwidth 0.06 (the count raised to -0.2 being a finite number). *)
Theorem format_proba_density_zero_deviation (data : list float)
    (sw : option (list float)) (lo hi : float) :
  data <> [] ->
  (np_std data =? 0)%float = true ->
  PrimFloat.is_finite (math_pow (float_of_nat (length data)) (-0.2)) = true ->
  kernel_fits (trace (format_proba_density data sw lo hi))
  = [(0.06%float, data, fitted_weights data sw)].
Proof.
  intros Hdata Hstd Hpow.
  rewrite format_proba_density_nonempty by assumption.
  assert (Hh : selected_bandwidth data = 0.06%float).
  { unfold selected_bandwidth, rule_of_thumb.
    now rewrite zero_rule_of_thumb. }
  rewrite Hh.
  destruct (KernelDensity_fit _ _ _) as [kde|e]; [|reflexivity].
  cbn [call bind].
  destruct (score_samples kde _) as [ld|e]; reflexivity.
Qed.

(** Whatever the kernel answers, and however many values, a returned
    estimate holds no NaN density, and each of its x-coordinates is a
    point of the grid. *)
Theorem format_proba_density_never_returns_nan (data : list float)
    (sw : option (list float)) (lo hi : float)
    (out : list (float * pynum)) (x : float) (d : pynum) :
  outcome (format_proba_density data sw lo hi) = Ok out ->
  In (x, d) out ->
  In x (np.linspace lo hi 500)
  /\ (d = PyInt 0 \/ exists v, d = PyFloat v /\ PrimFloat.is_nan v = false).
Proof.
  destruct data as [|x0 data].
  { simpl. intros H. injection H as <-. contradiction. }
  rewrite format_proba_density_nonempty by discriminate.
  destruct (KernelDensity_fit _ _ _) as [kde|e]; [|discriminate].
  cbn [call bind].
  destruct (score_samples kde _) as [ld|e]; [|discriminate].
  cbn [ret outcome snd]. intros H. injection H as <-. intros Hin.
  split; [exact (in_combine_l _ _ _ _ Hin)|].
  apply in_combine_r in Hin. apply in_map_iff in Hin as (v & <- & _).
  unfold np.isnan. destruct (PrimFloat.is_nan v) eqn:Hv; simpl.
  - now left.
  - right. now exists v.
Qed.

End FurtherDensityFacts.

(** A sample holding a NaN: the rule of thumb is NaN, and the kernel is
    fitted with it. *)
Lemma format_proba_density_fitted_bandwidth_witness :
  In (nan, [nan; 1]%float, None)
     (kernel_fits (trace (format_proba_density (num := reference_numerics)
                            (neighbors := reference_neighbors)
                            [nan; 1]%float None 0 1)))
  /\ PrimFloat.is_nan nan = true
  /\ (nan <=? 0)%float = false.
Proof.
  assert (Hin :
    In (nan, [nan; 1]%float, None)
       (kernel_fits (trace (format_proba_density (num := reference_numerics)
                              (neighbors := reference_neighbors)
                              [nan; 1]%float None 0 1))))
    by (vm_compute; now left).
  split; [exact Hin|].
  destruct (format_proba_density_fitted_bandwidth (num := reference_numerics)
              (neighbors := reference_neighbors) _ _ _ _ _ _ _ Hin)
    as (_ & Hh & _).
  split; [reflexivity|exact Hh].
Defined.

(** A sample holding an infinity is refused by the kernel fit. *)
Lemma format_proba_density_propagates_failures_witness :
  outcome (format_proba_density (num := reference_numerics)
             (neighbors := reference_neighbors) [infinity; 1]%float None 0 1)
  = Raise (ValueError "Input contains NaN, infinity or a value too large")
  /\ length (trace (format_proba_density (num := reference_numerics)
                      (neighbors := reference_neighbors)
                      [infinity; 1]%float None 0 1)) = 1%nat.
Proof.
  destruct (format_proba_density_propagates_failures (num := reference_numerics)
              (neighbors := reference_neighbors) [infinity; 1]%float None 0 1
              (ValueError "Input contains NaN, infinity or a value too large"))
    as (H & _); [discriminate|].
  rewrite H by (vm_compute; reflexivity).
  split; reflexivity.
Defined.

(** Three equal values, with weights. *)
Lemma format_proba_density_zero_deviation_witness :
  kernel_fits (trace (format_proba_density (num := reference_numerics)
                        (neighbors := reference_neighbors)
                        [0.5; 0.5; 0.5]%float (Some [1; 2; 3]%float) 0 1))
  = [(0.06%float, [0.5; 0.5; 0.5]%float, None)].
Proof.
  rewrite (format_proba_density_zero_deviation (num := reference_numerics)
             (neighbors := reference_neighbors)).
  - reflexivity.
  - discriminate.
  - vm_compute. reflexivity.
  - vm_compute. reflexivity.
Defined.

(** A kernel that answers NaN everywhere: the first pair is [(0, 0)]. *)
Lemma format_proba_density_never_returns_nan_witness :
  exists out,
    outcome (format_proba_density (num := reference_numerics)
               (neighbors := constant_log_density nan) [0.5]%float None 0 1)
    = Ok out
    /\ In (0%float, PyInt 0) out
    /\ In 0%float (np.linspace 0 1 500).
Proof.
  destruct (outcome (format_proba_density (num := reference_numerics)
                       (neighbors := constant_log_density nan)
                       [0.5]%float None 0 1)) as [out|e] eqn:Hout;
    [|vm_compute in Hout; discriminate].
  exists out. split; [reflexivity|].
  assert (Hin : In (0%float, PyInt 0) out).
  { revert Hout. vm_compute. intros H. injection H as <-. now left. }
  split; [exact Hin|].
  exact (proj1 (format_proba_density_never_returns_nan
                  (num := reference_numerics)
                  (neighbors := constant_log_density nan)
                  _ _ _ _ _ _ _ Hout Hin)).
Defined.

(* ================================================================= *)
(** ** Further properties of the surrogate model *)

Lemma existsb_eqb_In (name : string) (names : list string) :
  existsb (String.eqb name) names = true <-> In name names.
Proof.
  rewrite existsb_exists. split.
  - intros (x & Hx & Heq). apply String.eqb_eq in Heq. now subst.
  - intros Hin. exists name. split; [assumption|apply String.eqb_refl].
Qed.

Lemma drop_getitem_lengths (df : DataFrame) (name : string)
    (X : DataFrame) (Y : list (list cell)) :
  drop df name = Ok X -> getitem df name = Ok Y ->
  (length X + length Y = length df)%nat /\ Y <> [] /\ In name (columns df).
Proof.
  unfold drop, getitem.
  destruct (existsb (String.eqb name) (columns df)) eqn:Hin; [|discriminate].
  intros HX HY. injection HX as <-. injection HY as <-.
  apply existsb_eqb_In in Hin. split; [|split; [|exact Hin]].
  - rewrite length_map. clear Hin.
    induction df as [|[c cells] df IH]; simpl; [reflexivity|].
    destruct (String.eqb name c); simpl; lia.
  - unfold columns in Hin. apply in_map_iff in Hin as ([c cells] & Hc & Hin).
    simpl in Hc. subst c. intros Hnil.
    assert (Hf : In (name, cells) (filter (fun c => String.eqb name (fst c)) df)).
    { apply filter_In. split; [assumption|apply String.eqb_refl]. }
    apply (in_map snd) in Hf. rewrite Hnil in Hf. contradiction.
Qed.

Section FurtherSurrogateFacts.

Context {ensemble : sklearn_ensemble}.

(** When the train partition that the preprocessing returns has no
    column by the target's name, [fit] ends on pandas' [KeyError] for
    that name: the estimator is not called. *)
Theorem fit_missing_target_column {preprocessor : preprocessing}
    (self : SurrogateModel) (df : DataFrame) (target_name : string)
    (train test : DataFrame) :
  get_processed_train_test df target_name = Ok (train, test) ->
  ~ In target_name (columns train) ->
  fit self df target_name
  = ([call_get_processed_train_test df target_name],
     Raise (KeyError target_name)).
Proof.
  intros Hpre Hnot. unfold fit. rewrite Hpre. cbn [call bind fst].
  unfold drop.
  destruct (existsb (String.eqb target_name) (columns train)) eqn:Hin.
  - apply existsb_eqb_In in Hin. contradiction.
  - reflexivity.
Qed.

(** After a successful [fit] the target is not among the recorded
    features: the estimator was fitted on the feature columns, without
    the target, against the target column(s), of which there is at
    least one, and the two together are all the columns of the train
    partition. *)
Theorem features_exclude_target {preprocessor : preprocessing}
    (self self' : SurrogateModel) (df : DataFrame) (target_name : string) :
  outcome (fit self df target_name) = Ok self' ->
  exists train test train_X train_Y,
    get_processed_train_test df target_name = Ok (train, test)
    /\ trace (fit self df target_name)
       = [call_get_processed_train_test df target_name;
          call_estimator_fit train_X train_Y]
    /\ get_features self' = Some (columns train_X)
    /\ ~ In target_name (columns train_X)
    /\ train_Y <> []
    /\ (length train_X + length train_Y = length train)%nat
    /\ (forall c, In c (columns train)
                  <-> c = target_name \/ In c (columns train_X)).
Proof.
  intros Hfit.
  destruct (fit_ok _ _ _ _ Hfit)
    as (train & test & train_X & train_Y & fitted & Hpre & Hdrop & Hget & Hest & ->).
  exists train, test, train_X, train_Y.
  destruct (drop_getitem_lengths _ _ _ _ Hdrop Hget) as (Hlen & HY & Hin).
  assert (Hcols := drop_columns _ _ _ Hdrop).
  split; [assumption|]. split.
  { unfold fit. rewrite Hpre. cbn [call bind fst].
    rewrite Hdrop, bind_pure_ok, Hget, bind_pure_ok, Hest. reflexivity. }
  split; [reflexivity|]. split.
  { rewrite Hcols. intros H. apply filter_In in H as (_ & H).
    now rewrite String.eqb_refl in H. }
  split; [assumption|]. split; [assumption|].
  intros c. rewrite Hcols, filter_In.
  destruct (String.eqb_spec target_name c) as [->|Hne]; simpl.
  - split; [now left|now intros _].
  - split; [intros H; right; now split|].
    intros [->|[H _]]; [contradiction|assumption].
Qed.

(** The test partition plays no part: two preprocessings that return
    the same train partition give the same [fit], whatever their test
    partitions. *)
Theorem fit_ignores_test_partition (p1 p2 : preprocessing)
    (self : SurrogateModel) (df : DataFrame) (target_name : string)
    (train test1 test2 : DataFrame) :
  get_processed_train_test (preprocessing := p1) df target_name = Ok (train, test1) ->
  get_processed_train_test (preprocessing := p2) df target_name = Ok (train, test2) ->
  fit (preprocessor := p1) self df target_name
  = fit (preprocessor := p2) self df target_name.
Proof.
  intros H1 H2. unfold fit. rewrite H1, H2. reflexivity.
Qed.

End FurtherSurrogateFacts.

(** A table handed to [fit] with a target it does not have, when the
    preprocessing lets it through. *)
Lemma fit_missing_target_column_witness :
  fit (preprocessor := passthrough []) unfitted_regressor flats "price"
  = ([call_get_processed_train_test flats "price"], Raise (KeyError "price")).
Proof.
  apply (fit_missing_target_column (preprocessor := passthrough [])
           unfitted_regressor flats "price" flats []).
  - reflexivity.
  - simpl. intros [H|[H|[]]]; discriminate.
Defined.

Lemma features_exclude_target_witness :
  exists names,
    get_features shops_model = Some names /\ ~ In "price"%string names.
Proof.
  destruct (features_exclude_target (preprocessor := reference_preprocessing)
              unfitted_regressor shops_model shops "price")
    as (train & test & train_X & train_Y & _ & _ & Hfeat & Hnot & _).
  - vm_compute. reflexivity.
  - exists (columns train_X). split; assumption.
Defined.

Lemma fit_ignores_test_partition_witness :
  fit (preprocessor := passthrough []) unfitted_regressor flats "rent"
  = fit (preprocessor := passthrough flats) unfitted_regressor flats "rent".
Proof.
  apply (fit_ignores_test_partition (passthrough []) (passthrough flats)
           unfitted_regressor flats "rent" flats [] flats); reflexivity.
Defined.
